(** * loglinter: call-site extraction and content rules

    A shallow embedding of the rule functions (package [rules]) and of the
    analysis pass (package [analyzer]) of the log linter, with the properties
    its specification states about them.

    Go strings are byte sequences; they are modelled by [string] (a list of
    8-bit characters).  A rune is a [Z].  The parts of the Go standard library
    the code calls ([unicode/utf8], [unicode], [strings], [fmt]) are modelled
    in the first modules of the file; the Unicode tables above ASCII and the
    [%q] verb of [fmt] are parameters (record [Go.Lib]). *)

From Stdlib Require Import ZArith Ascii String List Bool Lia.
From stdpp Require Import base decidable option list gmap strings.

Local Open Scope Z_scope.
Set Warnings "-register-all,-clear-no-such-hyp".

(** ** Bytes *)

Definition byte_val (c : ascii) : Z := Z.of_N (N_of_ascii c).
Definition byte_chr (z : Z) : ascii := ascii_of_N (Z.to_N (z mod 256)).

(** The double quote and the backslash, the backquote, newline and tab. *)
Definition dquote : ascii := "034"%char.
Definition bslash : ascii := "092"%char.
Definition bquote : ascii := "096"%char.
Definition newline : ascii := "010"%char.
Definition tab : ascii := "009"%char.
Definition str1 (c : ascii) : string := String c EmptyString.

(** ** unicode/utf8 *)

Module utf8.

Definition RuneError : Z := 0xFFFD.
Definition RuneSelf : Z := 0x80.
Definition MaxRune : Z := 0x10FFFF.

Definition maskx : Z := 0x3F.
Definition mask2 : Z := 0x1F.
Definition mask3 : Z := 0x0F.
Definition mask4 : Z := 0x07.
Definition locb : Z := 0x80.
Definition hicb : Z := 0xBF.

Definition xx : Z := 0xF1.
Definition as_ : Z := 0xF0.
Definition s1 : Z := 0x02.
Definition s2 : Z := 0x13.
Definition s3 : Z := 0x03.
Definition s4 : Z := 0x23.
Definition s5 : Z := 0x34.
Definition s6 : Z := 0x04.
Definition s7 : Z := 0x44.

(** The table [first]: information about the first byte of an encoding. *)
Definition first (b : Z) : Z :=
  if b <? 0x80 then as_
  else if b <? 0xC2 then xx
  else if b <? 0xE0 then s1
  else if b =? 0xE0 then s2
  else if b <? 0xED then s3
  else if b =? 0xED then s4
  else if b <? 0xF0 then s3
  else if b =? 0xF0 then s5
  else if b <? 0xF4 then s6
  else if b =? 0xF4 then s7
  else xx.

(** [acceptRanges]: the range of valid values of the second byte. *)
Definition acceptRanges (i : Z) : Z * Z :=
  if i =? 0 then (locb, hicb)
  else if i =? 1 then (0xA0, hicb)
  else if i =? 2 then (locb, 0x9F)
  else if i =? 3 then (0x90, hicb)
  else if i =? 4 then (locb, 0x8F)
  else (0, 0).

Definition outside (lo hi b : Z) : bool := (b <? lo) || (hi <? b).

(** [utf8.DecodeRuneInString]: the first rune of [s] and its width in
    bytes; [(RuneError, 0)] on the empty string and [(RuneError, 1)] on an
    invalid encoding. *)
Definition DecodeRuneInString (s : string) : Z * nat :=
  match s with
  | EmptyString => (RuneError, 0%nat)
  | String c0 t0 =>
    let b0 := byte_val c0 in
    let x := first b0 in
    if as_ <=? x then
      (* [mask := rune(x) << 31 >> 31]: all ones for [xx], zero for [as] *)
      (if Z.odd x then RuneError else b0, 1%nat)
    else
      let sz := Z.to_nat (Z.land x 7) in
      let '(lo, hi) := acceptRanges (Z.shiftr x 4) in
      if (String.length s <? sz)%nat then (RuneError, 1%nat) else
      match t0 with
      | EmptyString => (RuneError, 1%nat)
      | String c1 t1 =>
        let b1 := byte_val c1 in
        if outside lo hi b1 then (RuneError, 1%nat)
        else if (sz <=? 2)%nat then
          (Z.lor (Z.shiftl (Z.land b0 mask2) 6) (Z.land b1 maskx), 2%nat)
        else
          match t1 with
          | EmptyString => (RuneError, 1%nat)
          | String c2 t2 =>
            let b2 := byte_val c2 in
            if outside locb hicb b2 then (RuneError, 1%nat)
            else if (sz <=? 3)%nat then
              (Z.lor (Z.lor (Z.shiftl (Z.land b0 mask3) 12)
                             (Z.shiftl (Z.land b1 maskx) 6))
                     (Z.land b2 maskx), 3%nat)
            else
              match t2 with
              | EmptyString => (RuneError, 1%nat)
              | String c3 _ =>
                let b3 := byte_val c3 in
                if outside locb hicb b3 then (RuneError, 1%nat)
                else
                  (Z.lor (Z.lor (Z.lor (Z.shiftl (Z.land b0 mask4) 18)
                                        (Z.shiftl (Z.land b1 maskx) 12))
                                (Z.shiftl (Z.land b2 maskx) 6))
                         (Z.land b3 maskx), 4%nat)
              end
          end
      end
  end.

(** [for i, r := range s]: the runes of [s] in order, each with the bytes
    it was decoded from.  After a rune of width [w] the next [w - 1] bytes
    are skipped. *)
Fixpoint range_from (skip : nat) (s : string) : list (Z * string) :=
  match s with
  | EmptyString => []
  | String _ t =>
    match skip with
    | S k => range_from k t
    | O =>
      let '(r, w) := DecodeRuneInString s in
      (r, substring 0 w s) :: range_from (pred w) t
    end
  end.

Definition range (s : string) : list (Z * string) := range_from 0 s.

(** [[]rune(s)] *)
Definition runes (s : string) : list Z := (range s).*1.

Definition t2 : Z := 0xC0.
Definition t3 : Z := 0xE0.
Definition t4 : Z := 0xF0.
Definition tx : Z := 0x80.
Definition rune1Max : Z := 0x7F.
Definition rune2Max : Z := 0x7FF.
Definition rune3Max : Z := 0xFFFF.
Definition surrogateMin : Z := 0xD800.
Definition surrogateMax : Z := 0xDFFF.

Definition bytes3 (r : Z) : string :=
  String (byte_chr (Z.lor t3 (Z.shiftr r 12)))
    (String (byte_chr (Z.lor tx (Z.land (Z.shiftr r 6) maskx)))
       (String (byte_chr (Z.lor tx (Z.land r maskx))) EmptyString)).

(** [utf8.AppendRune] on an empty buffer, which is what
    [strings.Builder.WriteRune] appends and what [string(r)] is: a rune out
    of range (negative, above [MaxRune], a surrogate) is written as
    [RuneError]. *)
Definition EncodeRune (r : Z) : string :=
  if (0 <=? r) && (r <=? rune1Max) then str1 (byte_chr r)
  else if (0 <=? r) && (r <=? rune2Max) then
    String (byte_chr (Z.lor t2 (Z.shiftr r 6)))
      (String (byte_chr (Z.lor tx (Z.land r maskx))) EmptyString)
  else if (r <? 0) || (MaxRune <? r)
          || ((surrogateMin <=? r) && (r <=? surrogateMax)) then
    bytes3 RuneError
  else if r <=? rune3Max then bytes3 r
  else
    String (byte_chr (Z.lor t4 (Z.shiftr r 18)))
      (String (byte_chr (Z.lor tx (Z.land (Z.shiftr r 12) maskx)))
         (String (byte_chr (Z.lor tx (Z.land (Z.shiftr r 6) maskx)))
            (String (byte_chr (Z.lor tx (Z.land r maskx))) EmptyString))).

(** [string(rs)] for a slice of runes. *)
Definition of_runes (rs : list Z) : string :=
  foldr (fun r acc => EncodeRune r +:+ acc) EmptyString rs.

End utf8.

(** ** The parts of the Go library that are tables or formatting verbs *)

Module Go.

(** What the code takes from Go's [unicode] tables above ASCII, from
    [fmt]'s [%q] verb and from [path/filepath].  On ASCII the
    classification is fixed below ([unicode.IsUpper] and the like). *)
Record Lib := {
  tblUpper : Z -> bool;      (* category Lu, runes above ASCII *)
  tblLower : Z -> bool;      (* category Ll *)
  tblDigit : Z -> bool;      (* category Nd *)
  tblPunct : Z -> bool;      (* categories P* *)
  tblSymbol : Z -> bool;     (* categories S* *)
  tblSo : Z -> bool;         (* category So *)
  tblToLower : Z -> Z;       (* unicode.ToLower, runes above ASCII *)
  quoteRune : Z -> string;   (* fmt: %q of a rune *)
  quoteString : string -> string;  (* fmt: %q of a string *)
  Clean : string -> string   (* filepath.Clean *)
}.

End Go.

(** ** unicode *)

Module unicode.

Definition MaxASCII : Z := 0x7F.

Definition in_range (lo hi r : Z) : bool := (lo <=? r) && (r <=? hi).

(** Does the byte string [s] hold the ASCII code [r]? *)
Fixpoint has_code (r : Z) (s : string) : bool :=
  match s with
  | EmptyString => false
  | String c t => (byte_val c =? r) || has_code r t
  end.

(** ASCII punctuation (categories Pc, Pd, Ps, Pe, Po) and ASCII symbols
    (Sc, Sk, Sm): the entries [pP] and [pS] of the table [properties]. *)
Definition asciiPunct : string :=
  String dquote "!#%&'()*,-./:;?@[\]_{}".
Definition asciiSymbol : string := "$+<=>^`|~".

Section tables.
Variable L : Go.Lib.

Definition IsUpper (r : Z) : bool :=
  if r <=? MaxASCII then in_range 0x41 0x5A r else Go.tblUpper L r.

Definition IsLower (r : Z) : bool :=
  if r <=? MaxASCII then in_range 0x61 0x7A r else Go.tblLower L r.

Definition IsDigit (r : Z) : bool :=
  if r <=? MaxASCII then in_range 0x30 0x39 r else Go.tblDigit L r.

Definition IsPunct (r : Z) : bool :=
  if r <=? MaxASCII then has_code r asciiPunct else Go.tblPunct L r.

Definition IsSymbol (r : Z) : bool :=
  if r <=? MaxASCII then has_code r asciiSymbol else Go.tblSymbol L r.

(** [unicode.Is(unicode.So, r)]: no ASCII character is in So. *)
Definition IsSo (r : Z) : bool :=
  if r <=? MaxASCII then false else Go.tblSo L r.

Definition ToLower (r : Z) : Z :=
  if r <=? MaxASCII then
    (if in_range 0x41 0x5A r then r + 0x20 else r)
  else Go.tblToLower L r.
End tables.

(** [unicode.IsSpace]: the property White_Space. *)
Definition IsSpace (r : Z) : bool :=
  if r <=? 0xFF then
    in_range 0x09 0x0D r || (r =? 0x20) || (r =? 0x85) || (r =? 0xA0)
  else
    (r =? 0x1680) || in_range 0x2000 0x200A r || in_range 0x2028 0x2029 r
    || (r =? 0x202F) || (r =? 0x205F) || (r =? 0x3000).

End unicode.

(** ** strings *)

Module strings.

Definition HasPrefix (s p : string) : bool := String.prefix p s.

(** [strings.Contains]: [sub] occurs in [s] (as bytes). *)
Fixpoint Contains (s sub : string) : bool :=
  HasPrefix s sub ||
  match s with
  | EmptyString => false
  | String _ t => Contains t sub
  end.

Definition TrimPrefix (s p : string) : string :=
  if HasPrefix s p then substring (String.length p) (String.length s - String.length p) s
  else s.

Definition rev (s : string) : string :=
  string_of_list_ascii (List.rev (list_ascii_of_string s)).

Definition HasSuffix (s p : string) : bool := HasPrefix (rev s) (rev p).

Definition TrimSuffix (s p : string) : string :=
  if HasSuffix s p then substring 0 (String.length s - String.length p) s
  else s.

Fixpoint has_byte (c : ascii) (s : string) : bool :=
  match s with
  | EmptyString => false
  | String d t => Ascii.eqb c d || has_byte c t
  end.

Fixpoint trimLeftASCII (s cutset : string) : string :=
  match s with
  | EmptyString => EmptyString
  | String c t => if has_byte c cutset then trimLeftASCII t cutset else s
  end.

(** [strings.Trim] for a cutset of ASCII characters (the code passes one
    quote character): the bytes of the cutset are removed at both ends. *)
Definition Trim (s cutset : string) : string :=
  rev (trimLeftASCII (rev (trimLeftASCII s cutset)) cutset).

(** [strings.ReplaceAll s old new] for a non-empty [old]: the occurrences
    of [old] that do not overlap, from the left, are replaced by [new].
    After a match the rest of the matched bytes is skipped. *)
Fixpoint replace_from (skip : nat) (s old new : string) : string :=
  match s with
  | EmptyString => EmptyString
  | String c t =>
    match skip with
    | S k => replace_from k t old new
    | O =>
      if HasPrefix s old then new +:+ replace_from (pred (String.length old)) t old new
      else String c (replace_from 0 t old new)
    end
  end.

(** For an empty [old], Go inserts [new] before every rune and at the
    end. *)
Definition ReplaceAll (s old new : string) : string :=
  match old with
  | EmptyString =>
    foldr (fun it acc => new +:+ it.2 +:+ acc) new (utf8.range s)
  | _ => replace_from 0 s old new
  end.

(** The bytes of a sequence of decoded runes. *)
Definition chunks (its : list (Z * string)) : string :=
  foldr (fun it acc => it.2 +:+ acc) EmptyString its.

Fixpoint dropSpaces (its : list (Z * string)) : list (Z * string) :=
  match its with
  | [] => []
  | it :: rest => if unicode.IsSpace it.1 then dropSpaces rest else its
  end.

(** [strings.TrimSpace]: the leading and the trailing white space, as
    defined by Unicode, is removed. *)
Definition TrimSpace (s : string) : string :=
  chunks (reverse (dropSpaces (reverse (dropSpaces (utf8.range s))))).

(** [strings.ContainsRune] *)
Definition ContainsRune (s : string) (r : Z) : bool :=
  bool_decide (r ∈ utf8.runes s).

(** [strings.Join parts ""] *)
Definition Join (parts : list string) : string :=
  foldr String.append EmptyString parts.

(** The loop of [strings.FieldsFunc]: [cur] is the field being read, if
    any ([start >= 0]). *)
Fixpoint fields_loop (f : Z -> bool) (its : list (Z * string))
         (cur : option string) : list string :=
  match its with
  | [] => match cur with Some t => [t] | None => [] end
  | it :: rest =>
    if f it.1 then
      match cur with
      | Some t => t :: fields_loop f rest None
      | None => fields_loop f rest None
      end
    else
      match cur with
      | Some t => fields_loop f rest (Some (t +:+ it.2))
      | None => fields_loop f rest (Some it.2)
      end
  end.

Definition FieldsFunc (s : string) (f : Z -> bool) : list string :=
  fields_loop f (utf8.range s) None.

Section tables.
Variable L : Go.Lib.

(** [strings.Map mapping s]: every rune of [s] is mapped and written
    back; an invalid byte is read as [RuneError], and a rune mapped to a
    negative value is dropped. *)
Definition Map (mapping : Z -> Z) (s : string) : string :=
  foldr (fun it acc =>
           let r := mapping it.1 in
           if 0 <=? r then utf8.EncodeRune r +:+ acc else acc)
        EmptyString (utf8.range s).

(** [strings.ToLower] *)
Definition ToLower (s : string) : string := Map (unicode.ToLower L) s.
End tables.

End strings.

(** ** Package rules: the four rule functions

    Every rule returns the empty string when the message complies and a
    diagnostic text otherwise. *)

Module rules.

Section rules.
Variable L : Go.Lib.

(** *** CheckEnglish *)

Definition isAllowedNonASCII (r : Z) : bool :=
  (r =? 0x2013) || (r =? 0x2014) || (r =? 0x2018) || (r =? 0x2019)
  || (r =? 0x201C) || (r =? 0x201D) || (r =? 0x2026).

Definition scriptName (r : Z) : string :=
  if (0x0400 <=? r) && (r <=? 0x04FF) then "Cyrillic"
  else if (0x4E00 <=? r) && (r <=? 0x9FFF) then "CJK"
  else if (0x0600 <=? r) && (r <=? 0x06FF) then "Arabic"
  else if (0x0900 <=? r) && (r <=? 0x097F) then "Devanagari"
  else if (0x1F300 <=? r) && (r <=? 0x1FAFF) then "Emoji"
  else "non-Latin".

Definition englishDiag (r : Z) : string :=
  "log message contains non-English characters (" +:+ scriptName r
    +:+ " script, rune " +:+ Go.quoteRune L r +:+ ")".

Fixpoint CheckEnglish_loop (rs : list Z) : string :=
  match rs with
  | [] => ""
  | r :: rest =>
    if r <=? unicode.MaxASCII then CheckEnglish_loop rest
    else if isAllowedNonASCII r then CheckEnglish_loop rest
    else englishDiag r
  end.

Definition CheckEnglish (msg : string) : string :=
  CheckEnglish_loop (utf8.runes msg).

(** *** CheckLowercase *)

Definition lowercaseDiag : string :=
  "log message should start with a lowercase letter".

Definition CheckLowercase (msg : string) : string :=
  let msg := strings.TrimSpace msg in
  if decide (msg = "") then ""
  else
    let '(r, _) := utf8.DecodeRuneInString msg in
    if r =? utf8.RuneError then ""
    else if unicode.IsUpper L r then lowercaseDiag
    else "".

(** *** CheckSpecialChars *)

Definition defaultForbiddenASCII : string :=
  "!@#$%^&*+=|\<>?`~;'" +:+ str1 dquote.

(** The keys of a [map[rune]struct{}] filled from the runes of [s]. *)
Definition runeSet (s : string) : gset Z :=
  foldl (fun m r => {[ r ]} ∪ m) ∅ (utf8.runes s).

Definition buildForbiddenSet (allowedExtra : string) : gset Z :=
  let allowed := runeSet allowedExtra in
  foldl (fun set r => if decide (r ∈ allowed) then set else {[ r ]} ∪ set)
        ∅ (utf8.runes defaultForbiddenASCII).

Definition isEmoji (r : Z) : bool :=
  unicode.IsSo L r
  || ((0x1F300 <=? r) && (r <=? 0x1FAFF))
  || ((0x2600 <=? r) && (r <=? 0x27BF))
  || ((0xFE00 <=? r) && (r <=? 0xFE0F)).

Definition repeatedDiag (seq : string) : string :=
  "log message contains repeated punctuation " +:+ Go.quoteString L seq.

Fixpoint checkRepeatedPunctuation_loop (msg : string) (seqs : list string)
  : string :=
  match seqs with
  | [] => ""
  | seq :: rest =>
    if strings.Contains msg seq then repeatedDiag seq
    else checkRepeatedPunctuation_loop msg rest
  end.

Definition checkRepeatedPunctuation (msg : string) : string :=
  checkRepeatedPunctuation_loop msg ["..."; "!!"; "??"; "***"].

Definition emojiDiag (r : Z) : string :=
  "log message contains emoji or special Unicode symbol (rune "
    +:+ Go.quoteRune L r +:+ ")".

Definition forbiddenDiag (r : Z) : string :=
  "log message contains forbidden special character " +:+ Go.quoteRune L r.

(** The loop over the runes of the message: [Some diag] when it returns
    from inside the loop, [None] when it runs to its end. *)
Fixpoint CheckSpecialChars_loop (forbidden : gset Z) (rs : list Z)
  : option string :=
  match rs with
  | [] => None
  | r :: rest =>
    if isEmoji r then Some (emojiDiag r)
    else if ((r <=? unicode.MaxASCII) && unicode.IsPunct L r
             || unicode.IsSymbol L r)
            && bool_decide (r ∈ forbidden)
    then Some (forbiddenDiag r)
    else CheckSpecialChars_loop forbidden rest
  end.

Definition CheckSpecialChars (msg allowedExtra : string) : string :=
  let forbidden := buildForbiddenSet allowedExtra in
  match CheckSpecialChars_loop forbidden (utf8.runes msg) with
  | Some diag => diag
  | None =>
    let diag := checkRepeatedPunctuation msg in
    if decide (diag ≠ "") then diag else ""
  end.

(** *** CheckSensitive *)

(** The function literal [tokenizeWords] gives to [FieldsFunc]. *)
Definition isSeparator (r : Z) : bool :=
  if (0x61 <=? r) && (r <=? 0x7A) then false
  else if (0x30 <=? r) && (r <=? 0x39) then false
  else if r =? 0x5F then false
  else true.

Definition tokenizeWords (s : string) : list string :=
  strings.FieldsFunc s isSeparator.

(** The loop of [stripStringLiterals] with its three flags; the result
    is what was written to the builder. *)
Fixpoint stripStringLiterals_loop (rs : list Z)
         (inDouble inRaw escape : bool) : string :=
  match rs with
  | [] => ""
  | r :: rest =>
    if inRaw then
      if r =? 0x60 then
        " " +:+ stripStringLiterals_loop rest inDouble false escape
      else stripStringLiterals_loop rest inDouble inRaw escape
    else if inDouble then
      if escape then stripStringLiterals_loop rest inDouble inRaw false
      else if r =? 0x5C then stripStringLiterals_loop rest inDouble inRaw true
      else if r =? 0x22 then
        " " +:+ stripStringLiterals_loop rest false inRaw escape
      else stripStringLiterals_loop rest inDouble inRaw escape
    else if r =? 0x22 then
      " " +:+ stripStringLiterals_loop rest true inRaw escape
    else if r =? 0x60 then
      " " +:+ stripStringLiterals_loop rest inDouble true escape
    else utf8.EncodeRune r +:+ stripStringLiterals_loop rest inDouble inRaw escape
  end.

Definition stripStringLiterals (expr : string) : string :=
  stripStringLiterals_loop (utf8.runes expr) false false false.

Definition safeNext : gset string :=
  {[ "ok"; "success"; "successful"; "succeeded"; "failed"; "failure";
     "error"; "invalid"; "missing"; "present"; "enabled"; "disabled";
     "created"; "generated"; "refreshed"; "expired"; "validated";
     "completed"; "revoked"; "rotated"; "updated"; "authorized";
     "unauthorized" ]}.

Definition sensitiveMsgDiag (kw : string) : string :=
  "log message may contain sensitive data (keyword "
    +:+ Go.quoteString L kw +:+ " found in message text)".

Definition sensitiveExprDiag (kw : string) : string :=
  "log message may contain sensitive data (keyword "
    +:+ Go.quoteString L kw +:+ " found in argument expression)".

(** The loop over the tokens for one keyword: [true] when it returns the
    diagnostic, [false] when it ends or breaks.  [tokens[i+1]] is the head
    of the tokens after [tok]. *)
Fixpoint tokens_loop (kw : string) (tokens : list string) : bool :=
  match tokens with
  | [] => false
  | tok :: rest =>
    if decide (tok ≠ kw) then tokens_loop kw rest
    else
      match rest with
      | next :: _ => if decide (next ∈ safeNext) then false else true
      | [] => true
      end
  end.

Definition normalizeExpr (lowerExpr : string) : string :=
  let exprNoStrings := stripStringLiterals lowerExpr in
  let normalized := strings.ReplaceAll exprNoStrings "_" "" in
  strings.ReplaceAll normalized " " "".

Fixpoint CheckSensitive_loop (tokens : list string) (lowerExpr : string)
         (keywords : list string) : string :=
  match keywords with
  | [] => ""
  | kw :: rest =>
    let kw := strings.ToLower L kw in
    if tokens_loop kw tokens then sensitiveMsgDiag kw
    else
      let normalized := normalizeExpr lowerExpr in
      let kwNorm := strings.ReplaceAll kw "_" "" in
      if strings.Contains normalized kwNorm then sensitiveExprDiag kw
      else CheckSensitive_loop tokens lowerExpr rest
  end.

Definition CheckSensitive (msg fullExpr : string) (keywords : list string)
  : string :=
  let lower := strings.ToLower L msg in
  let lowerExpr := strings.ToLower L fullExpr in
  let tokens := tokenizeWords lower in
  CheckSensitive_loop tokens lowerExpr keywords.

End rules.

End rules.

(** ** Package basic: the earlier form of the sensitive-keyword rule

    The keyword is searched in the lower-cased message as a substring, and
    in the expression as it is, string literals included. *)

Module basic.

Section basic.
Variable L : Go.Lib.

Definition normalizeExpr (lowerExpr : string) : string :=
  let normalized := strings.ReplaceAll lowerExpr "_" "" in
  strings.ReplaceAll normalized " " "".

Fixpoint CheckSensitive_loop (lower lowerExpr : string)
         (keywords : list string) : string :=
  match keywords with
  | [] => ""
  | kw :: rest =>
    let kw := strings.ToLower L kw in
    if strings.Contains lower kw then rules.sensitiveMsgDiag L kw
    else
      let normalized := normalizeExpr lowerExpr in
      let kwNorm := strings.ReplaceAll kw "_" "" in
      if strings.Contains normalized kwNorm then rules.sensitiveExprDiag L kw
      else CheckSensitive_loop lower lowerExpr rest
  end.

Definition CheckSensitive (msg fullExpr : string) (keywords : list string)
  : string :=
  let lower := strings.ToLower L msg in
  let lowerExpr := strings.ToLower L fullExpr in
  CheckSensitive_loop lower lowerExpr keywords.

End basic.

End basic.

(** A computation that may panic (an index out of range, an assignment
    to an entry of a nil map). *)
Inductive outcome (A : Type) :=
| Done (a : A)
| Panic (what : string).
Arguments Done {A} a.
Arguments Panic {A} what.

#[global] Instance outcome_ret : MRet outcome := fun A a => Done a.
#[global] Instance outcome_bind : MBind outcome := fun A B k m =>
  match m with
  | Done a => k a
  | Panic w => Panic w
  end.

(** ** Package config *)

Module config.

Definition RuleLowercase : string := "lowercase".
Definition RuleEnglish : string := "english".
Definition RuleSpecial : string := "special".
Definition RuleSensitive : string := "sensitive".

Record Config := {
  Rules : option (gmap string bool);   (* [None]: a nil map *)
  SensitiveKeywords : list string;
  AllowedSpecialChars : string
}.

Definition defaultSensitiveKeywords : list string :=
  [ "password"; "passwd"; "secret"; "token"; "api_key"; "apikey"; "auth";
    "credential"; "private_key"; "access_key"; "session"; "jwt"; "bearer";
    "ssn"; "credit_card" ].

Definition DefaultConfig : Config :=
  {| Rules := Some (<[ RuleLowercase := true ]>
                    (<[ RuleEnglish := true ]>
                     (<[ RuleSpecial := true ]>
                      (<[ RuleSensitive := true ]> ∅))));
     SensitiveKeywords := defaultSensitiveKeywords;
     AllowedSpecialChars := "" |}.

Definition IsRuleEnabled (c : Config) (name : string) : bool :=
  match Rules c with
  | None => true
  | Some rules =>
    match rules !! name with
    | None => true
    | Some enabled => enabled
    end
  end.

(** What [Load] gets from the operating system and from the YAML
    library: the result of [os.ReadFile] on a path (the bytes of the file,
    an error for which [os.IsNotExist] holds, or another error, with its
    text), and the result of [yaml.Unmarshal] of the bytes into the struct
    [file] (the struct, or the text of the error). *)
Inductive ReadResult :=
| ReadData (data : string)
| ReadNotExist (err : string)
| ReadError (err : string).

Record FileConfig := {
  file_Rules : option (gmap string bool);
  file_SensitiveKeywords : list string;
  file_AllowedSpecialChars : string
}.

Record Env := {
  ReadFile : string -> ReadResult;
  Unmarshal : string -> FileConfig + string
}.

(** [rules[k] = v]: the assignment to an entry of a nil map panics. *)
Definition assign (rules : option (gmap string bool)) (k : string) (v : bool)
  : outcome (option (gmap string bool)) :=
  match rules with
  | None => Panic "assignment to entry in nil map"
  | Some m => Done (Some (<[ k := v ]> m))
  end.

(** [for k, v := range entries { rules[k] = v }], the entries in the
    order of the iteration. *)
Fixpoint assignAll (rules : option (gmap string bool))
         (entries : list (string * bool))
  : outcome (option (gmap string bool)) :=
  match entries with
  | [] => mret rules
  | (k, v) :: rest => rules ← assign rules k v; assignAll rules rest
  end.

Section Load.
Variable L : Go.Lib.
Variable env : Env.

(** [Load]: [inl cfg] is the result [(cfg, nil)] and [inr err] the
    result [(nil, err)], with the text of the error. *)
Definition Load (path : string) : outcome (Config + string) :=
  let cfg := DefaultConfig in
  match ReadFile env path with
  | ReadNotExist _ => mret (inl cfg)
  | ReadError err =>
    mret (inr ("loglinter: reading config " +:+ Go.quoteString L path
                 +:+ ": " +:+ err))
  | ReadData data =>
    match Unmarshal env data with
    | inr err =>
      mret (inr ("loglinter: parsing config " +:+ Go.quoteString L path
                   +:+ ": " +:+ err))
    | inl file =>
      rules ←
        match file_Rules file with
        | Some fileRules => assignAll (Rules cfg) (map_to_list fileRules)
        | None => mret (Rules cfg)
        end;
      let keywords :=
        if (0 <? length (file_SensitiveKeywords file))%nat then
          SensitiveKeywords cfg ++ file_SensitiveKeywords file
        else SensitiveKeywords cfg in
      let allowed :=
        if decide (file_AllowedSpecialChars file ≠ "") then
          file_AllowedSpecialChars file
        else AllowedSpecialChars cfg in
      mret (inl {| Rules := rules;
                   SensitiveKeywords := keywords;
                   AllowedSpecialChars := allowed |})
    end
  end.

End Load.

End config.

(** ** go/token, go/ast, go/types and go/analysis: what the pass reads *)

Module token.

Inductive Token :=
| ILLEGAL | IDENT | INT | FLOAT | IMAG | CHAR | STRING
| ADD | SUB | MUL | QUO | REM | AND | OR | XOR | SHL | SHR
| LAND | LOR | ARROW | EQL | LSS | GTR | NOT | NEQ | LEQ | GEQ.

#[global] Instance Token_eq_dec : EqDecision Token.
Proof. solve_decision. Defined.

Record Position := {
  Filename : string;
  Offset : Z;
  Line : Z;
  Column : Z
}.

Definition IsValid (p : Position) : bool := 0 <? Line p.

Record File := { name : string; base : Z; size : Z }.

(** The method [Offset] of a file: the offset of [p] in the file,
    brought into [0 .. size]. *)
Definition FileOffset (f : File) (p : Z) : Z :=
  let offset := p - base f in
  if offset <? 0 then 0
  else if size f <? offset then size f
  else offset.

End token.

Module ast.

Record Ident := { NamePos : Z; Name : string }.

(** The expression nodes the pass is run on. *)
Inductive Expr :=
| BadExpr (From To : Z)
| IdentExpr (id : Ident)
| BasicLit (ValuePos : Z) (Kind : token.Token) (Value : string)
| ParenExpr (Lparen : Z) (X : Expr) (Rparen : Z)
| SelectorExpr (X : Expr) (Sel : Ident)
| IndexExpr (X : Expr) (Lbrack : Z) (Index : Expr) (Rbrack : Z)
| CallExpr (Fun : Expr) (Lparen : Z) (Args : list Expr) (Rparen : Z)
| UnaryExpr (OpPos : Z) (Op : token.Token) (X : Expr)
| BinaryExpr (X : Expr) (OpPos : Z) (Op : token.Token) (Y : Expr).

Definition strlen (s : string) : Z := Z.of_nat (String.length s).

Definition IdentEnd (id : Ident) : Z := NamePos id + strlen (Name id).

Fixpoint Pos (e : Expr) : Z :=
  match e with
  | BadExpr from _ => from
  | IdentExpr id => NamePos id
  | BasicLit p _ _ => p
  | ParenExpr lparen _ _ => lparen
  | SelectorExpr x _ => Pos x
  | IndexExpr x _ _ _ => Pos x
  | CallExpr fn _ _ _ => Pos fn
  | UnaryExpr p _ _ => p
  | BinaryExpr x _ _ _ => Pos x
  end.

Fixpoint End_ (e : Expr) : Z :=
  match e with
  | BadExpr _ to => to
  | IdentExpr id => IdentEnd id
  | BasicLit p _ v => p + strlen v
  | ParenExpr _ _ rparen => rparen + 1
  | SelectorExpr _ sel => IdentEnd sel
  | IndexExpr _ _ _ rbrack => rbrack + 1
  | CallExpr _ _ _ rparen => rparen + 1
  | UnaryExpr _ _ x => End_ x
  | BinaryExpr _ _ _ y => End_ y
  end.

(** [ast.Inspect]: [f] is called on every node in depth-first order, the
    children of a node (in the order of [ast.Walk]) only when [f] returned
    [true] on it, and then on [nil].  [f] threads the state [S] its closure
    captures. *)
Section Inspect.
Context {S : Type}.
Variable f : option Expr -> S -> S * bool.

Fixpoint Inspect (e : Expr) (s : S) : S :=
  let '(s, descend) := f (Some e) s in
  if descend then
    let visitIdent (id : Ident) (s : S) : S :=
      let '(s, descend) := f (Some (IdentExpr id)) s in
      if descend then (f None s).1 else s in
    let s :=
      match e with
      | BadExpr _ _ | IdentExpr _ | BasicLit _ _ _ => s
      | ParenExpr _ x _ => Inspect x s
      | SelectorExpr x sel => visitIdent sel (Inspect x s)
      | IndexExpr x _ index _ => Inspect index (Inspect x s)
      | CallExpr fn _ args _ =>
        (fix walkList (l : list Expr) (s : S) : S :=
           match l with
           | [] => s
           | a :: l => walkList l (Inspect a s)
           end) args (Inspect fn s)
      | UnaryExpr _ _ x => Inspect x s
      | BinaryExpr x _ _ y => Inspect y (Inspect x s)
      end in
    (f None s).1
  else s.
End Inspect.

Record File := { Package : Z }.

End ast.

Module types.

(** A [types.Object]: the path of its package ([None] when [Pkg()] is nil)
    and, for a [*types.Const], the text [Val().String()] of its value. *)
Record Object := {
  Pkg : option string;
  ConstVal : option string
}.

End types.

Module analysis.

Record TextEdit := {
  te_Pos : Z;
  te_End : Z;
  NewText : string
}.

Record SuggestedFix := {
  fix_Message : string;
  TextEdits : list TextEdit
}.

Record Diagnostic := {
  d_Pos : Z;
  d_End : Z;
  d_Message : string;
  SuggestedFixes : list SuggestedFix
}.

(** The pass: the file set, the files and the uses of identifiers
    ([TypesInfo.Uses], keyed by the identifier node, which its position
    identifies). *)
Record Pass := {
  Fset_Position : Z -> token.Position;
  Fset_File : Z -> option token.File;
  Files : list ast.File;
  TypesInfo_Uses : gmap Z types.Object
}.

(** An analyzer.  [a_Run pass nodes] is the run of the analyzer on a
    pass, where [nodes] is the sequence of nodes the inspector of the pass
    ([pass.ResultOf[inspect.Analyzer]]) gives in depth-first order; its
    result is the list of the diagnostics it reported (the values it
    returns are always [nil, nil]). *)
Record Analyzer := {
  a_Name : string;
  a_Doc : string;
  a_Requires : list string;
  a_Run : Pass -> list ast.Expr -> outcome (list Diagnostic)
}.

End analysis.

(** ** Package analyzer *)

Module analyzer.

Import analysis.

Record logCall := {
  pos : Z;
  msgArg : ast.Expr;
  msgLiteral : string;
  fullExpr : string
}.

Definition isLogMethod (name : string) : bool :=
  bool_decide (name ∈
    [ "Info"; "Warn"; "Error"; "Debug";
      "Fatal"; "Panic"; "DPanic";
      "InfoCtx"; "WarnCtx"; "ErrorCtx"; "DebugCtx";
      "InfoContext"; "WarnContext"; "ErrorContext"; "DebugContext";
      "Print"; "Printf"; "Println";
      "Fatalf"; "Fatalln";
      "Panicf"; "Panicln" ]).

Definition supportedPkgPrefixes : list string :=
  [ "log/slog"; "go.uber.org/zap"; "go.uber.org/zap/zaptest"; "log" ].

Fixpoint isSupportedPackage_loop (pkgPath : string) (prefixes : list string)
  : bool :=
  match prefixes with
  | [] => false
  | prefix :: rest =>
    if bool_decide (pkgPath = prefix) || strings.HasPrefix pkgPath (prefix +:+ "/")
    then true
    else isSupportedPackage_loop pkgPath rest
  end.

Definition isSupportedPackage (pkgPath : string) : bool :=
  if isSupportedPackage_loop pkgPath supportedPkgPrefixes then true
  else bool_decide (pkgPath = "log").

Definition pkgPathOf (obj : types.Object) : string :=
  match types.Pkg obj with
  | None => ""
  | Some path => path
  end.

(** [sel] is the selector expression [x.sel]. *)
Definition isSupportedLogMethod (pass : Pass) (x : ast.Expr) (sel : ast.Ident)
  : bool :=
  let method := ast.Name sel in
  if negb (isLogMethod method) then false
  else
    match TypesInfo_Uses pass !! ast.NamePos sel with
    | None => false
    | Some obj => isSupportedPackage (pkgPathOf obj)
    end.

Definition messageArgIndex (pass : Pass) (x : ast.Expr) (sel : ast.Ident)
           (args : list ast.Expr) : Z := 0.

(** The text of a string literal without its quotes and with the escape
    sequences replaced, one [ReplaceAll] after the other. *)
Definition unquoteLit (value : string) : string :=
  let s := strings.Trim value (str1 bquote) in
  let s := strings.TrimPrefix s (str1 dquote) in
  let s := strings.TrimSuffix s (str1 dquote) in
  let s := strings.ReplaceAll s (String bslash (str1 dquote)) (str1 dquote) in
  let s := strings.ReplaceAll s (String bslash (str1 bslash)) (str1 bslash) in
  let s := strings.ReplaceAll s (String bslash "n") (str1 newline) in
  strings.ReplaceAll s (String bslash "t") (str1 tab).

(** [parts] is the slice the calls append to; the result is the slice
    after the call. *)
Fixpoint collectStringParts (pass : Pass) (expr : ast.Expr)
         (parts : list string) : list string :=
  match expr with
  | ast.BasicLit _ kind value =>
    if decide (kind = token.STRING) then parts ++ [unquoteLit value]
    else parts
  | ast.BinaryExpr x _ op y =>
    if decide (op = token.ADD) then
      collectStringParts pass y (collectStringParts pass x parts)
    else parts
  | ast.IdentExpr e =>
    match TypesInfo_Uses pass !! ast.NamePos e with
    | Some obj =>
      match types.ConstVal obj with
      | Some val => parts ++ [strings.Trim val (str1 dquote)]
      | None => parts
      end
    | None => parts
    end
  | ast.ParenExpr _ x _ => collectStringParts pass x parts
  | _ => parts
  end.

Section lib.
Variable L : Go.Lib.

Fixpoint sourceFragment_loop (pass : Pass) (filename : string)
         (from to : Z) (files : list ast.File) : string :=
  match files with
  | [] => ""
  | f :: rest =>
    let pos := Fset_Position pass (ast.Package f) in
    if decide (Go.Clean L (token.Filename pos) ≠ Go.Clean L filename) then
      sourceFragment_loop pass filename from to rest
    else
      match Fset_File pass (ast.Package f) with
      | None => ""
      | Some tokenFile =>
        let start := token.FileOffset tokenFile from in
        let end_ := token.FileOffset tokenFile to in
        ""
      end
  end.

Definition sourceFragment (pass : Pass) (filename : string) (from to : Z)
  : string :=
  sourceFragment_loop pass filename from to (Files pass).

(** The function literal given to [ast.Inspect] in [exprToString]; the
    state is the text written to the builder [sb]. *)
Definition writeNode (n : option ast.Expr) (sb : string) : string * bool :=
  match n with
  | Some (ast.BasicLit _ _ value) => (sb +:+ value, true)
  | Some (ast.IdentExpr id) => (sb +:+ ast.Name id, true)
  | _ => (sb, true)
  end.

Definition exprToString (pass : Pass) (expr : option ast.Expr) : string :=
  match expr with
  | None => ""
  | Some e =>
    let start := Fset_Position pass (ast.Pos e) in
    let end_ := Fset_Position pass (ast.End_ e) in
    let src :=
      if token.IsValid start && token.IsValid end_
         && bool_decide (token.Filename start = token.Filename end_)
      then sourceFragment pass (token.Filename start) (ast.Pos e) (ast.End_ e)
      else "" in
    if decide (src ≠ "") then src
    else ast.Inspect writeNode e ""
  end.

Definition extractStringValue (pass : Pass) (expr : ast.Expr)
  : string * string :=
  let fullExpr := exprToString pass (Some expr) in
  let parts := collectStringParts pass expr [] in
  let literal := strings.Join parts in
  (literal, fullExpr).

(** [call.Args[msgIdx]]: an index out of range panics. *)
Definition index {A} (l : list A) (i : Z) : outcome A :=
  if (i <? 0) || (Z.of_nat (length l) <=? i) then
    Panic "index out of range"
  else
    match l !! Z.to_nat i with
    | Some a => Done a
    | None => Panic "index out of range"
    end.

(** [extractLogCall] on the call expression [fn(args)]; [None] is the
    result [(_, false)]. *)
Definition extractLogCall (pass : Pass) (fn : ast.Expr) (lparen : Z)
           (args : list ast.Expr) (rparen : Z) : outcome (option logCall) :=
  match fn with
  | ast.SelectorExpr x sel =>
    if negb (isSupportedLogMethod pass x sel) then mret None
    else
      let msgIdx := messageArgIndex pass x sel args in
      if (msgIdx <? 0) || (Z.of_nat (length args) <=? msgIdx) then mret None
      else
        msgArg ← index args msgIdx;
        let '(literal, fullExpr) := extractStringValue pass msgArg in
        mret (Some {| pos := ast.Pos (ast.CallExpr fn lparen args rparen);
                      msgArg := msgArg;
                      msgLiteral := literal;
                      fullExpr := fullExpr |})
  | _ => mret None
  end.

(** *** Suggested fixes *)

Definition lowerRune (r : Z) : Z :=
  if (0x41 <=? r) && (r <=? 0x5A) then r + (0x61 - 0x41) else r.

(** [string(lit.Value[0])]: the first byte of the literal, as a rune. *)
Definition firstByte (value : string) : outcome string :=
  match value with
  | EmptyString => Panic "index out of range"
  | String c _ => Done (utf8.EncodeRune (byte_val c))
  end.

Definition suggestLowercaseFix (pass : Pass) (lc : logCall) (msg : string)
  : outcome (list SuggestedFix) :=
  if decide (msg = "") then mret []
  else
    match msgArg lc with
    | ast.BasicLit valuePos kind value =>
      if decide (kind ≠ token.STRING) then mret []
      else
        match utf8.runes msg with
        | [] => mret []
        | r0 :: rest =>
          let fixed := utf8.of_runes ([lowerRune r0] ++ rest) in
          if decide (fixed = msg) then mret []
          else
            quote ← firstByte value;
            let fixedLit := quote +:+ fixed +:+ quote in
            mret [ {| fix_Message := "lowercase first letter of log message";
                      TextEdits :=
                        [ {| te_Pos := valuePos;
                             te_End := valuePos + ast.strlen value;
                             NewText := fixedLit |} ] |} ]
        end
    | _ => mret []
    end.

Definition defaultForbiddenASCII : string :=
  "!@#$%^&*+=|\<>?`~;'" +:+ str1 dquote.

Definition isSafePunct (r : Z) : bool :=
  (r =? 0x2D) || (r =? 0x5F) || (r =? 0x2F) || (r =? 0x3A)
  || (r =? 0x2E) || (r =? 0x2C) || (r =? 0x20).

Fixpoint cleanSpecialMessage_loop (allowed : gset Z) (rs : list Z)
  : string :=
  match rs with
  | [] => ""
  | r :: rest =>
    if unicode.MaxASCII <? r then cleanSpecialMessage_loop allowed rest
    else if decide (r ∈ allowed) then
      utf8.EncodeRune r +:+ cleanSpecialMessage_loop allowed rest
    else if strings.ContainsRune defaultForbiddenASCII r then
      cleanSpecialMessage_loop allowed rest
    else if isSafePunct r then
      utf8.EncodeRune r +:+ cleanSpecialMessage_loop allowed rest
    else if unicode.IsPunct L r || unicode.IsSymbol L r then
      cleanSpecialMessage_loop allowed rest
    else utf8.EncodeRune r +:+ cleanSpecialMessage_loop allowed rest
  end.

Definition cleanSpecialMessage (msg allowedExtra : string) : string :=
  if decide (msg = "") then msg
  else
    let allowed := rules.runeSet allowedExtra in
    cleanSpecialMessage_loop allowed (utf8.runes msg).

Definition suggestSpecialFix (pass : Pass) (lc : logCall)
           (msg allowedExtra : string) : outcome (list SuggestedFix) :=
  if decide (msg = "") then mret []
  else
    match msgArg lc with
    | ast.BasicLit valuePos kind value =>
      if decide (kind ≠ token.STRING) then mret []
      else
        let fixed := cleanSpecialMessage msg allowedExtra in
        if decide (fixed = msg) then mret []
        else
          quote ← firstByte value;
          let fixedLit := quote +:+ fixed +:+ quote in
          mret [ {| fix_Message :=
                      "remove emoji and noisy special characters from log message";
                    TextEdits :=
                      [ {| te_Pos := valuePos;
                           te_End := valuePos + ast.strlen value;
                           NewText := fixedLit |} ] |} ]
    | _ => mret []
    end.

(** *** Rule execution

    [reported] is the list of the diagnostics given to [pass.Report], in
    order (the line written to the standard error is left out). *)

Definition reportDiagnostic (pass : Pass) (d : Diagnostic)
           (reported : list Diagnostic) : list Diagnostic :=
  reported ++ [d].

Definition analyseCall (pass : Pass) (cfg : config.Config) (lc : logCall)
           (reported : list Diagnostic) : outcome (list Diagnostic) :=
  let msg := msgLiteral lc in
  reported ←
    (if config.IsRuleEnabled cfg config.RuleLowercase then
       let diag := rules.CheckLowercase L msg in
       if decide (diag ≠ "") then
         fixes ← suggestLowercaseFix pass lc msg;
         mret (reportDiagnostic pass
                 {| d_Pos := ast.Pos (msgArg lc); d_End := ast.End_ (msgArg lc);
                    d_Message := diag; SuggestedFixes := fixes |} reported)
       else mret reported
     else mret reported);
  let reported :=
    if config.IsRuleEnabled cfg config.RuleEnglish then
      let diag := rules.CheckEnglish L msg in
      if decide (diag ≠ "") then
        reportDiagnostic pass
          {| d_Pos := ast.Pos (msgArg lc); d_End := ast.End_ (msgArg lc);
             d_Message := diag; SuggestedFixes := [] |} reported
      else reported
    else reported in
  reported ←
    (if config.IsRuleEnabled cfg config.RuleSpecial then
       let diag := rules.CheckSpecialChars L msg (config.AllowedSpecialChars cfg) in
       if decide (diag ≠ "") then
         fixes ← suggestSpecialFix pass lc msg (config.AllowedSpecialChars cfg);
         mret (reportDiagnostic pass
                 {| d_Pos := ast.Pos (msgArg lc); d_End := ast.End_ (msgArg lc);
                    d_Message := diag; SuggestedFixes := fixes |} reported)
       else mret reported
     else mret reported);
  if config.IsRuleEnabled cfg config.RuleSensitive then
    let diag := rules.CheckSensitive L msg (fullExpr lc)
                  (config.SensitiveKeywords cfg) in
    if decide (diag ≠ "") then
      mret (reportDiagnostic pass
              {| d_Pos := ast.Pos (msgArg lc); d_End := ast.End_ (msgArg lc);
                 d_Message := diag; SuggestedFixes := [] |} reported)
    else mret reported
  else mret reported.

(** The function [runPass] gives to [insp.Preorder], on one node. *)
Definition visitNode (pass : Pass) (cfg : config.Config) (n : ast.Expr)
           (reported : list Diagnostic) : outcome (list Diagnostic) :=
  match n with
  | ast.CallExpr fn lparen args rparen =>
    lc ← extractLogCall pass fn lparen args rparen;
    match lc with
    | None => mret reported
    | Some lc => analyseCall pass cfg lc reported
    end
  | _ => mret reported
  end.

(** [runPass]: [insp.Preorder] calls the function on the nodes of the
    files in depth-first order; [nodes] is that sequence. *)
Fixpoint runPass_loop (pass : Pass) (cfg : config.Config)
         (nodes : list ast.Expr) (reported : list Diagnostic)
  : outcome (list Diagnostic) :=
  match nodes with
  | [] => mret reported
  | n :: rest =>
    reported ← visitNode pass cfg n reported;
    runPass_loop pass cfg rest reported
  end.

Definition runPass (pass : Pass) (cfg : config.Config)
           (nodes : list ast.Expr) : outcome (list Diagnostic) :=
  runPass_loop pass cfg nodes [].

(** *** The constructors of the analyzer *)

Definition newBaseAnalyzer
           (run : Pass -> list ast.Expr -> outcome (list Diagnostic))
  : Analyzer :=
  {| a_Name := "loglinter";
     a_Doc := "checks log messages for style, language, special characters and sensitive data";
     a_Requires := ["inspect"];
     a_Run := run |}.

(** [None] is the configuration [nil]. *)
Definition NewAnalyzer (cfg : option config.Config) : Analyzer :=
  let cfg := match cfg with
             | None => config.DefaultConfig
             | Some cfg => cfg
             end in
  newBaseAnalyzer (fun pass nodes => runPass pass cfg nodes).

Variable env : config.Env.

Definition loadConfigOrDefault : outcome config.Config :=
  r ← config.Load L env ".loglinter.yaml";
  match r with
  | inr _ => mret config.DefaultConfig
  | inl cfg => mret cfg
  end.

(** The variable [Analyzer], initialised when the package is. *)
Definition Analyzer : outcome analysis.Analyzer :=
  cfg ← loadConfigOrDefault;
  mret (NewAnalyzer (Some cfg)).

(** [configPath] is the pointer to the value of the flag; [None] is the
    pointer [nil].  The file is read at every run. *)
Definition NewFlagConfiguredAnalyzer (configPath : option string)
  : analysis.Analyzer :=
  newBaseAnalyzer (fun pass nodes =>
    let path :=
      match configPath with
      | Some p => if decide (p ≠ "") then p else ".loglinter.yaml"
      | None => ".loglinter.yaml"
      end in
    r ← config.Load L env path;
    let cfg := match r with
               | inr _ => config.DefaultConfig
               | inl cfg => cfg
               end in
    runPass pass cfg nodes).

End lib.

End analyzer.

(** ** Package main of the plugin *)

Module plugin.

Section plugin.
Variable L : Go.Lib.
Variable env : config.Env.

Definition GetAnalyzers : outcome (list analysis.Analyzer) :=
  r ← config.Load L env ".loglinter.yaml";
  let cfg := match r with
             | inr _ => config.DefaultConfig
             | inl cfg => cfg
             end in
  mret [analyzer.NewAnalyzer L (Some cfg)].

End plugin.

End plugin.

(** ** Two instances of the library

    [ascii_lib] knows no character above ASCII and quotes by adding the
    quote characters, which is what [%q] prints for printable ASCII text
    with no quote and no backslash.  [cyrillic_lib] adds the letters of the
    basic Cyrillic block, U+0400 to U+045F. *)

Definition quoteASCII (s : string) : string := str1 dquote +:+ s +:+ str1 dquote.

Definition ascii_lib : Go.Lib :=
  {| Go.tblUpper := fun _ => false;
     Go.tblLower := fun _ => false;
     Go.tblDigit := fun _ => false;
     Go.tblPunct := fun _ => false;
     Go.tblSymbol := fun _ => false;
     Go.tblSo := fun _ => false;
     Go.tblToLower := fun r => r;
     Go.quoteRune := fun r => "'" +:+ utf8.EncodeRune r +:+ "'";
     Go.quoteString := quoteASCII;
     Go.Clean := fun s => s |}.

Definition cyrillic_lib : Go.Lib :=
  {| Go.tblUpper := fun r => unicode.in_range 0x0400 0x042F r;
     Go.tblLower := fun r => unicode.in_range 0x0430 0x045F r;
     Go.tblDigit := fun _ => false;
     Go.tblPunct := fun _ => false;
     Go.tblSymbol := fun _ => false;
     Go.tblSo := fun _ => false;
     Go.tblToLower := fun r =>
       if unicode.in_range 0x0410 0x042F r then r + 0x20
       else if unicode.in_range 0x0400 0x040F r then r + 0x50
       else r;
     Go.quoteRune := fun r => "'" +:+ utf8.EncodeRune r +:+ "'";
     Go.quoteString := quoteASCII;
     Go.Clean := fun s => s |}.

(** A pass over one file [a.go] in which the identifier at position 14 is
    a function of package [log/slog]. *)
Definition slog_pass : analysis.Pass :=
  {| analysis.Fset_Position := fun p =>
       {| token.Filename := "a.go"; token.Offset := p - 1;
          token.Line := 1; token.Column := p |};
     analysis.Fset_File := fun _ =>
       Some {| token.name := "a.go"; token.base := 1; token.size := 1000 |};
     analysis.Files := [ {| ast.Package := 1 |} ];
     analysis.TypesInfo_Uses :=
       <[ 14 := {| types.Pkg := Some "log/slog"; types.ConstVal := None |} ]> ∅ |}.

(** The callee [slog.Info] of that pass. *)
Definition slog_Info : ast.Expr :=
  ast.SelectorExpr (ast.IdentExpr {| ast.NamePos := 9; ast.Name := "slog" |})
                   {| ast.NamePos := 14; ast.Name := "Info" |}.

(** ** The text of an expression, as the specification words it

    The concatenation, in depth-first order, of the text of the basic
    literals whose kind [keep] accepts and of the names of the identifiers. *)

Fixpoint preorderText (keep : token.Token -> bool) (e : ast.Expr) : string :=
  match e with
  | ast.BadExpr _ _ => ""
  | ast.IdentExpr id => ast.Name id
  | ast.BasicLit _ kind value => if keep kind then value else ""
  | ast.ParenExpr _ x _ => preorderText keep x
  | ast.SelectorExpr x sel => preorderText keep x +:+ ast.Name sel
  | ast.IndexExpr x _ index _ => preorderText keep x +:+ preorderText keep index
  | ast.CallExpr fn _ args _ =>
    preorderText keep fn +:+ strings.Join (map (preorderText keep) args)
  | ast.UnaryExpr _ _ x => preorderText keep x
  | ast.BinaryExpr x _ _ y => preorderText keep x +:+ preorderText keep y
  end.

(** String literals and identifiers only. *)
Definition stringLiteralsAndIdents : ast.Expr -> string :=
  preorderText (fun kind => bool_decide (kind = token.STRING)).

(** Every basic literal and every identifier. *)
Definition literalsAndIdents : ast.Expr -> string :=
  preorderText (fun _ => true).

(** ** Vocabulary of the properties *)

(** Does the keyword occur in the expression, both normalized?  This is
    the test of the expression check of [CheckSensitive]. *)
Definition exprHit (L : Go.Lib) (fullExpr kw : string) : bool :=
  strings.Contains (rules.normalizeExpr (strings.ToLower L fullExpr))
                   (strings.ReplaceAll (strings.ToLower L kw) "_" "").

(** A character of a word: a lower-case ASCII letter, a digit or an
    underscore. *)
Definition isWordRune (r : Z) : bool :=
  unicode.in_range 0x61 0x7A r || unicode.in_range 0x30 0x39 r || (r =? 0x5F).

(** [WordRuns its toks]: [toks] are the maximal runs of word characters of
    the decoded text [its], in order. *)
Inductive WordRuns : list (Z * string) -> list string -> Prop :=
| WordRuns_nil : WordRuns [] []
| WordRuns_sep it its toks :
    isWordRune it.1 = false -> WordRuns its toks -> WordRuns (it :: its) toks
| WordRuns_run run its toks :
    run <> [] ->
    Forall (fun it => isWordRune it.1 = true) run ->
    match its with [] => True | it :: _ => isWordRune it.1 = false end ->
    WordRuns its toks ->
    WordRuns (run ++ its) (strings.chunks run :: toks).

(** The message check flags [kw]: the first token equal to [kw] is the
    last token or is followed by a token that is no safe completion. *)
Definition msgHit (tokens : list string) (kw : string) : Prop :=
  exists pre post,
    tokens = pre ++ kw :: post /\ (kw ∉ pre) /\
    match post with [] => True | next :: _ => next ∉ rules.safeNext end.

(** A keyword does not hit: neither in the tokens nor in the expression. *)
Definition noHit (L : Go.Lib) (tokens : list string) (fullExpr kw : string)
  : Prop :=
  ~ msgHit tokens (strings.ToLower L kw) /\ exprHit L fullExpr kw = false.

(** [s] without the bytes equal to [c]. *)
Fixpoint removeByte (c : ascii) (s : string) : string :=
  match s with
  | EmptyString => EmptyString
  | String d t => if Ascii.eqb c d then removeByte c t else String d (removeByte c t)
  end.

(** [s] without its first [k] bytes. *)
Fixpoint sdrop (k : nat) (s : string) : string :=
  match k, s with
  | O, _ => s
  | S k, String _ t => sdrop k t
  | S _, EmptyString => EmptyString
  end.

(** The literal value of an expression: the result [literal] of
    [extractStringValue]. *)
Definition literalOf (pass : analysis.Pass) (e : ast.Expr) : string :=
  strings.Join (analyzer.collectStringParts pass e []).

(** A rune on which the loop of [CheckSpecialChars] returns. *)
Definition offending (L : Go.Lib) (forbidden : gset Z) (r : Z) : bool :=
  rules.isEmoji L r
  || (((r <=? unicode.MaxASCII) && unicode.IsPunct L r || unicode.IsSymbol L r)
      && bool_decide (r ∈ forbidden)).

(** The diagnostic of the loop on such a rune: the emoji test comes first. *)
Definition charDiag (L : Go.Lib) (r : Z) : string :=
  if rules.isEmoji L r then rules.emojiDiag L r else rules.forbiddenDiag L r.

(** What the lowercase rule needs of the tables above ASCII: an upper-case
    letter is no white space and is not U+FFFD; a lower-case letter, a digit
    or a punctuation character is none of these either, and is not
    upper-case. *)
Definition tables_consistent (L : Go.Lib) : Prop :=
  forall r : Z, unicode.MaxASCII < r ->
    (Go.tblUpper L r = true ->
     unicode.IsSpace r = false /\ r <> utf8.RuneError) /\
    (Go.tblLower L r || Go.tblDigit L r || Go.tblPunct L r = true ->
     Go.tblUpper L r = false /\ unicode.IsSpace r = false /\ r <> utf8.RuneError).

(** A configuration in which only the lowercase rule runs. *)
Definition lowercase_only : config.Config :=
  {| config.Rules := Some (<[ config.RuleEnglish := false ]>
                           (<[ config.RuleSpecial := false ]>
                            (<[ config.RuleSensitive := false ]> ∅)));
     config.SensitiveKeywords := [];
     config.AllowedSpecialChars := "" |}.

(** Induction on expressions, with the arguments of a call. *)
Section Expr_induction.
Variable P : ast.Expr -> Prop.
Hypothesis HBad : forall from to, P (ast.BadExpr from to).
Hypothesis HIdent : forall id, P (ast.IdentExpr id).
Hypothesis HLit : forall p kind value, P (ast.BasicLit p kind value).
Hypothesis HParen : forall lp x rp, P x -> P (ast.ParenExpr lp x rp).
Hypothesis HSel : forall x sel, P x -> P (ast.SelectorExpr x sel).
Hypothesis HIndex :
  forall x lb i rb, P x -> P i -> P (ast.IndexExpr x lb i rb).
Hypothesis HCall :
  forall fn lp args rp, P fn -> Forall P args -> P (ast.CallExpr fn lp args rp).
Hypothesis HUnary : forall p op x, P x -> P (ast.UnaryExpr p op x).
Hypothesis HBinary :
  forall x p op y, P x -> P y -> P (ast.BinaryExpr x p op y).

Fixpoint Expr_nested_ind (e : ast.Expr) : P e :=
  match e with
  | ast.BadExpr from to => HBad from to
  | ast.IdentExpr id => HIdent id
  | ast.BasicLit p kind value => HLit p kind value
  | ast.ParenExpr lp x rp => HParen lp x rp (Expr_nested_ind x)
  | ast.SelectorExpr x sel => HSel x sel (Expr_nested_ind x)
  | ast.IndexExpr x lb i rb =>
    HIndex x lb i rb (Expr_nested_ind x) (Expr_nested_ind i)
  | ast.CallExpr fn lp args rp =>
    HCall fn lp args rp (Expr_nested_ind fn)
      ((fix all (l : list ast.Expr) : Forall P l :=
          match l with
          | [] => @List.Forall_nil _ P
          | a :: l => @List.Forall_cons _ P a l (Expr_nested_ind a) (all l)
          end) args)
  | ast.UnaryExpr p op x => HUnary p op x (Expr_nested_ind x)
  | ast.BinaryExpr x p op y =>
    HBinary x p op y (Expr_nested_ind x) (Expr_nested_ind y)
  end.
End Expr_induction.

(** ** Vocabulary of the further properties *)

(** The configuration an entry point runs with: the one [Load] returns for
    the path, and the default one when [Load] returns an error. *)
Definition effectiveConfig (L : Go.Lib) (env : config.Env) (path : string)
  : config.Config :=
  match config.Load L env path with
  | Done (inl cfg) => cfg
  | _ => config.DefaultConfig
  end.

(** The path of the configuration file for a value of the flag. *)
Definition configFile (flag : option string) : string :=
  match flag with
  | Some p => if decide (p = "") then ".loglinter.yaml" else p
  | None => ".loglinter.yaml"
  end.

(** A rune [cleanSpecialMessage] writes to its result: an ASCII rune that
    is allowed, or that is not in the default forbidden set and is one of
    the seven safe characters or neither punctuation nor a symbol. *)
Definition kept (L : Go.Lib) (allowed : gset Z) (r : Z) : bool :=
  (r <=? unicode.MaxASCII)
  && (bool_decide (r ∈ allowed)
      || negb (strings.ContainsRune analyzer.defaultForbiddenASCII r)
         && (analyzer.isSafePunct r
             || negb (unicode.IsPunct L r || unicode.IsSymbol L r))).

(** A rune the special-characters rule accepts: it is not emoji-like, and
    if it is one of the default forbidden characters it occurs in the
    allowed ones. *)
Definition acceptedRune (L : Go.Lib) (allowedExtra : string) (r : Z) : Prop :=
  rules.isEmoji L r = false /\
  (r ∈ utf8.runes rules.defaultForbiddenASCII -> r ∈ utf8.runes allowedExtra).

(** An ASCII letter, a digit or a space. *)
Definition isPlainByte (c : ascii) : bool :=
  unicode.in_range 0x41 0x5A (byte_val c)
  || unicode.in_range 0x61 0x7A (byte_val c)
  || unicode.in_range 0x30 0x39 (byte_val c)
  || (byte_val c =? 0x20).

(** The messages of the rules that are enabled, in the order in which
    [analyseCall] runs them, without the empty ones. *)
Definition ruleMessages (L : Go.Lib) (cfg : config.Config)
           (lc : analyzer.logCall) : list string :=
  let msg := analyzer.msgLiteral lc in
  filter (fun m : string => m <> "")
    [ if config.IsRuleEnabled cfg config.RuleLowercase
      then rules.CheckLowercase L msg else "";
      if config.IsRuleEnabled cfg config.RuleEnglish
      then rules.CheckEnglish L msg else "";
      if config.IsRuleEnabled cfg config.RuleSpecial
      then rules.CheckSpecialChars L msg (config.AllowedSpecialChars cfg) else "";
      if config.IsRuleEnabled cfg config.RuleSensitive
      then rules.CheckSensitive L msg (analyzer.fullExpr lc)
             (config.SensitiveKeywords cfg)
      else "" ].

(** A diagnostic on the message argument of a log call: its range is that
    of the argument, and each of its fixes is one edit of this range. *)
Definition onMessageArg (lc : analyzer.logCall) (d : analysis.Diagnostic) : Prop :=
  analysis.d_Pos d = ast.Pos (analyzer.msgArg lc) /\
  analysis.d_End d = ast.End_ (analyzer.msgArg lc) /\
  Forall (fun f => exists text,
              analysis.TextEdits f =
              [ {| analysis.te_Pos := analysis.d_Pos d;
                   analysis.te_End := analysis.d_End d;
                   analysis.NewText := text |} ])
         (analysis.SuggestedFixes d).

(** The diagnostics of one node: what [runPass] reports on it. *)
Definition diagnosticsOf (L : Go.Lib) (pass : analysis.Pass)
           (cfg : config.Config) (n : ast.Expr) : list analysis.Diagnostic :=
  match analyzer.visitNode L pass cfg n [] with
  | Done ds => ds
  | Panic _ => []
  end.

(** The log call [extractLogCall] makes of a call whose first argument is
    [a] and whose callee begins with [x]. *)
Definition logCallOf (pass : analysis.Pass) (x a : ast.Expr) : analyzer.logCall :=
  {| analyzer.pos := ast.Pos x;
     analyzer.msgArg := a;
     analyzer.msgLiteral := literalOf pass a;
     analyzer.fullExpr := literalsAndIdents a |}.

(** * Properties *)

(** ** Strings *)

Lemma append_nil_l (s : string) : "" +:+ s = s.
Proof. reflexivity. Qed.

Lemma append_cons (c : ascii) (s t : string) :
  String c s +:+ t = String c (s +:+ t).
Proof. reflexivity. Qed.

Lemma append_nil_r (s : string) : s +:+ "" = s.
Proof.
  induction s as [|c s IH]; [done |]. by rewrite append_cons, IH.
Qed.

Lemma append_assoc (s t u : string) : (s +:+ t) +:+ u = s +:+ (t +:+ u).
Proof.
  induction s as [|c s IH]; [done |]. by rewrite !append_cons, IH.
Qed.

Lemma append_length (s t : string) :
  String.length (s +:+ t) = (String.length s + String.length t)%nat.
Proof.
  induction s as [|c s IH]; [done |]. rewrite append_cons. simpl. by rewrite IH.
Qed.

Lemma prefix_append (p s : string) : String.prefix p (p +:+ s) = true.
Proof.
  induction p as [|c p IH]; [by destruct s |].
  rewrite append_cons. simpl. destruct (ascii_dec c c); [done | congruence].
Qed.

Lemma prefix_inv (p s : string) :
  String.prefix p s = true -> exists t, s = p +:+ t.
Proof.
  revert s. induction p as [|c p IH]; intros s H; [by exists s |].
  destruct s as [|d s]; simpl in H; [done |].
  destruct (ascii_dec c d) as [-> |]; [| done].
  destruct (IH _ H) as [t ->]. by exists t.
Qed.

(** ** The package predicate of the classifier *)

Section classifier.
Import analyzer.

Lemma isSupportedPackage_loop_true (pkgPath : string) (prefixes : list string) :
  isSupportedPackage_loop pkgPath prefixes = true <->
  exists prefix, prefix ∈ prefixes /\
    (pkgPath = prefix \/ exists rest, pkgPath = prefix +:+ "/" +:+ rest).
Proof.
  induction prefixes as [|p ps IH]; simpl.
  - split; [done | intros (? & H & _); by apply elem_of_nil in H].
  - destruct (bool_decide (pkgPath = p) || strings.HasPrefix pkgPath (p +:+ "/"))
      eqn:E.
    + split; [intros _ | done]. exists p. split; [left |].
      apply orb_true_iff in E as [E | E].
      * left. by apply bool_decide_eq_true in E.
      * right. apply prefix_inv in E as [t ->]. exists t. by rewrite append_assoc.
    + rewrite IH. apply orb_false_iff in E as [E1 E2].
      apply bool_decide_eq_false in E1.
      split; intros (q & Hq & H).
      * exists q. split; [by right | done].
      * exists q. split; [| done]. apply elem_of_cons in Hq as [-> | Hq]; [| done].
        exfalso. destruct H as [H | [t H]]; [done |].
        rewrite H, <- append_assoc in E2. unfold strings.HasPrefix in E2.
        by rewrite prefix_append in E2.
Qed.

(** [isSupportedPackage] accepts a path exactly when it is one of the four
    listed paths or extends one of them by a slash, [log] included. *)
Lemma isSupportedPackage_spec (pkgPath : string) :
  isSupportedPackage pkgPath = true <->
  exists prefix, prefix ∈ supportedPkgPrefixes /\
    (pkgPath = prefix \/ exists rest, pkgPath = prefix +:+ "/" +:+ rest).
Proof.
  unfold isSupportedPackage.
  destruct (isSupportedPackage_loop pkgPath supportedPkgPrefixes) eqn:E.
  - by rewrite <- isSupportedPackage_loop_true, E.
  - rewrite <- isSupportedPackage_loop_true, E. split; [| done].
    intros H%bool_decide_eq_true. subst. by vm_compute in E.
Qed.

(** C3.  The code accepts every path below [log/], its own comment on
    the entry [log] of the table notwithstanding: [log/syslog], which is
    none of the recognized libraries, is accepted, and so is [log/]
    followed by anything. *)
Theorem isSupportedPackage_accepts_log_subpaths :
  isSupportedPackage "log/syslog" = true /\
  forall rest : string, isSupportedPackage ("log/" +:+ rest) = true.
Proof.
  split; [done |]. intros rest. apply isSupportedPackage_spec.
  exists "log". split; [| right; by exists rest].
  unfold supportedPkgPrefixes. set_solver.
Qed.

End classifier.

(** ** Classification: the index of the message argument *)

Section classification.
Import analyzer.
Variable L : Go.Lib.

Lemma index_in_range {A} (l : list A) (i : Z) (a : A) :
  index l i = Done a <-> 0 <= i < Z.of_nat (length l) /\ l !! Z.to_nat i = Some a.
Proof.
  unfold index.
  destruct (Z.ltb_spec i 0), (Z.leb_spec (Z.of_nat (length l)) i); simpl;
    try (split; [done | lia]).
  destruct (l !! Z.to_nat i) eqn:E.
  - split; [intros [= ->]; split; [lia | done] | by intros [_ [= ->]]].
  - split; [done | by intros [_ ?]].
Qed.

Lemma index_no_panic {A} (l : list A) (i : Z) :
  0 <= i < Z.of_nat (length l) -> exists a, index l i = Done a.
Proof.
  intros H. unfold index.
  destruct (Z.ltb_spec i 0), (Z.leb_spec (Z.of_nat (length l)) i); try lia.
  simpl. destruct (lookup_lt_is_Some_2 l (Z.to_nat i)) as [a ->]; [lia |].
  by exists a.
Qed.

(** C9.  [extractLogCall] never panics.  When it returns a log call, the
    index of the message argument is an index of the argument list and the
    message argument is the argument at that index; when the argument list
    is too short for the index (an empty list, for one), the call is
    skipped: the result is [(_, false)]. *)
Theorem extractLogCall_index_safe
        (pass : analysis.Pass) (fn : ast.Expr) (lparen : Z)
        (args : list ast.Expr) (rparen : Z) :
  (forall lc,
      extractLogCall L pass fn lparen args rparen = Done (Some lc) ->
      exists x sel,
        fn = ast.SelectorExpr x sel /\
        isSupportedLogMethod pass x sel = true /\
        0 <= messageArgIndex pass x sel args < Z.of_nat (length args) /\
        args !! Z.to_nat (messageArgIndex pass x sel args) = Some (msgArg lc)) /\
  (forall what, extractLogCall L pass fn lparen args rparen <> Panic what) /\
  (forall x sel,
      fn = ast.SelectorExpr x sel ->
      Z.of_nat (length args) <= messageArgIndex pass x sel args ->
      extractLogCall L pass fn lparen args rparen = Done None) /\
  (args = [] -> extractLogCall L pass fn lparen args rparen = Done None).
Proof.
  unfold extractLogCall.
  destruct fn as [| | | |x sel| | | |];
    try (split_and!; [done | done | done | done]).
  destruct (isSupportedLogMethod pass x sel) eqn:Hm; simpl;
    [| split_and!; done].
  set (i := messageArgIndex pass x sel args).
  destruct (Z.ltb_spec i 0) as [Hneg | Hnn]; simpl.
  { split_and!; done. }
  destruct (Z.leb_spec (Z.of_nat (length args)) i) as [Hge | Hlt]; simpl.
  { split_and!; done. }
  destruct (index_no_panic args i) as [a Ha]; [lia |].
  rewrite Ha. simpl.
  destruct (extractStringValue L pass a) as [literal full] eqn:Hv.
  split_and!.
  - intros lc [= <-]. exists x, sel. simpl.
    apply index_in_range in Ha as [? ?]. done.
  - done.
  - intros x' sel' [= <- <-] Hle. fold i in Hle. lia.
  - intros ->. simpl in Hlt. lia.
Qed.

End classification.

(** The call [slog.Info("x")] of [slog_pass] is classified, with the
    literal as the message argument. *)
Lemma extractLogCall_index_safe_witness :
  exists x sel,
    slog_Info = ast.SelectorExpr x sel /\
    analyzer.isSupportedLogMethod slog_pass x sel = true /\
    0 <= analyzer.messageArgIndex slog_pass x sel
           [ast.BasicLit 20 token.STRING (quoteASCII "x")] < 1 /\
    [ast.BasicLit 20 token.STRING (quoteASCII "x")]
      !! Z.to_nat (analyzer.messageArgIndex slog_pass x sel
                     [ast.BasicLit 20 token.STRING (quoteASCII "x")])
    = Some (ast.BasicLit 20 token.STRING (quoteASCII "x")).
Proof.
  exact (proj1 (extractLogCall_index_safe ascii_lib slog_pass slog_Info 19
                  [ast.BasicLit 20 token.STRING (quoteASCII "x")] 23)
               {| analyzer.pos := 9;
                  analyzer.msgArg := ast.BasicLit 20 token.STRING (quoteASCII "x");
                  analyzer.msgLiteral := "x";
                  analyzer.fullExpr := quoteASCII "x" |}
               eq_refl).
Defined.


(** ** The raw text of an expression *)

Section raw_text.
Import analyzer.
Variable L : Go.Lib.

Lemma sourceFragment_loop_empty pass filename from to files :
  sourceFragment_loop L pass filename from to files = "".
Proof.
  induction files as [|f files IH]; simpl; [done |].
  case_decide; [done |]. by destruct (analysis.Fset_File pass _).
Qed.

Lemma sourceFragment_empty pass filename from to :
  sourceFragment L pass filename from to = "".
Proof. apply sourceFragment_loop_empty. Qed.


(** The traversal appends the text of the nodes to the builder. *)
Lemma Inspect_writeNode (e : ast.Expr) (sb : string) :
  ast.Inspect writeNode e sb = sb +:+ literalsAndIdents e.
Proof.
  revert sb. induction e as
      [from to|id|p kind value|lp x rp IHx|x sel IHx|x lb i rb IHx IHi
       |fn lp args rp IHfn IHargs|p op x IHx|x p op y IHx IHy]
      using Expr_nested_ind; intros sb; simpl.
  - by rewrite append_nil_r.
  - done.
  - done.
  - by rewrite IHx.
  - by rewrite IHx, append_assoc.
  - by rewrite IHx, IHi, append_assoc.
  - rewrite IHfn. unfold literalsAndIdents; simpl.
    fold literalsAndIdents. rewrite <- append_assoc.
    generalize (sb +:+ literalsAndIdents fn). clear IHfn.
    induction IHargs as [|a args Ha _ IH]; intros s; simpl.
    + by rewrite append_nil_r.
    + rewrite Ha, IH.
      change (strings.Join (literalsAndIdents a :: map (preorderText (λ _, true)) args))
        with (literalsAndIdents a +:+ strings.Join (map (preorderText (λ _, true)) args)).
      by rewrite append_assoc.
  - by rewrite IHx.
  - by rewrite IHx, IHy, append_assoc.
Qed.

(** C10, as amended.  [sourceFragment] returns the empty string on every
    input, so that [exprToString] never returns a slice of the source: on
    every expression it returns the concatenation, in depth-first order,
    of the text of every basic literal, whatever its kind (a string
    literal with its quotes, and a number or a character literal as well),
    and of the name of every identifier; on [nil] it returns the empty
    string. *)
Theorem exprToString_literals_and_idents :
  (forall pass filename from to, sourceFragment L pass filename from to = "") /\
  (forall pass e, exprToString L pass (Some e) = literalsAndIdents e) /\
  (forall pass, exprToString L pass None = "").
Proof.
  split_and!; [apply sourceFragment_empty | | done].
  intros pass e. unfold exprToString.
  rewrite sourceFragment_empty.
  destruct (_ && _); (case_decide; [done |]); by rewrite Inspect_writeNode.
Qed.

End raw_text.

(** C10, the claim as stated fails: the text produced for the integer
    literal [42] (the argument of [log.Print(42)]) is [42], while the
    concatenation of the string literals and the identifiers of that
    expression is empty. *)
Lemma exprToString_integer_literal :
  analyzer.exprToString ascii_lib slog_pass (Some (ast.BasicLit 20 token.INT "42"))
  = "42" /\
  stringLiteralsAndIdents (ast.BasicLit 20 token.INT "42") = "".
Proof. split; reflexivity. Qed.

(** ** The literal value of a string literal *)

(** C4.  The escape sequences are replaced one after the other, so that
    the backslash produced by the second replacement is read again by the
    third: the literal whose source text is a quote, two backslashes, [n]
    and a quote (it denotes a backslash followed by [n]) contributes a
    newline, and not a backslash followed by [n]. *)
Theorem collectStringParts_backslash_n
        (pass : analysis.Pass) (p : Z) (parts : list string) :
  analyzer.collectStringParts pass
    (ast.BasicLit p token.STRING (quoteASCII (String bslash (String bslash "n"))))
    parts
  = parts ++ [str1 newline] /\
  str1 newline <> String bslash "n".
Proof. split; [reflexivity | discriminate]. Qed.

(** ** The lowercase fix *)

(** C6.  [lowerRune] maps the letters A to Z only.  The message of the
    call [slog.Info("Запуск")] starts with an upper-case Cyrillic letter: the
    lowercase rule reports it, the fix computed for it equals the message, and
    the diagnostic carries no fix. *)
Theorem suggestLowercaseFix_cyrillic_no_fix (pass : analysis.Pass) :
  let lit := ast.BasicLit 20 token.STRING (quoteASCII "Запуск") in
  let lc := {| analyzer.pos := 9; analyzer.msgArg := lit;
               analyzer.msgLiteral := "Запуск";
               analyzer.fullExpr := quoteASCII "Запуск" |} in
  utf8.runes "Запуск" = [0x417; 0x430; 0x43F; 0x443; 0x441; 0x43A] /\
  analyzer.lowerRune 0x417 = 0x417 /\
  rules.CheckLowercase cyrillic_lib "Запуск" = rules.lowercaseDiag /\
  analyzer.suggestLowercaseFix pass lc "Запуск" = Done [] /\
  analyzer.analyseCall cyrillic_lib pass lowercase_only lc []
  = Done [ {| analysis.d_Pos := 20; analysis.d_End := 34;
              analysis.d_Message := rules.lowercaseDiag;
              analysis.SuggestedFixes := [] |} ].
Proof. intros lit lc. split_and!; reflexivity. Qed.

(** ** The empty message *)

Lemma append_cons_ne (c : ascii) (s t : string) : String c s +:+ t <> "".
Proof. by rewrite append_cons. Qed.

Section empty_message.
Import rules.
Variable L : Go.Lib.

Lemma sensitiveExprDiag_ne kw : sensitiveExprDiag L kw <> "".
Proof. apply append_cons_ne. Qed.

Lemma sensitiveMsgDiag_ne kw : sensitiveMsgDiag L kw <> "".
Proof. apply append_cons_ne. Qed.

Lemma CheckSensitive_loop_no_tokens lowerExpr keywords :
  (CheckSensitive_loop L [] lowerExpr keywords = "" <->
   forall kw, kw ∈ keywords ->
     strings.Contains (normalizeExpr lowerExpr)
       (strings.ReplaceAll (strings.ToLower L kw) "_" "") = false) /\
  (CheckSensitive_loop L [] lowerExpr keywords = "" \/
   exists kw, kw ∈ keywords /\
     strings.Contains (normalizeExpr lowerExpr)
       (strings.ReplaceAll (strings.ToLower L kw) "_" "") = true /\
     CheckSensitive_loop L [] lowerExpr keywords
     = sensitiveExprDiag L (strings.ToLower L kw)).
Proof.
  induction keywords as [|kw kws [IH1 IH2]]; simpl.
  - split; [split; [intros _ ? []%elem_of_nil | done] | by left].
  - destruct (strings.Contains _ _) eqn:E.
    + split.
      * split; [by intros ?%sensitiveExprDiag_ne |].
        intros H. rewrite H in E; [done | by left].
      * right. exists kw. split_and!; [by left | done | done].
    + split.
      * rewrite IH1. split.
        -- intros H k [-> | Hk]%elem_of_cons; [done | by apply H].
        -- intros H k Hk. apply H. by right.
      * destruct IH2 as [-> | (k & Hk & Hhit & ->)]; [by left |].
        right. exists k. split_and!; [by right | done | done].
Qed.

(** C2, as amended.  On the empty message, [CheckLowercase],
    [CheckEnglish] and [CheckSpecialChars] report nothing, whatever the
    allowed characters.  [CheckSensitive] reports nothing from the message
    text; it still searches the expression text: its result is empty
    exactly when no keyword occurs in the expression (both normalized),
    and is otherwise the diagnostic of a keyword found in the argument
    expression. *)
Theorem rules_on_empty_message
        (allowedExtra fullExpr : string) (keywords : list string) :
  CheckLowercase L "" = "" /\
  CheckEnglish L "" = "" /\
  CheckSpecialChars L "" allowedExtra = "" /\
  (CheckSensitive L "" fullExpr keywords = "" <->
   forall kw, kw ∈ keywords -> exprHit L fullExpr kw = false) /\
  (CheckSensitive L "" fullExpr keywords = "" \/
   exists kw, kw ∈ keywords /\ exprHit L fullExpr kw = true /\
     CheckSensitive L "" fullExpr keywords
     = sensitiveExprDiag L (strings.ToLower L kw)) /\
  CheckSensitive L "" fullExpr [] = "".
Proof.
  split_and!; try reflexivity.
  - apply (CheckSensitive_loop_no_tokens (strings.ToLower L fullExpr) keywords).
  - apply (CheckSensitive_loop_no_tokens (strings.ToLower L fullExpr) keywords).
Qed.

End empty_message.

(** C2, the claim as stated fails for [CheckSensitive]: with the empty
    message, the expression text [password] (the call [log.Print(password)])
    and the keyword [password], it reports the keyword found in the argument
    expression. *)
Lemma CheckSensitive_empty_message_variable :
  rules.CheckSensitive ascii_lib "" "password" ["password"]
  = rules.sensitiveExprDiag ascii_lib "password" /\
  rules.sensitiveExprDiag ascii_lib "password" <> "".
Proof. split; [reflexivity | discriminate]. Qed.

(** ** The special-characters rule *)

Section special_chars.
Import rules.
Variable L : Go.Lib.

Lemma elem_of_runeSet_foldl (l : list Z) (acc : gset Z) (x : Z) :
  x ∈ foldl (fun m r => {[ r ]} ∪ m) acc l <-> x ∈ acc \/ x ∈ l.
Proof.
  revert acc. induction l as [|r l IH]; intros acc; simpl.
  - set_solver.
  - rewrite IH. set_solver.
Qed.

Lemma elem_of_runeSet (s : string) (x : Z) :
  x ∈ runeSet s <-> x ∈ utf8.runes s.
Proof.
  unfold runeSet. rewrite elem_of_runeSet_foldl.
  split; [intros [H | H]; [by apply not_elem_of_empty in H | done] | by right].
Qed.

Lemma elem_of_forbidden_foldl (allowed : gset Z) (l : list Z) (acc : gset Z) (x : Z) :
  x ∈ foldl (fun set r => if decide (r ∈ allowed) then set else {[ r ]} ∪ set) acc l
  <-> x ∈ acc \/ (x ∈ l /\ x ∉ allowed).
Proof.
  revert acc. induction l as [|r l IH]; intros acc; simpl.
  - set_solver.
  - rewrite IH. case_decide; set_solver.
Qed.

(** The forbidden set is the default set without the allowed runes. *)
Lemma elem_of_buildForbiddenSet (allowedExtra : string) (x : Z) :
  x ∈ buildForbiddenSet allowedExtra <->
  x ∈ utf8.runes defaultForbiddenASCII /\ x ∉ utf8.runes allowedExtra.
Proof.
  unfold buildForbiddenSet. rewrite elem_of_forbidden_foldl, elem_of_runeSet.
  split; [intros [H | H]; [by apply not_elem_of_empty in H | done] | by right].
Qed.

(** Every default forbidden character passes the test in front of the
    look-up in the forbidden set. *)
Lemma forbidden_is_punct_or_symbol (r : Z) :
  r ∈ utf8.runes defaultForbiddenASCII ->
  (r <=? unicode.MaxASCII) && unicode.IsPunct L r || unicode.IsSymbol L r = true.
Proof.
  intros H. vm_compute in H.
  repeat (apply elem_of_cons in H as [-> | H]; [reflexivity |]).
  by apply elem_of_nil in H.
Qed.

Lemma CheckSpecialChars_loop_first forbidden pre r post :
  Forall (fun x => offending L forbidden x = false) pre ->
  offending L forbidden r = true ->
  CheckSpecialChars_loop L forbidden (pre ++ r :: post) = Some (charDiag L r).
Proof.
  intros Hpre Hr. induction Hpre as [|x pre Hx _ IH]; simpl.
  - unfold offending in Hr. unfold charDiag.
    destruct (isEmoji L r); [done |]. simpl in Hr. by rewrite Hr.
  - unfold offending in Hx. apply orb_false_iff in Hx as [-> ->]. done.
Qed.

Lemma CheckSpecialChars_loop_none forbidden rs :
  Forall (fun x => offending L forbidden x = false) rs ->
  CheckSpecialChars_loop L forbidden rs = None.
Proof.
  induction 1 as [|x rs Hx _ IH]; simpl; [done |].
  unfold offending in Hx. apply orb_false_iff in Hx as [-> ->]. done.
Qed.

(** A list splits at its first element that satisfies a test. *)
Lemma first_such {A} (f : A -> bool) (l : list A) :
  Forall (fun x => f x = false) l \/
  exists pre x post, l = pre ++ x :: post /\
    Forall (fun x => f x = false) pre /\ f x = true.
Proof.
  induction l as [|a l IH]; [by left |].
  destruct (f a) eqn:E.
  - right. exists [], a, l. by split_and!.
  - destruct IH as [IH | (pre & x & post & -> & Hpre & Hx)].
    + left. by constructor.
    + right. exists (a :: pre), x, post. split_and!; [done | by constructor | done].
Qed.

Lemma checkRepeatedPunctuation_cases msg :
  checkRepeatedPunctuation L msg = "" \/
  exists seq, seq ∈ ["..."; "!!"; "??"; "***"] /\
    strings.Contains msg seq = true /\
    checkRepeatedPunctuation L msg = repeatedDiag L seq.
Proof.
  unfold checkRepeatedPunctuation. simpl.
  destruct (strings.Contains msg "...") eqn:E1;
    [right; exists "..."; split_and!; [repeat constructor | done | done] |].
  destruct (strings.Contains msg "!!") eqn:E2;
    [right; exists "!!"; split_and!; [repeat constructor | done | done] |].
  destruct (strings.Contains msg "??") eqn:E3;
    [right; exists "??"; split_and!; [repeat constructor | done | done] |].
  destruct (strings.Contains msg "***") eqn:E4;
    [right; exists "***"; split_and!; [repeat constructor | done | done] |].
  by left.
Qed.

Lemma CheckSpecialChars_unfold msg allowedExtra :
  CheckSpecialChars L msg allowedExtra =
  match CheckSpecialChars_loop L (buildForbiddenSet allowedExtra) (utf8.runes msg) with
  | Some diag => diag
  | None => checkRepeatedPunctuation L msg
  end.
Proof.
  unfold CheckSpecialChars. destruct (CheckSpecialChars_loop _ _ _); [done |].
  case_decide as H; [done |]. destruct (decide (checkRepeatedPunctuation L msg = "")); [done | contradiction].
Qed.

Lemma emojiDiag_not_repeated r seq : emojiDiag L r <> repeatedDiag L seq.
Proof. unfold emojiDiag, repeatedDiag. rewrite !append_cons. discriminate. Qed.

Lemma forbiddenDiag_not_repeated r seq : forbiddenDiag L r <> repeatedDiag L seq.
Proof. unfold forbiddenDiag, repeatedDiag. rewrite !append_cons. discriminate. Qed.

Lemma charDiag_not_repeated r seq : charDiag L r <> repeatedDiag L seq.
Proof.
  unfold charDiag. destruct (isEmoji L r);
    [apply emojiDiag_not_repeated | apply forbiddenDiag_not_repeated].
Qed.

(** When no rune of the message is one, the result is that of the search
    for the repeated sequences. *)
Lemma CheckSpecialChars_no_character msg allowedExtra :
  Forall (fun y => offending L (buildForbiddenSet allowedExtra) y = false)
         (utf8.runes msg) ->
  CheckSpecialChars L msg allowedExtra = checkRepeatedPunctuation L msg.
Proof.
  intros H. by rewrite CheckSpecialChars_unfold, CheckSpecialChars_loop_none.
Qed.

(** C7.  The rule returns on the first rune of the message that is
    emoji-like or (being ASCII punctuation or a symbol) in the forbidden
    set, with the emoji test first; the four repeated sequences are
    searched only when no rune is one.  So a message with a rune of the
    forbidden set gets the diagnostic of a character, one of its runes, and
    never the diagnostic of a repeated punctuation, whether it holds a
    repeated sequence or not. *)
Theorem CheckSpecialChars_character_first (msg allowedExtra : string) :
  let forbidden := buildForbiddenSet allowedExtra in
  (forall pre x post,
      utf8.runes msg = pre ++ x :: post ->
      Forall (fun y => offending L forbidden y = false) pre ->
      offending L forbidden x = true ->
      CheckSpecialChars L msg allowedExtra = charDiag L x) /\
  (Forall (fun y => offending L forbidden y = false) (utf8.runes msg) ->
   CheckSpecialChars L msg allowedExtra = checkRepeatedPunctuation L msg) /\
  (forall r,
      r ∈ utf8.runes msg -> r ∈ forbidden ->
      (exists x, x ∈ utf8.runes msg /\ offending L forbidden x = true /\
                 CheckSpecialChars L msg allowedExtra = charDiag L x) /\
      (forall seq, CheckSpecialChars L msg allowedExtra <> repeatedDiag L seq)).
Proof.
  intros forbidden.
  assert (Hfirst : forall pre x post,
             utf8.runes msg = pre ++ x :: post ->
             Forall (fun y => offending L forbidden y = false) pre ->
             offending L forbidden x = true ->
             CheckSpecialChars L msg allowedExtra = charDiag L x).
  { intros pre x post Hsplit Hpre Hx. rewrite CheckSpecialChars_unfold, Hsplit.
    fold forbidden. by rewrite (CheckSpecialChars_loop_first _ _ _ _ Hpre Hx). }
  split_and!; [done | apply CheckSpecialChars_no_character |].
  intros r Hr Hf.
  assert (Hoff : offending L forbidden r = true).
  { unfold offending. apply orb_true_iff. right.
    apply andb_true_iff. split; [| by apply bool_decide_eq_true].
    apply forbidden_is_punct_or_symbol.
    by apply elem_of_buildForbiddenSet in Hf as [? _]. }
  destruct (first_such (offending L forbidden) (utf8.runes msg))
    as [Hall | (pre & x & post & Hsplit & Hpre & Hx)].
  { rewrite Forall_forall in Hall. rewrite (Hall r Hr) in Hoff. done. }
  split.
  - exists x. split_and!; [| done | by eapply Hfirst].
    rewrite Hsplit. apply elem_of_app. right. by left.
  - intros seq. rewrite (Hfirst _ _ _ Hsplit Hpre Hx). apply charDiag_not_repeated.
Qed.

End special_chars.

(** The message [Starting Server!!!] holds the forbidden character [!] and
    the repeated sequence [!!]: the diagnostic is that of the character. *)
Lemma CheckSpecialChars_character_first_witness :
  (exists x, x ∈ utf8.runes "Starting Server!!!" /\
             offending ascii_lib (rules.buildForbiddenSet "") x = true /\
             rules.CheckSpecialChars ascii_lib "Starting Server!!!" ""
             = charDiag ascii_lib x) /\
  (forall seq, rules.CheckSpecialChars ascii_lib "Starting Server!!!" ""
               <> rules.repeatedDiag ascii_lib seq).
Proof.
  assert (H1 : 0x21 ∈ utf8.runes "Starting Server!!!").
  { refine (bool_decide_unpack _ _). vm_compute. exact I. }
  assert (H2 : 0x21 ∈ rules.buildForbiddenSet "").
  { refine (bool_decide_unpack _ _). vm_compute. exact I. }
  exact (proj2 (proj2 (CheckSpecialChars_character_first ascii_lib
                         "Starting Server!!!" "")) 0x21 H1 H2).
Defined.

(** ** Decoding ASCII text *)

Lemma byte_val_range (c : ascii) : 0 <= byte_val c < 256.
Proof.
  unfold byte_val. pose proof (N_ascii_bounded c). lia.
Qed.

Lemma byte_val_chr (r : Z) : 0 <= r < 256 -> byte_val (byte_chr r) = r.
Proof.
  intros H. unfold byte_val, byte_chr.
  rewrite Z.mod_small by done. rewrite N_ascii_embedding by lia. lia.
Qed.

Lemma substring_0_0 (s : string) : substring 0 0 s = "".
Proof. by destruct s. Qed.

Lemma first_ascii (b : Z) : b < 0x80 -> utf8.first b = utf8.as_.
Proof.
  intros H. unfold utf8.first. by destruct (Z.ltb_spec b 0x80); [| lia].
Qed.

Lemma DecodeRuneInString_ascii (c : ascii) (t : string) :
  byte_val c < 0x80 ->
  utf8.DecodeRuneInString (String c t) = (byte_val c, 1%nat).
Proof.
  intros H. unfold utf8.DecodeRuneInString. by rewrite first_ascii.
Qed.

Lemma range_from_0_cons (c : ascii) (t : string) :
  utf8.range_from 0 (String c t) =
  (let '(r, w) := utf8.DecodeRuneInString (String c t) in
   (r, substring 0 w (String c t)) :: utf8.range_from (pred w) t).
Proof. reflexivity. Qed.

Lemma range_ascii_cons (c : ascii) (t : string) :
  byte_val c < 0x80 ->
  utf8.range (String c t) = (byte_val c, str1 c) :: utf8.range t.
Proof.
  intros H. unfold utf8.range. rewrite range_from_0_cons.
  rewrite DecodeRuneInString_ascii by done.
  simpl. by rewrite substring_0_0.
Qed.

Lemma runes_ascii_cons (c : ascii) (t : string) :
  byte_val c < 0x80 -> utf8.runes (String c t) = byte_val c :: utf8.runes t.
Proof. intros H. unfold utf8.runes. by rewrite range_ascii_cons. Qed.

Lemma EncodeRune_ascii (r : Z) :
  0 <= r <= unicode.MaxASCII -> utf8.EncodeRune r = str1 (byte_chr r).
Proof.
  unfold unicode.MaxASCII. intros H. unfold utf8.EncodeRune, utf8.rune1Max.
  destruct (Z.leb_spec 0 r), (Z.leb_spec r 0x7F); try lia. done.
Qed.

Lemma runes_EncodeRune_ascii (r : Z) (t : string) :
  0 <= r <= unicode.MaxASCII ->
  utf8.runes (utf8.EncodeRune r +:+ t) = r :: utf8.runes t.
Proof.
  intros H. rewrite EncodeRune_ascii by done. unfold str1.
  rewrite append_cons, append_nil_l. unfold unicode.MaxASCII in H.
  rewrite runes_ascii_cons; rewrite byte_val_chr; try lia. done.
Qed.

Ltac rune_nonneg :=
  simpl;
  repeat first
    [ apply Z.lor_nonneg; split
    | apply Z.shiftl_nonneg
    | apply Z.land_nonneg; right; by vm_compute
    | apply byte_val_range
    | by vm_compute ].

Lemma DecodeRuneInString_nonneg (s : string) :
  0 <= (utf8.DecodeRuneInString s).1.
Proof.
  unfold utf8.DecodeRuneInString.
  destruct s as [|c0 t0]; [rune_nonneg |]. cbv zeta.
  destruct (utf8.as_ <=? _); [destruct (Z.odd _); rune_nonneg |].
  destruct (utf8.acceptRanges _) as [lo hi].
  destruct (_ <? _)%nat; [rune_nonneg |].
  destruct t0 as [|c1 t1]; [rune_nonneg |].
  destruct (utf8.outside lo hi _); [rune_nonneg |].
  destruct (_ <=? 2)%nat; [rune_nonneg |].
  destruct t1 as [|c2 t2]; [rune_nonneg |].
  destruct (utf8.outside _ _ _); [rune_nonneg |].
  destruct (_ <=? 3)%nat; [rune_nonneg |].
  destruct t2 as [|c3 t3]; [rune_nonneg |].
  destruct (utf8.outside _ _ _); rune_nonneg.
Qed.

Lemma range_from_nonneg (s : string) (skip : nat) :
  Forall (fun it => 0 <= it.1) (utf8.range_from skip s).
Proof.
  revert skip. induction s as [|c t IH]; intros skip; simpl; [done |].
  destruct skip as [|k]; [| apply IH].
  change (Forall (fun it => 0 <= it.1) (utf8.range_from 0 (String c t))).
  rewrite range_from_0_cons.
  pose proof (DecodeRuneInString_nonneg (String c t)) as H.
  destruct (utf8.DecodeRuneInString (String c t)) as [r w].
  constructor; [done | apply IH].
Qed.

Lemma runes_nonneg (s : string) : Forall (fun r => 0 <= r) (utf8.runes s).
Proof.
  unfold utf8.runes, utf8.range. apply Forall_fmap.
  apply (range_from_nonneg s 0).
Qed.

(** ** The fix of the special-characters rule *)

Section special_fix.
Import rules analyzer.
Variable L : Go.Lib.

Lemma isEmoji_ascii (r : Z) : r <= unicode.MaxASCII -> isEmoji L r = false.
Proof.
  unfold unicode.MaxASCII. intros H. unfold isEmoji, unicode.IsSo, unicode.MaxASCII.
  destruct (Z.leb_spec r 0x7F); [| lia]. simpl.
  destruct (Z.leb_spec 0x1F300 r), (Z.leb_spec 0x2600 r), (Z.leb_spec 0xFE00 r);
    try lia; done.
Qed.

Lemma ContainsRune_false (s : string) (r : Z) :
  strings.ContainsRune s r = false <-> r ∉ utf8.runes s.
Proof. unfold strings.ContainsRune. apply bool_decide_eq_false. Qed.

(** What the fix keeps: ASCII runes that are allowed or not in the
    default forbidden set. *)
Lemma cleanSpecialMessage_loop_runes (allowed : gset Z) (rs : list Z) :
  Forall (fun r => 0 <= r) rs ->
  Forall (fun r => r <= unicode.MaxASCII /\
                   (r ∈ allowed \/ r ∉ utf8.runes analyzer.defaultForbiddenASCII))
         (utf8.runes (cleanSpecialMessage_loop L allowed rs)).
Proof.
  induction 1 as [|r rs Hr _ IH]; simpl; [constructor |].
  destruct (Z.ltb_spec unicode.MaxASCII r); [done |].
  case_decide as Hal.
  { rewrite runes_EncodeRune_ascii by lia. constructor; [split; [lia | by left] | done]. }
  destruct (strings.ContainsRune analyzer.defaultForbiddenASCII r) eqn:Hc; [done |].
  apply ContainsRune_false in Hc.
  destruct (isSafePunct r).
  { rewrite runes_EncodeRune_ascii by lia. constructor; [split; [lia | by right] | done]. }
  destruct (unicode.IsPunct L r || unicode.IsSymbol L r); [done |].
  rewrite runes_EncodeRune_ascii by lia. constructor; [split; [lia | by right] | done].
Qed.

(** C8, as amended.  [CheckSpecialChars] on the output of
    [cleanSpecialMessage], with the same allowed characters, never reports
    a character: its result is that of the search for the four repeated
    sequences in the cleaned text.  It reports nothing unless the cleaned
    text holds one of them. *)
Theorem CheckSpecialChars_after_fix (msg allowedExtra : string) :
  CheckSpecialChars L (cleanSpecialMessage L msg allowedExtra) allowedExtra
  = checkRepeatedPunctuation L (cleanSpecialMessage L msg allowedExtra) /\
  ((forall seq, seq ∈ ["..."; "!!"; "??"; "***"] ->
      strings.Contains (cleanSpecialMessage L msg allowedExtra) seq = false) ->
   CheckSpecialChars L (cleanSpecialMessage L msg allowedExtra) allowedExtra = "").
Proof.
  assert (Hfix : CheckSpecialChars L (cleanSpecialMessage L msg allowedExtra) allowedExtra
                 = checkRepeatedPunctuation L (cleanSpecialMessage L msg allowedExtra)).
  { unfold cleanSpecialMessage. case_decide as Hm.
    { subst msg. by rewrite CheckSpecialChars_unfold. }
    apply CheckSpecialChars_no_character.
    eapply Forall_impl; [apply cleanSpecialMessage_loop_runes, runes_nonneg |].
    intros r [Hascii Hr]. unfold offending.
    rewrite isEmoji_ascii by done. rewrite orb_false_l.
    apply andb_false_iff. right. apply bool_decide_eq_false.
    rewrite elem_of_buildForbiddenSet. intros [Hd Hna].
    rewrite elem_of_runeSet in Hr.
    destruct Hr as [Hr | Hr]; [by apply Hna | by apply Hr]. }
  split; [done |]. intros Hno. rewrite Hfix.
  destruct (checkRepeatedPunctuation_cases L (cleanSpecialMessage L msg allowedExtra))
    as [-> | (seq & Hin & Hc & _)]; [done |].
  by rewrite Hno in Hc.
Qed.

End special_fix.

(** The fix of [server started!] holds none of the repeated sequences:
    the rule reports nothing on it. *)
Lemma CheckSpecialChars_after_fix_witness :
  rules.CheckSpecialChars ascii_lib
    (analyzer.cleanSpecialMessage ascii_lib "server started!" "") "" = "".
Proof.
  apply (proj2 (CheckSpecialChars_after_fix ascii_lib "server started!" "")).
  intros seq Hseq.
  repeat (apply elem_of_cons in Hseq as [-> | Hseq]; [reflexivity |]).
  by apply elem_of_nil in Hseq.
Defined.

(** C8, the claim as stated fails.  In [.@..] the only violation is the
    forbidden character [@] (no repeated sequence occurs in it); the fix
    removes it and so brings three dots together, on which the rule reports
    a repeated punctuation.  And with [!] allowed, the only violation of
    [hi!!] is the repeated sequence [!!], whose character is not one of the
    safe ones; the fix keeps the message as it is. *)
Lemma CheckSpecialChars_after_fix_still_violates :
  (rules.CheckSpecialChars ascii_lib ".@.." "" = rules.forbiddenDiag ascii_lib 0x40 /\
   rules.checkRepeatedPunctuation ascii_lib ".@.." = "" /\
   analyzer.cleanSpecialMessage ascii_lib ".@.." "" = "..." /\
   rules.CheckSpecialChars ascii_lib (analyzer.cleanSpecialMessage ascii_lib ".@.." "") ""
   = rules.repeatedDiag ascii_lib "...") /\
  (rules.CheckSpecialChars ascii_lib "hi!!" "!" = rules.repeatedDiag ascii_lib "!!" /\
   analyzer.isSafePunct 0x21 = false /\
   analyzer.cleanSpecialMessage ascii_lib "hi!!" "!" = "hi!!" /\
   rules.CheckSpecialChars ascii_lib (analyzer.cleanSpecialMessage ascii_lib "hi!!" "!") "!"
   = rules.repeatedDiag ascii_lib "!!") /\
  rules.repeatedDiag ascii_lib "..." <> "" /\
  rules.repeatedDiag ascii_lib "!!" <> "".
Proof. split_and!; try reflexivity; discriminate. Qed.

(** ** The lowercase rule *)

Ltac bool_to_prop :=
  repeat first
    [ rewrite andb_true_iff in *
    | rewrite orb_true_iff in *
    | rewrite Z.leb_le in *
    | rewrite Z.ltb_lt in *
    | rewrite Z.eqb_eq in * ].

Lemma has_code_elem_of (r : Z) (s : string) :
  unicode.has_code r s = true -> r ∈ byte_val <$> list_ascii_of_string s.
Proof.
  induction s as [|c s IH]; simpl; [done |].
  intros [H | H]%orb_true_iff.
  - apply Z.eqb_eq in H as <-. by left.
  - right. by apply IH.
Qed.

Lemma IsSpace_false (r : Z) :
  (r < 0x09 \/ 0x0D < r) -> r <> 0x20 -> r <> 0x85 -> r <> 0xA0 -> r <= 0xFF ->
  unicode.IsSpace r = false.
Proof.
  intros. apply not_true_iff_false. unfold unicode.IsSpace, unicode.in_range.
  destruct (Z.leb_spec r 0xFF); [| lia]. intros Hs. bool_to_prop. lia.
Qed.

Lemma substring_0_S (n : nat) (c : ascii) (s : string) :
  substring 0 (S n) (String c s) = String c (substring 0 n s).
Proof. reflexivity. Qed.

Lemma first_size (b : Z) : (Z.to_nat (Z.land (utf8.first b) 7) <= 4)%nat.
Proof.
  unfold utf8.first. repeat (case_match; [vm_compute; lia |]). vm_compute; lia.
Qed.

(** A rune that was decoded from a valid encoding (it is not [RuneError],
    or it is wider than one byte) is decoded from its own bytes alone. *)
Lemma DecodeRuneInString_valid_prefix (s t : string) (r : Z) (w : nat) :
  utf8.DecodeRuneInString s = (r, w) ->
  r <> utf8.RuneError \/ (1 < w)%nat ->
  utf8.DecodeRuneInString (substring 0 w s +:+ t) = (r, w).
Proof.
  unfold utf8.DecodeRuneInString at 1.
  destruct s as [|c0 t0]; [intros [= <- <-] [? | ?]; [done | lia] |]. cbv zeta.
  destruct (utf8.as_ <=? utf8.first (byte_val c0)) eqn:E0.
  { destruct (Z.odd (utf8.first (byte_val c0))) eqn:Eo; intros [= <- <-] Hr;
      [destruct Hr; [done | lia] |].
    rewrite substring_0_S, substring_0_0, append_cons, append_nil_l.
    unfold utf8.DecodeRuneInString. by rewrite E0, Eo. }
  destruct (utf8.acceptRanges _) as [lo hi] eqn:Ea.
  destruct (_ <? _)%nat eqn:El; [intros [= <- <-] [? | ?]; [done | lia] |].
  destruct t0 as [|c1 t1]; [intros [= <- <-] [? | ?]; [done | lia] |].
  destruct (utf8.outside lo hi (byte_val c1)) eqn:E1;
    [intros [= <- <-] [? | ?]; [done | lia] |].
  destruct (_ <=? 2)%nat eqn:E2.
  { intros [= <- <-] _.
    rewrite !substring_0_S, substring_0_0, !append_cons, append_nil_l.
    unfold utf8.DecodeRuneInString. rewrite E0. cbv zeta. rewrite Ea.
    apply Nat.leb_le in E2.
    destruct (Nat.ltb_spec (String.length (String c0 (String c1 t)))
                           (Z.to_nat (Z.land (utf8.first (byte_val c0)) 7)))
      as [Hl | _]; [simpl in Hl; lia |].
    rewrite E1. apply Nat.leb_le in E2. by rewrite E2. }
  destruct t1 as [|c2 t2]; [intros [= <- <-] [? | ?]; [done | lia] |].
  destruct (utf8.outside utf8.locb utf8.hicb (byte_val c2)) eqn:E3;
    [intros [= <- <-] [? | ?]; [done | lia] |].
  destruct (_ <=? 3)%nat eqn:E4.
  { intros [= <- <-] _.
    rewrite !substring_0_S, substring_0_0, !append_cons, append_nil_l.
    unfold utf8.DecodeRuneInString. rewrite E0. cbv zeta. rewrite Ea.
    apply Nat.leb_le in E4.
    destruct (Nat.ltb_spec (String.length (String c0 (String c1 (String c2 t))))
                           (Z.to_nat (Z.land (utf8.first (byte_val c0)) 7)))
      as [Hl | _]; [simpl in Hl; lia |].
    rewrite E1, E2, E3. apply Nat.leb_le in E4. by rewrite E4. }
  destruct t2 as [|c3 t3]; [intros [= <- <-] [? | ?]; [done | lia] |].
  destruct (utf8.outside utf8.locb utf8.hicb (byte_val c3)) eqn:E5;
    [intros [= <- <-] [? | ?]; [done | lia] |].
  intros [= <- <-] _.
  rewrite !substring_0_S, substring_0_0, !append_cons, append_nil_l.
  unfold utf8.DecodeRuneInString. rewrite E0. cbv zeta. rewrite Ea.
  pose proof (first_size (byte_val c0)) as Hsz.
  destruct (Nat.ltb_spec (String.length (String c0 (String c1 (String c2 (String c3 t)))))
                         (Z.to_nat (Z.land (utf8.first (byte_val c0)) 7)))
    as [Hl | _]; [simpl in Hl; lia |].
  by rewrite E1, E2, E3, E4, E5.
Qed.

(** A decoded rune is one to four bytes wide, within the string. *)
Lemma DecodeRuneInString_width (c : ascii) (t : string) (r : Z) (w : nat) :
  utf8.DecodeRuneInString (String c t) = (r, w) ->
  (1 <= w <= String.length (String c t))%nat.
Proof.
  unfold utf8.DecodeRuneInString. cbv zeta.
  destruct (utf8.as_ <=? _); [intros [= _ <-]; simpl; lia |].
  destruct (utf8.acceptRanges _) as [lo hi].
  destruct (_ <? _)%nat; [intros [= _ <-]; simpl; lia |].
  destruct t as [|c1 t1]; [intros [= _ <-]; simpl; lia |].
  destruct (utf8.outside lo hi _); [intros [= _ <-]; simpl; lia |].
  destruct (_ <=? 2)%nat; [intros [= _ <-]; simpl; lia |].
  destruct t1 as [|c2 t2]; [intros [= _ <-]; simpl; lia |].
  destruct (utf8.outside _ _ _); [intros [= _ <-]; simpl; lia |].
  destruct (_ <=? 3)%nat; [intros [= _ <-]; simpl; lia |].
  destruct t2 as [|c3 t3]; [intros [= _ <-]; simpl; lia |].
  destruct (utf8.outside _ _ _); intros [= _ <-]; simpl; lia.
Qed.

(** An encoding that does not decode does not decode either when bytes
    after it are dropped. *)
Lemma DecodeRuneInString_invalid_prefix (c0 : ascii) (a b : string) :
  utf8.DecodeRuneInString (String c0 (a +:+ b)) = (utf8.RuneError, 1%nat) ->
  utf8.DecodeRuneInString (String c0 a) = (utf8.RuneError, 1%nat).
Proof.
  unfold utf8.DecodeRuneInString. cbv zeta.
  destruct (utf8.as_ <=? utf8.first (byte_val c0)) eqn:E0; [done |].
  destruct (utf8.acceptRanges _) as [lo hi] eqn:Ea.
  destruct (Nat.ltb_spec (String.length (String c0 a))
                         (Z.to_nat (Z.land (utf8.first (byte_val c0)) 7)))
    as [_ | Hla]; [done |].
  destruct (Nat.ltb_spec (String.length (String c0 (a +:+ b)))
                         (Z.to_nat (Z.land (utf8.first (byte_val c0)) 7)))
    as [Hlb | _].
  { simpl in Hla, Hlb. rewrite append_length in Hlb. lia. }
  destruct a as [|c1 a1]; [done |]. rewrite append_cons.
  destruct (utf8.outside lo hi (byte_val c1)); [done |].
  destruct (_ <=? 2)%nat; [by intros [= _] |].
  destruct a1 as [|c2 a2]; [done |]. rewrite append_cons.
  destruct (utf8.outside utf8.locb utf8.hicb (byte_val c2)); [done |].
  destruct (_ <=? 3)%nat; [by intros [= _] |].
  destruct a2 as [|c3 a3]; [done |]. rewrite append_cons.
  destruct (utf8.outside utf8.locb utf8.hicb (byte_val c3)); [done |].
  by intros [= _].
Qed.

Lemma sdrop_nil (k : nat) : sdrop k "" = "".
Proof. by destruct k. Qed.

Lemma range_from_sdrop (s : string) (k : nat) :
  utf8.range_from k s = utf8.range (sdrop k s).
Proof.
  revert k. induction s as [|c t IH]; intros k.
  - by rewrite sdrop_nil.
  - destruct k as [|k]; [done |]. simpl. apply IH.
Qed.

Lemma substring_sdrop (w : nat) (s : string) : substring 0 w s +:+ sdrop w s = s.
Proof.
  revert w. induction s as [|c t IH]; intros w; [by destruct w |].
  destruct w as [|w]; [done |].
  rewrite substring_0_S, append_cons. simpl. by rewrite IH.
Qed.

(** The runes of a string: the first one, then those of the rest. *)
Lemma range_cons (c : ascii) (t : string) :
  exists r w,
    utf8.DecodeRuneInString (String c t) = (r, w) /\
    utf8.range (String c t)
    = (r, substring 0 w (String c t)) :: utf8.range (sdrop w (String c t)).
Proof.
  destruct (utf8.DecodeRuneInString (String c t)) as [r w] eqn:E.
  exists r, w. split; [done |].
  unfold utf8.range at 1. rewrite range_from_0_cons, E, range_from_sdrop.
  apply DecodeRuneInString_width in E. by destruct w as [|w]; [lia |].
Qed.

Lemma chunks_cons (it : Z * string) (l : list (Z * string)) :
  strings.chunks (it :: l) = it.2 +:+ strings.chunks l.
Proof. reflexivity. Qed.

Lemma chunks_app (l k : list (Z * string)) :
  strings.chunks (l ++ k) = strings.chunks l +:+ strings.chunks k.
Proof.
  induction l as [|it l IH]; [done |].
  change (it.2 +:+ strings.chunks (l ++ k) = (it.2 +:+ strings.chunks l) +:+ strings.chunks k).
  by rewrite IH, append_assoc.
Qed.

(** The runes after some of the first ones are those of the rest of the
    string. *)
Lemma range_split (its1 its2 : list (Z * string)) (s : string) :
  utf8.range s = its1 ++ its2 ->
  exists s2, s = strings.chunks its1 +:+ s2 /\ utf8.range s2 = its2.
Proof.
  revert s. induction its1 as [|it its1 IH]; intros s Hr.
  - by exists s.
  - destruct s as [|c t]; [done |].
    destruct (range_cons c t) as (r & w & Hd & Hc). rewrite Hc in Hr.
    injection Hr as <- Hr. destruct (IH _ Hr) as (s2 & Hs & Hr2).
    exists s2. split; [| done].
    rewrite chunks_cons, append_assoc. cbn [snd].
    rewrite <- Hs. symmetry. exact (substring_sdrop w (String c t)).
Qed.

Lemma range_chunks (s : string) : strings.chunks (utf8.range s) = s.
Proof.
  destruct (range_split (utf8.range s) [] s) as (s2 & Hs & Hr2);
    [by rewrite app_nil_r |].
  destruct s2 as [|c t]; [by rewrite append_nil_r in Hs |].
  by destruct (range_cons c t) as (r & w & _ & Hc); rewrite Hc in Hr2.
Qed.

(** What is dropped is a sequence of white space. *)
Lemma dropSpaces_suffix (l : list (Z * string)) :
  exists sp, l = sp ++ strings.dropSpaces l.
Proof.
  induction l as [|it l [sp IH]]; [by exists [] |]. simpl.
  destruct (unicode.IsSpace it.1); [| by exists []].
  exists (it :: sp). simpl. by rewrite <- IH.
Qed.

Lemma dropSpaces_all (l : list (Z * string)) :
  Forall (fun it => unicode.IsSpace it.1 = true) l -> strings.dropSpaces l = [].
Proof. induction 1 as [|it l H _ IH]; simpl; [done | by rewrite H]. Qed.

Lemma dropSpaces_app_keep (spaces l : list (Z * string)) (it : Z * string) :
  Forall (fun it => unicode.IsSpace it.1 = true) spaces ->
  unicode.IsSpace it.1 = false ->
  strings.dropSpaces (spaces ++ it :: l) = it :: l.
Proof.
  intros Hs Hit. induction Hs as [|x spaces Hx _ IH]; simpl.
  - by rewrite Hit.
  - by rewrite Hx.
Qed.

Lemma dropSpaces_snoc (l : list (Z * string)) (it : Z * string) :
  unicode.IsSpace it.1 = false ->
  strings.dropSpaces (l ++ [it]) = strings.dropSpaces l ++ [it].
Proof.
  intros Hit. induction l as [|x l IH]; simpl.
  - by rewrite Hit.
  - by destruct (unicode.IsSpace x.1).
Qed.

(** The bytes [TrimSpace] keeps: those of the first rune that is no white
    space, and some of the bytes of the runes after it. *)
Lemma TrimSpace_first (s : string) (spaces rest : list (Z * string))
      (it : Z * string) :
  utf8.range s = spaces ++ it :: rest ->
  Forall (fun it => unicode.IsSpace it.1 = true) spaces ->
  unicode.IsSpace it.1 = false ->
  exists t b, strings.TrimSpace s = it.2 +:+ t /\ strings.chunks rest = t +:+ b.
Proof.
  intros Hr Hs Hit. unfold strings.TrimSpace.
  rewrite Hr, dropSpaces_app_keep by done.
  rewrite reverse_cons, dropSpaces_snoc by done.
  rewrite reverse_app. simpl.
  destruct (dropSpaces_suffix (reverse rest)) as [sp Hsp].
  exists (strings.chunks (reverse (strings.dropSpaces (reverse rest)))),
         (strings.chunks (reverse sp)).
  split; [done |].
  rewrite <- chunks_app, <- reverse_app, <- Hsp. by rewrite reverse_involutive.
Qed.

Lemma TrimSpace_all_space (s : string) :
  Forall (fun it => unicode.IsSpace it.1 = true) (utf8.range s) ->
  strings.TrimSpace s = "".
Proof.
  intros H. unfold strings.TrimSpace. rewrite (dropSpaces_all _ H). reflexivity.
Qed.

Section lowercase.
Import rules.
Variable L : Go.Lib.
Hypothesis Htables : tables_consistent L.

Lemma upper_not_space (r : Z) :
  unicode.IsUpper L r = true -> unicode.IsSpace r = false /\ r <> utf8.RuneError.
Proof.
  unfold unicode.IsUpper. destruct (Z.leb_spec r unicode.MaxASCII) as [Ha | Ha].
  - unfold unicode.in_range, unicode.MaxASCII in *. intros H. bool_to_prop.
    split; [apply IsSpace_false; lia | unfold utf8.RuneError; lia].
  - intros H. destruct (Htables r Ha) as [H1 _]. by apply H1.
Qed.

Lemma other_not_upper (r : Z) :
  unicode.IsLower L r || unicode.IsDigit L r || unicode.IsPunct L r = true ->
  unicode.IsUpper L r = false /\ unicode.IsSpace r = false /\ r <> utf8.RuneError.
Proof.
  unfold unicode.IsLower, unicode.IsDigit, unicode.IsPunct, unicode.IsUpper.
  destruct (Z.leb_spec r unicode.MaxASCII) as [Ha | Ha];
    [| destruct (Htables r Ha) as [_ H2]; by apply H2].
  unfold unicode.MaxASCII in Ha.
  intros [[H | H]%orb_true_iff | H]%orb_true_iff.
  - unfold unicode.in_range in *. bool_to_prop.
    split_and!; [| apply IsSpace_false; lia | unfold utf8.RuneError; lia].
    apply not_true_iff_false. intros Hu. bool_to_prop. lia.
  - unfold unicode.in_range in *. bool_to_prop.
    split_and!; [| apply IsSpace_false; lia | unfold utf8.RuneError; lia].
    apply not_true_iff_false. intros Hu. bool_to_prop. lia.
  - apply has_code_elem_of in H. vm_compute in H.
    repeat (apply elem_of_cons in H as [-> | H]; [by split_and! |]).
    by apply elem_of_nil in H.
Qed.

(** The rule on a message whose first rune after the leading white space
    is [r]. *)
Lemma CheckLowercase_first (msg : string) (spaces rest : list (Z * string))
      (r : Z) (ch : string) :
  utf8.range msg = spaces ++ (r, ch) :: rest ->
  Forall (fun it => unicode.IsSpace it.1 = true) spaces ->
  unicode.IsSpace r = false ->
  CheckLowercase L msg =
  if r =? utf8.RuneError then ""
  else if unicode.IsUpper L r then lowercaseDiag else "".
Proof.
  intros Hr Hs Hsp.
  destruct (TrimSpace_first msg spaces rest (r, ch) Hr Hs Hsp) as (t & b & Ht & Hb).
  destruct (range_split spaces ((r, ch) :: rest) msg Hr) as (s' & _ & Hr').
  destruct s' as [|c0 t0]; [done |].
  destruct (range_cons c0 t0) as (r' & w & Hdec & Hc). rewrite Hc in Hr'.
  assert (r' = r /\ substring 0 w (String c0 t0) = ch /\
          utf8.range (sdrop w (String c0 t0)) = rest) as (-> & Hch & Hrest).
  { injection Hr' as H1 H2 H3. by split_and!. }
  cbn [snd] in Ht.
  assert (Hnil : strings.TrimSpace msg <> "").
  { rewrite Ht, <- Hch. pose proof (DecodeRuneInString_width _ _ _ _ Hdec) as Hw.
    destruct w as [|w]; [lia |]. by rewrite substring_0_S, append_cons. }
  unfold CheckLowercase. case_decide; [done |].
  destruct (decide (r <> utf8.RuneError \/ (1 < w)%nat)) as [Hv | Hi].
  - pose proof (DecodeRuneInString_valid_prefix _ t _ _ Hdec Hv) as Hd.
    rewrite Hch, <- Ht in Hd. by rewrite Hd.
  - assert (r = utf8.RuneError /\ w = 1%nat) as [-> ->].
    { pose proof (DecodeRuneInString_width _ _ _ _ Hdec).
      destruct (decide (r = utf8.RuneError)); [| by destruct Hi; left].
      split; [done |]. destruct (decide (1 < w)%nat); [by destruct Hi; right | lia]. }
    assert (Ht0 : t0 = t +:+ b).
    { rewrite <- Hb, <- Hrest. simpl. by rewrite range_chunks. }
    rewrite Ht0 in Hdec. apply DecodeRuneInString_invalid_prefix in Hdec.
    rewrite substring_0_S, substring_0_0 in Hch. rewrite <- Hch in Ht.
    rewrite append_cons, append_nil_l in Ht. by rewrite Ht, Hdec.
Qed.

(** C5.  The rule reads the message without its leading and trailing
    white space.  It passes when nothing is left.  Otherwise its result
    depends on the first rune after the leading white space only: it passes
    when this rune is [RuneError] (an encoding that does not decode), it
    reports the fixed text when the rune is an upper-case letter, of any
    script, and it passes on any other rune, such as a lower-case letter, a
    digit or a punctuation character. *)
Theorem CheckLowercase_first_rune (msg : string) :
  (strings.TrimSpace msg = "" -> CheckLowercase L msg = "") /\
  (Forall (fun it => unicode.IsSpace it.1 = true) (utf8.range msg) ->
   CheckLowercase L msg = "") /\
  (forall spaces r ch rest,
      utf8.range msg = spaces ++ (r, ch) :: rest ->
      Forall (fun it => unicode.IsSpace it.1 = true) spaces ->
      unicode.IsSpace r = false ->
      CheckLowercase L msg =
      if r =? utf8.RuneError then ""
      else if unicode.IsUpper L r then lowercaseDiag else "") /\
  (forall spaces r ch rest,
      utf8.range msg = spaces ++ (r, ch) :: rest ->
      Forall (fun it => unicode.IsSpace it.1 = true) spaces ->
      unicode.IsUpper L r = true ->
      CheckLowercase L msg = lowercaseDiag) /\
  (forall spaces r ch rest,
      utf8.range msg = spaces ++ (r, ch) :: rest ->
      Forall (fun it => unicode.IsSpace it.1 = true) spaces ->
      unicode.IsLower L r || unicode.IsDigit L r || unicode.IsPunct L r = true ->
      CheckLowercase L msg = "").
Proof.
  split_and!.
  - intros He. unfold CheckLowercase. by rewrite He.
  - intros Hall. unfold CheckLowercase. rewrite (TrimSpace_all_space _ Hall). done.
  - intros spaces r ch rest. apply CheckLowercase_first.
  - intros spaces r ch rest Hr Hs Hu.
    destruct (upper_not_space r Hu) as [Hsp Hne].
    rewrite (CheckLowercase_first msg spaces rest r ch Hr Hs Hsp), Hu.
    by destruct (Z.eqb_spec r utf8.RuneError).
  - intros spaces r ch rest Hr Hs Ho.
    destruct (other_not_upper r Ho) as (Hu & Hsp & Hne).
    rewrite (CheckLowercase_first msg spaces rest r ch Hr Hs Hsp), Hu.
    by destruct (Z.eqb_spec r utf8.RuneError).
Qed.

End lowercase.

Lemma cyrillic_lib_consistent : tables_consistent cyrillic_lib.
Proof.
  intros r Hr. unfold unicode.MaxASCII in Hr. simpl.
  unfold unicode.in_range, unicode.IsSpace, unicode.in_range, utf8.RuneError.
  split.
  - intros H. bool_to_prop.
    split; [| lia]. apply not_true_iff_false.
    destruct (Z.leb_spec r 255); [lia |]. intros Hs. bool_to_prop. lia.
  - rewrite !orb_false_r. intros H. bool_to_prop.
    split_and!; [| | lia]; apply not_true_iff_false.
    + intros Hu. bool_to_prop. lia.
    + destruct (Z.leb_spec r 255); [lia |]. intros Hs. bool_to_prop. lia.
Qed.

(** The message of [slog.Info("  Запуск")], with two leading spaces: the
    first rune after them is the upper-case Cyrillic letter U+0417. *)
Lemma CheckLowercase_first_rune_witness :
  rules.CheckLowercase cyrillic_lib "  Запуск" = rules.lowercaseDiag.
Proof.
  apply (proj1 (proj2 (proj2 (proj2 (CheckLowercase_first_rune cyrillic_lib
                                       cyrillic_lib_consistent "  Запуск"))))
               [(0x20, " "); (0x20, " ")] 0x417 "З"
               (utf8.range "апуск")).
  - reflexivity.
  - repeat constructor.
  - reflexivity.
Defined.


(** ** The sensitive-keyword rule *)

(** The runs of a text are determined by it. *)
Lemma runs_split_unique (run1 its1 run2 its2 : list (Z * string)) :
  run1 ++ its1 = run2 ++ its2 ->
  Forall (fun it => isWordRune it.1 = true) run1 ->
  Forall (fun it => isWordRune it.1 = true) run2 ->
  match its1 with [] => True | it :: _ => isWordRune it.1 = false end ->
  match its2 with [] => True | it :: _ => isWordRune it.1 = false end ->
  run1 = run2 /\ its1 = its2.
Proof.
  revert run2. induction run1 as [|a r1 IH]; intros run2 Heq H1 H2 Hs1 Hs2.
  - destruct run2 as [|b r2]; [done |]. simpl in Heq. subst its1.
    apply Forall_cons in H2 as [Hb _]. congruence.
  - destruct run2 as [|b r2]; simpl in Heq.
    + subst its2. apply Forall_cons in H1 as [Ha _]. congruence.
    + injection Heq as <- Heq.
      apply Forall_cons in H1 as [_ H1]. apply Forall_cons in H2 as [_ H2].
      by destruct (IH r2 Heq H1 H2 Hs1 Hs2) as [-> ->].
Qed.

Lemma WordRuns_inv (its : list (Z * string)) (toks : list string) :
  WordRuns its toks ->
  match its with
  | [] => toks = []
  | it :: its' =>
    if isWordRune it.1 then
      exists run rest toks',
        its = run ++ rest /\ run <> [] /\
        Forall (fun it => isWordRune it.1 = true) run /\
        match rest with [] => True | it :: _ => isWordRune it.1 = false end /\
        WordRuns rest toks' /\ toks = strings.chunks run :: toks'
    else WordRuns its' toks
  end.
Proof.
  destruct 1 as [|it its toks Hsep H|run its toks Hne Hrun Hrest H].
  - done.
  - by rewrite Hsep.
  - destruct run as [|a run]; [done |]. simpl.
    pose proof Hrun as [Ha _]%Forall_cons. rewrite Ha.
    exists (a :: run), its, toks. by split_and!.
Qed.

Lemma WordRuns_functional (its : list (Z * string)) (toks1 toks2 : list string) :
  WordRuns its toks1 -> WordRuns its toks2 -> toks1 = toks2.
Proof.
  intros H1. revert toks2.
  induction H1 as [|it its toks Hsep _ IH|run its toks Hne Hrun Hrest _ IH];
    intros toks2 H2; apply WordRuns_inv in H2.
  - done.
  - rewrite Hsep in H2. by apply IH.
  - destruct run as [|a run]; [done |]. simpl in H2.
    pose proof Hrun as [Ha _]%Forall_cons. rewrite Ha in H2.
    destruct H2 as (run2 & rest2 & toks' & Heq & _ & Hrun2 & Hrest2 & H2 & ->).
    destruct (runs_split_unique (a :: run) its run2 rest2 Heq Hrun Hrun2 Hrest Hrest2)
      as [<- <-].
    f_equal. by apply IH.
Qed.

Lemma Contains_unfold (s sub : string) :
  strings.Contains s sub =
  strings.HasPrefix s sub ||
  match s with EmptyString => false | String _ t => strings.Contains t sub end.
Proof. by destruct s. Qed.

(** [strings.Contains] is the occurrence of a substring. *)
Lemma Contains_spec (s sub : string) :
  strings.Contains s sub = true <-> exists a b, s = a +:+ sub +:+ b.
Proof.
  split.
  - induction s as [|c t IH]; rewrite Contains_unfold.
    + rewrite orb_false_r. intros [b ->]%prefix_inv. by exists "", b.
    + intros [[b ->]%prefix_inv | H]%orb_true_iff; [by exists "", b |].
      destruct (IH H) as (a & b & ->). by exists (String c a), b.
  - intros (a & b & ->). induction a as [|c a IH]; rewrite Contains_unfold.
    + rewrite append_nil_l. unfold strings.HasPrefix. by rewrite prefix_append.
    + rewrite append_cons, IH. apply orb_true_r.
Qed.

Lemma replace_from_byte (c : ascii) (s : string) :
  strings.replace_from 0 s (str1 c) "" = removeByte c s.
Proof.
  induction s as [|d t IH]; [done |]. simpl.
  destruct (ascii_dec c d) as [-> | Hne].
  - rewrite Ascii.eqb_refl.
    assert (strings.HasPrefix t "" = true) as -> by (by destruct t).
    by rewrite append_nil_l, IH.
  - apply Ascii.eqb_neq in Hne. by rewrite Hne, IH.
Qed.

Lemma ReplaceAll_byte (c : ascii) (s : string) :
  strings.ReplaceAll s (str1 c) "" = removeByte c s.
Proof. apply replace_from_byte. Qed.

Section sensitive.
Import rules.
Variable L : Go.Lib.

Lemma isSeparator_word (r : Z) : isSeparator r = negb (isWordRune r).
Proof.
  unfold isSeparator, isWordRune, unicode.in_range.
  by repeat destruct (_ && _); destruct (_ =? _).
Qed.

(** With a field being read, the loop reads on to the end of the run. *)
Lemma fields_loop_run (its : list (Z * string)) (t : string) :
  exists run rest,
    its = run ++ rest /\
    Forall (fun it => isWordRune it.1 = true) run /\
    match rest with [] => True | it :: _ => isWordRune it.1 = false end /\
    strings.fields_loop isSeparator its (Some t)
    = (t +:+ strings.chunks run) :: strings.fields_loop isSeparator rest None.
Proof.
  revert t. induction its as [|it its IH]; intros t.
  - exists [], []. split_and!; [done | constructor | done |].
    simpl. by rewrite append_nil_r.
  - simpl. destruct (isSeparator it.1) eqn:E.
    + exists [], (it :: its). rewrite isSeparator_word in E.
      apply negb_true_iff in E. split_and!; [done | constructor | done |].
      simpl. rewrite isSeparator_word, E. simpl. by rewrite append_nil_r.
    + destruct (IH (t +:+ it.2)) as (run & rest & -> & Hrun & Hrest & ->).
      rewrite isSeparator_word in E. apply negb_false_iff in E.
      exists (it :: run), rest. split_and!; [done | by constructor | done |].
      by rewrite chunks_cons, append_assoc.
Qed.

Lemma fields_loop_runs (n : nat) (its : list (Z * string)) :
  (length its <= n)%nat ->
  WordRuns its (strings.fields_loop isSeparator its None).
Proof.
  revert its. induction n as [|n IH]; intros its Hn.
  - destruct its; [constructor | simpl in Hn; lia].
  - destruct its as [|it its]; [constructor |]. simpl in *.
    destruct (isSeparator it.1) eqn:E.
    + rewrite isSeparator_word in E. apply negb_true_iff in E.
      apply WordRuns_sep; [done | apply IH; lia].
    + rewrite isSeparator_word in E. apply negb_false_iff in E.
      destruct (fields_loop_run its it.2) as (run & rest & -> & Hrun & Hrest & ->).
      rewrite <- chunks_cons.
      apply (WordRuns_run (it :: run) rest); [done | by constructor | done |].
      apply IH. rewrite length_app in Hn. lia.
Qed.

(** The tokens are the maximal runs of word characters. *)
Lemma tokenizeWords_runs (s : string) :
  WordRuns (utf8.range s) (tokenizeWords s).
Proof. apply (fields_loop_runs (length (utf8.range s))). lia. Qed.

(** The loop over the tokens returns the diagnostic exactly when the
    first token equal to the keyword has no safe completion after it. *)
Lemma tokens_loop_unfold (kw tok : string) (rest : list string) :
  tokens_loop kw (tok :: rest) =
  if decide (tok ≠ kw) then tokens_loop kw rest
  else match rest with
       | next :: _ => if decide (next ∈ safeNext) then false else true
       | [] => true
       end.
Proof. reflexivity. Qed.

Lemma tokens_loop_spec (kw : string) (tokens : list string) :
  tokens_loop kw tokens = true <-> msgHit tokens kw.
Proof.
  unfold msgHit. induction tokens as [|tok rest IH].
  - split; [done | intros (pre & post & H & _)]. by destruct pre.
  - rewrite tokens_loop_unfold. case_decide as Hne.
    + rewrite IH. split.
      * intros (pre & post & -> & Hpre & Hpost).
        exists (tok :: pre), post. split_and!; [reflexivity | | exact Hpost].
        intros [-> | ?]%elem_of_cons; [by apply Hne | by apply Hpre].
      * intros (pre & post & Heq & Hpre & Hpost).
        destruct pre as [|p pre]; simpl in Heq; injection Heq as Hp Heq;
          [by destruct Hne |].
        exists pre, post. split_and!; [exact Heq | | exact Hpost].
        intros ?. apply Hpre. by right.
    + assert (tok = kw) as -> by (by destruct (decide (tok = kw))).
      split.
      * intros H. exists [], rest. split_and!; [reflexivity | by intros ?%elem_of_nil |].
        destruct rest as [|next rest']; [exact I |].
        destruct (decide (next ∈ safeNext)); [discriminate H | assumption].
      * intros (pre & post & Heq & Hpre & Hpost).
        destruct pre as [|p pre]; simpl in Heq.
        -- injection Heq as Heq.
           subst rest. destruct post as [|next post']; [reflexivity |].
           destruct (decide (next ∈ safeNext)); [contradiction | reflexivity].
        -- injection Heq as Hp Heq. exfalso. apply Hpre. subst p. by left.
Qed.

(** A keyword that is no token of the message does not hit in it,
    whatever it is a part of. *)
Lemma msgHit_token (tokens : list string) (kw : string) :
  msgHit tokens kw -> kw ∈ tokens.
Proof.
  intros (pre & post & -> & _). apply elem_of_app. right. by left.
Qed.

(** The place of the first token equal to the keyword is determined. *)
Lemma first_occurrence_unique (kw : string) (pre1 post1 pre2 post2 : list string) :
  pre1 ++ kw :: post1 = pre2 ++ kw :: post2 ->
  kw ∉ pre1 -> kw ∉ pre2 -> pre1 = pre2 /\ post1 = post2.
Proof.
  revert pre2. induction pre1 as [|a pre1 IH]; intros pre2 Heq H1 H2.
  - destruct pre2 as [|b pre2]; simpl in Heq.
    + by injection Heq as ->.
    + injection Heq as <- _. exfalso. apply H2. by left.
  - destruct pre2 as [|b pre2]; simpl in Heq.
    + injection Heq as -> _. exfalso. apply H1. by left.
    + injection Heq as <- Heq.
      destruct (IH pre2 Heq) as [-> ->]; [| | done].
      * intros ?. apply H1. by right.
      * intros ?. apply H2. by right.
Qed.

(** When the first token equal to the keyword is followed by a safe
    completion, the keyword does not hit in the message, whatever comes
    later. *)
Lemma msgHit_safe_completion (kw next : string) (pre post : list string) :
  kw ∉ pre -> next ∈ safeNext ->
  ~ msgHit (pre ++ kw :: next :: post) kw.
Proof.
  intros Hpre Hsafe (pre' & post' & Heq & Hpre' & Hpost').
  destruct (first_occurrence_unique kw pre (next :: post) pre' post' Heq Hpre Hpre')
    as [_ <-].
  by apply Hpost'.
Qed.

Lemma CheckSensitive_loop_cons tokens fullExpr kw rest :
  CheckSensitive_loop L tokens (strings.ToLower L fullExpr) (kw :: rest) =
  if tokens_loop (strings.ToLower L kw) tokens
  then sensitiveMsgDiag L (strings.ToLower L kw)
  else if exprHit L fullExpr kw
       then sensitiveExprDiag L (strings.ToLower L kw)
       else CheckSensitive_loop L tokens (strings.ToLower L fullExpr) rest.
Proof. reflexivity. Qed.

(** The result is that of the first keyword, in the order of the list,
    that hits, the message check before the expression check. *)
Lemma CheckSensitive_first_hit (msg fullExpr : string) (keywords : list string) :
  let tokens := tokenizeWords (strings.ToLower L msg) in
  (CheckSensitive L msg fullExpr keywords = "" /\
   forall kw, kw ∈ keywords -> noHit L tokens fullExpr kw) \/
  (exists pre kw post,
      keywords = pre ++ kw :: post /\
      (forall k, k ∈ pre -> noHit L tokens fullExpr k) /\
      ((msgHit tokens (strings.ToLower L kw) /\
        CheckSensitive L msg fullExpr keywords
        = sensitiveMsgDiag L (strings.ToLower L kw)) \/
       (~ msgHit tokens (strings.ToLower L kw) /\
        exprHit L fullExpr kw = true /\
        CheckSensitive L msg fullExpr keywords
        = sensitiveExprDiag L (strings.ToLower L kw)))).
Proof.
  intros tokens. unfold CheckSensitive. fold tokens.
  induction keywords as [|kw kws IH].
  - left. split; [done | by intros ? ?%elem_of_nil].
  - rewrite CheckSensitive_loop_cons.
    destruct (tokens_loop (strings.ToLower L kw) tokens) eqn:Em.
    { right. exists [], kw, kws. split_and!; [done | by intros ? ?%elem_of_nil |].
      left. by apply tokens_loop_spec in Em. }
    assert (Hm : ~ msgHit tokens (strings.ToLower L kw)).
    { rewrite <- tokens_loop_spec. by rewrite Em. }
    destruct (exprHit L fullExpr kw) eqn:Ee.
    { right. exists [], kw, kws. split_and!; [done | by intros ? ?%elem_of_nil |].
      right. by split_and!. }
    destruct IH as [[-> Hall] | (pre & k & post & -> & Hpre & Hk)].
    + left. split; [done |]. intros k [-> | ?]%elem_of_cons; [done | by apply Hall].
    + right. exists (kw :: pre), k, post. split_and!; [done | | done].
      intros k' [-> | ?]%elem_of_cons; [done | by apply Hpre].
Qed.

(** The expression check is the occurrence of the keyword without its
    underscores in the expression without its string literals, its
    underscores and its spaces, both in lower case. *)
Lemma exprHit_spec (fullExpr kw : string) :
  exprHit L fullExpr kw = true <->
  exists a b,
    removeByte " " (removeByte "_" (stripStringLiterals (strings.ToLower L fullExpr)))
    = a +:+ removeByte "_" (strings.ToLower L kw) +:+ b.
Proof.
  unfold exprHit, normalizeExpr.
  rewrite Contains_spec.
  change "_" with (str1 "_"). change " " with (str1 " ").
  by rewrite !ReplaceAll_byte.
Qed.

(** A quoted literal is replaced by two spaces. *)
Lemma stripStringLiterals_loop_quoted (body rest : list Z) :
  Forall (fun r => r <> 0x22 /\ r <> 0x5C) body ->
  stripStringLiterals_loop (0x22 :: body ++ 0x22 :: rest) false false false
  = " " +:+ " " +:+ stripStringLiterals_loop rest false false false.
Proof.
  intros Hb. simpl. f_equal.
  induction Hb as [|r body [Hq Hs] _ IH]; simpl; [done |].
  destruct (Z.eqb_spec r 0x5C); [done |]. destruct (Z.eqb_spec r 0x22); done.
Qed.

End sensitive.

(** C1.  The tokens of the lower-cased message are its maximal runs of
    the characters a-z, 0-9 and underscore.  The result of [CheckSensitive]
    is that of the first keyword of the list that hits, where a keyword,
    lower-cased, hits in the message when the first token equal to it (a
    whole token, not a part of one) is the last token or is followed by a
    token outside the safe completions, and otherwise hits in the expression
    when, without its underscores, it occurs in the lower-cased expression
    without its string literals, underscores and spaces.  With the default
    keywords, [token validated] is not reported, [token: abc123] is reported
    from the message text, and the expression ["authenticated " + jwtToken]
    is reported from the expression, the message [authenticated] holding no
    keyword as a token. *)
Theorem CheckSensitive_tokens_and_expression (L : Go.Lib) :
  (forall (msg fullExpr : string) (keywords : list string),
      let tokens := rules.tokenizeWords (strings.ToLower L msg) in
      WordRuns (utf8.range (strings.ToLower L msg)) tokens /\
      (forall toks, WordRuns (utf8.range (strings.ToLower L msg)) toks ->
                    toks = tokens) /\
      ((rules.CheckSensitive L msg fullExpr keywords = "" /\
        forall kw, kw ∈ keywords -> noHit L tokens fullExpr kw) \/
       (exists pre kw post,
           keywords = pre ++ kw :: post /\
           (forall k, k ∈ pre -> noHit L tokens fullExpr k) /\
           ((msgHit tokens (strings.ToLower L kw) /\
             rules.CheckSensitive L msg fullExpr keywords
             = rules.sensitiveMsgDiag L (strings.ToLower L kw)) \/
            (~ msgHit tokens (strings.ToLower L kw) /\
             exprHit L fullExpr kw = true /\
             rules.CheckSensitive L msg fullExpr keywords
             = rules.sensitiveExprDiag L (strings.ToLower L kw))))) /\
      (forall kw,
          exprHit L fullExpr kw = true <->
          exists a b,
            removeByte " " (removeByte "_"
              (rules.stripStringLiterals (strings.ToLower L fullExpr)))
            = a +:+ removeByte "_" (strings.ToLower L kw) +:+ b)) /\
  (forall (tokens : list string) (kw : string),
      kw ∉ tokens -> ~ msgHit tokens kw) /\
  (forall (kw next : string) (pre post : list string),
      kw ∉ pre -> next ∈ rules.safeNext ->
      ~ msgHit (pre ++ kw :: next :: post) kw) /\
  (forall body rest : list Z,
      Forall (fun r => r <> 0x22 /\ r <> 0x5C) body ->
      rules.stripStringLiterals_loop (0x22 :: body ++ 0x22 :: rest) false false false
      = " " +:+ " " +:+ rules.stripStringLiterals_loop rest false false false) /\
  rules.CheckSensitive L "token validated" (quoteASCII "token validated")
    config.defaultSensitiveKeywords = "" /\
  rules.CheckSensitive L "token: abc123" (quoteASCII "token: " +:+ " + token")
    config.defaultSensitiveKeywords = rules.sensitiveMsgDiag L "token" /\
  (forall fullExpr,
      rules.CheckSensitive L "token: abc123" fullExpr ["token"]
      = rules.sensitiveMsgDiag L "token") /\
  rules.tokenizeWords (strings.ToLower L "authenticated") = ["authenticated"] /\
  rules.CheckSensitive L "authenticated" (quoteASCII "authenticated " +:+ " + jwtToken")
    config.defaultSensitiveKeywords = rules.sensitiveExprDiag L "token".
Proof.
  split_and!.
  - intros msg fullExpr keywords tokens. split_and!.
    + apply tokenizeWords_runs.
    + intros toks Hruns.
      exact (WordRuns_functional _ _ _ Hruns (tokenizeWords_runs _)).
    + apply CheckSensitive_first_hit.
    + intros kw. apply exprHit_spec.
  - intros tokens kw Hno Hhit. by apply Hno, msgHit_token.
  - apply msgHit_safe_completion.
  - apply stripStringLiterals_loop_quoted.
  - vm_compute. reflexivity.
  - vm_compute. reflexivity.
  - intros fullExpr. reflexivity.
  - reflexivity.
  - vm_compute. reflexivity.
Qed.

(** ** Further properties of the code *)

Section literal_value.
Import analyzer.
Variable pass : analysis.Pass.



End literal_value.


Section english.
Import rules.
Variable L : Go.Lib.

Lemma englishDiag_ne (r : Z) : englishDiag L r <> "".
Proof. apply append_cons_ne. Qed.

Lemma runes_ascii (s : string) :
  Forall (fun c => byte_val c < 0x80) (list_ascii_of_string s) ->
  utf8.runes s = byte_val <$> list_ascii_of_string s.
Proof.
  induction s as [|c t IH]; [done |]. simpl. intros [Hc Ht]%Forall_cons.
  rewrite runes_ascii_cons by done. by rewrite IH.
Qed.

(** X2.  [CheckEnglish] reports the first rune above U+007F that is not
    one of the seven allowed punctuation characters, with the name of the
    script of its range, and nothing when there is none: a message of ASCII
    bytes is never reported. *)
Theorem CheckEnglish_first_foreign (msg : string) :
  let ok r := (r <=? unicode.MaxASCII) || isAllowedNonASCII r in
  (Forall (fun r => ok r = true) (utf8.runes msg) -> CheckEnglish L msg = "") /\
  (forall pre r post,
      utf8.runes msg = pre ++ r :: post ->
      Forall (fun r => ok r = true) pre -> ok r = false ->
      CheckEnglish L msg = englishDiag L r /\ englishDiag L r <> "") /\
  (Forall (fun c => byte_val c < 0x80) (list_ascii_of_string msg) ->
   CheckEnglish L msg = "") /\
  (forall r,
      (0x0400 <= r <= 0x04FF -> scriptName r = "Cyrillic") /\
      (0x4E00 <= r <= 0x9FFF -> scriptName r = "CJK") /\
      (0x0600 <= r <= 0x06FF -> scriptName r = "Arabic") /\
      (0x0900 <= r <= 0x097F -> scriptName r = "Devanagari") /\
      (0x1F300 <= r <= 0x1FAFF -> scriptName r = "Emoji")).
Proof.
  intros ok.
  assert (Hall : forall rs, Forall (fun r => ok r = true) rs ->
                            CheckEnglish_loop L rs = "").
  { induction 1 as [|r rs Hr _ IH]; simpl; [done |].
    unfold ok in Hr. apply orb_true_iff in Hr as [-> | Hr]; [done |].
    rewrite Hr. by destruct (r <=? unicode.MaxASCII). }
  split_and!.
  - apply Hall.
  - intros pre r post Hr Hpre Hbad. split; [| apply englishDiag_ne].
    unfold CheckEnglish. rewrite Hr. clear Hr.
    induction Hpre as [|x pre Hx _ IH]; simpl.
    + unfold ok in Hbad. apply orb_false_iff in Hbad as [-> ->]. done.
    + unfold ok in Hx. apply orb_true_iff in Hx as [-> | Hx]; [done |].
      rewrite Hx. by destruct (x <=? unicode.MaxASCII).
  - intros Hascii. apply Hall. rewrite runes_ascii by done.
    apply Forall_fmap. eapply Forall_impl; [exact Hascii |].
    intros c Hc. unfold ok. simpl in *. apply orb_true_iff. left.
    apply Z.leb_le. unfold unicode.MaxASCII. lia.
  - intros r. unfold scriptName. split_and!; intros H.
    + destruct (Z.leb_spec 0x0400 r), (Z.leb_spec r 0x04FF); try lia. done.
    + destruct (Z.leb_spec 0x0400 r), (Z.leb_spec r 0x04FF),
        (Z.leb_spec 0x4E00 r), (Z.leb_spec r 0x9FFF); try lia; done.
    + destruct (Z.leb_spec 0x0400 r), (Z.leb_spec r 0x04FF),
        (Z.leb_spec 0x4E00 r), (Z.leb_spec r 0x9FFF),
        (Z.leb_spec 0x0600 r), (Z.leb_spec r 0x06FF); try lia; done.
    + destruct (Z.leb_spec 0x0400 r), (Z.leb_spec r 0x04FF),
        (Z.leb_spec 0x4E00 r), (Z.leb_spec r 0x9FFF),
        (Z.leb_spec 0x0600 r), (Z.leb_spec r 0x06FF),
        (Z.leb_spec 0x0900 r), (Z.leb_spec r 0x097F); try lia; done.
    + destruct (Z.leb_spec 0x0400 r), (Z.leb_spec r 0x04FF),
        (Z.leb_spec 0x4E00 r), (Z.leb_spec r 0x9FFF),
        (Z.leb_spec 0x0600 r), (Z.leb_spec r 0x06FF),
        (Z.leb_spec 0x0900 r), (Z.leb_spec r 0x097F),
        (Z.leb_spec 0x1F300 r), (Z.leb_spec r 0x1FAFF); try lia; done.
Qed.

End english.

(** X6.  The classifier accepts a path exactly when it is one of the four
    listed paths or one of them followed by a slash and anything: by equality
    or by prefix for each of them. *)
Theorem isSupportedPackage_exactly (pkgPath : string) :
  analyzer.isSupportedPackage pkgPath = true <->
  exists prefix,
    prefix ∈ ["log/slog"; "go.uber.org/zap"; "go.uber.org/zap/zaptest"; "log"] /\
    (pkgPath = prefix \/ exists rest, pkgPath = prefix +:+ "/" +:+ rest).
Proof. apply isSupportedPackage_spec. Qed.

(** X3.  A rule is enabled unless the map of the configuration holds
    [false] for its name: a rule the map does not know is enabled, and so is
    every rule when the map is nil.  With the default configuration every
    rule is enabled, whatever its name. *)
Theorem IsRuleEnabled_default (c : config.Config) (name : string) :
  (config.IsRuleEnabled c name = false <->
   exists rules, config.Rules c = Some rules /\ rules !! name = Some false) /\
  config.IsRuleEnabled config.DefaultConfig name = true.
Proof.
  split.
  - unfold config.IsRuleEnabled. destruct (config.Rules c) as [rules|].
    + destruct (rules !! name) as [[|]|] eqn:E.
      * split; [done | intros (? & [= <-] & H)]. by rewrite E in H.
      * split; [intros _; by exists rules | done].
      * split; [done | intros (? & [= <-] & H)]. by rewrite E in H.
    + split; [done | by intros (? & ? & _)].
  - unfold config.IsRuleEnabled. cbn [config.Rules config.DefaultConfig].
    destruct (_ !! name) as [b|] eqn:E; [| done].
    repeat (apply lookup_insert_Some in E as [[_ <-] | [_ E]]; [done |]).
    by rewrite lookup_empty in E.
Qed.

(** Two calls, run with every rule enabled and the default keywords.  [slog.Info("Starting Server!!!")] gets two
    diagnostics: that of the lowercase rule, with the fix
    ["starting Server!!!"], and that of the special-characters rule, for the
    forbidden character [!] (not for the repeated punctuation), with the fix
    ["Starting Server"].  [slog.Info("user password: " + password)] gets one:
    the keyword [password], found in the message text. *)
Example visitNode_scenarios :
  analyzer.visitNode ascii_lib slog_pass config.DefaultConfig
    (ast.CallExpr slog_Info 19
       [ast.BasicLit 20 token.STRING (quoteASCII "Starting Server!!!")] 40) []
  = Done
      [ {| analysis.d_Pos := 20; analysis.d_End := 40;
           analysis.d_Message := rules.lowercaseDiag;
           analysis.SuggestedFixes :=
             [ {| analysis.fix_Message := "lowercase first letter of log message";
                  analysis.TextEdits :=
                    [ {| analysis.te_Pos := 20; analysis.te_End := 40;
                         analysis.NewText := quoteASCII "starting Server!!!" |} ] |} ] |};
        {| analysis.d_Pos := 20; analysis.d_End := 40;
           analysis.d_Message := rules.forbiddenDiag ascii_lib 0x21;
           analysis.SuggestedFixes :=
             [ {| analysis.fix_Message :=
                    "remove emoji and noisy special characters from log message";
                  analysis.TextEdits :=
                    [ {| analysis.te_Pos := 20; analysis.te_End := 40;
                         analysis.NewText := quoteASCII "Starting Server" |} ] |} ] |} ]
  /\
  analyzer.visitNode ascii_lib slog_pass config.DefaultConfig
    (ast.CallExpr slog_Info 19
       [ast.BinaryExpr
          (ast.BasicLit 20 token.STRING (quoteASCII "user password: ")) 38 token.ADD
          (ast.IdentExpr {| ast.NamePos := 40; ast.Name := "password" |})] 48) []
  = Done
      [ {| analysis.d_Pos := 20; analysis.d_End := 48;
           analysis.d_Message := rules.sensitiveMsgDiag ascii_lib "password";
           analysis.SuggestedFixes := [] |} ].
Proof. split; vm_compute; reflexivity. Qed.

Section fixes.
Import analyzer.

(** X5.  Neither fix is suggested unless the message argument is a
    string literal, and none is suggested for the empty message. *)
Theorem fixes_only_for_string_literals
        (L : Go.Lib) (pass : analysis.Pass) (lc : logCall)
        (msg allowedExtra : string) :
  ((forall p value, msgArg lc <> ast.BasicLit p token.STRING value) ->
   suggestLowercaseFix pass lc msg = Done [] /\
   suggestSpecialFix L pass lc msg allowedExtra = Done []) /\
  suggestLowercaseFix pass lc "" = Done [] /\
  suggestSpecialFix L pass lc "" allowedExtra = Done [].
Proof.
  split_and!; [| done | done].
  intros Hlit. unfold suggestLowercaseFix, suggestSpecialFix.
  case_decide; [done |].
  destruct (msgArg lc) as [| |p kind value| | | | | |]; try done.
  case_decide as Hk; [done |].
  exfalso. apply (Hlit p value). f_equal.
  by destruct (decide (kind = token.STRING)).
Qed.

End fixes.

(** No fix for the message argument [password], an identifier. *)
Lemma fixes_only_for_string_literals_witness :
  analyzer.suggestLowercaseFix slog_pass
    {| analyzer.pos := 9;
       analyzer.msgArg := ast.IdentExpr {| ast.NamePos := 20; ast.Name := "password" |};
       analyzer.msgLiteral := ""; analyzer.fullExpr := "password" |} "Password"
  = Done [] /\
  analyzer.suggestSpecialFix ascii_lib slog_pass
    {| analyzer.pos := 9;
       analyzer.msgArg := ast.IdentExpr {| ast.NamePos := 20; ast.Name := "password" |};
       analyzer.msgLiteral := ""; analyzer.fullExpr := "password" |} "Password" ""
  = Done [].
Proof.
  apply (proj1 (fixes_only_for_string_literals ascii_lib slog_pass
                  {| analyzer.pos := 9;
                     analyzer.msgArg :=
                       ast.IdentExpr {| ast.NamePos := 20; ast.Name := "password" |};
                     analyzer.msgLiteral := ""; analyzer.fullExpr := "password" |}
                  "Password" "")).
  intros p value. discriminate.
Defined.

(** ** Bytes of multi-byte encodings *)

Lemma lor_shiftl_add (a b n : Z) :
  0 <= n -> 0 <= b < 2 ^ n -> Z.lor (Z.shiftl a n) b = a * 2 ^ n + b.
Proof.
  intros Hn Hb.
  assert (Z.land (Z.shiftl a n) b = 0) as Hland.
  { apply Z.bits_inj'. intros i Hi. rewrite Z.land_spec, Z.bits_0.
    destruct (Z.lt_ge_cases i n) as [Hlt | Hge].
    - by rewrite Z.shiftl_spec_low.
    - destruct (Z.eq_dec b 0) as [-> | Hb0].
      + by rewrite Z.bits_0, andb_false_r.
      + rewrite (Z.bits_above_log2 b i); [by rewrite andb_false_r | lia |].
        apply Z.log2_lt_pow2; [lia |].
        eapply Z.lt_le_trans; [apply Hb |]. apply Z.pow_le_mono_r; lia. }
  pose proof (Z.add_lor_land (Z.shiftl a n) b) as H.
  rewrite Hland in H. rewrite <- Z.shiftl_mul_pow2 by done. lia.
Qed.

Lemma lor_lower_bound (a b : Z) : 0 <= a -> 0 <= b -> a <= Z.lor a b.
Proof.
  intros Ha Hb. pose proof (Z.add_lor_land a b) as H.
  assert (Z.land a b <= b); [| lia].
  pose proof (Z.add_lor_land (Z.ldiff b a) (Z.land b a)) as Hs.
  rewrite Z.lor_ldiff_and in Hs.
  assert (Z.land (Z.ldiff b a) (Z.land b a) = 0) as Hz.
  { by rewrite (Z.land_comm b a), Z.land_assoc, Z.land_ldiff, Z.land_0_l. }
  assert (0 <= Z.ldiff b a) by (apply Z.ldiff_nonneg; by left).
  rewrite (Z.land_comm a b). lia.
Qed.

Ltac lia_mod := Z.to_euclidean_division_equations; lia.

Lemma land_mask (a : Z) (n : Z) (m : Z) :
  0 <= n -> m = Z.ones n -> Z.land a m = a mod 2 ^ n.
Proof. intros Hn ->. by apply Z.land_ones. Qed.

(** A rune decoded from a byte that is not ASCII is not ASCII: it is
    [RuneError] or the rune of an encoding of two to four bytes. *)
Lemma DecodeRuneInString_nonascii (c0 : ascii) (t0 : string) :
  0x80 <= byte_val c0 ->
  0x80 <= (utf8.DecodeRuneInString (String c0 t0)).1.
Proof.
  intros Hc0. pose proof (byte_val_range c0) as Hr0.
  unfold utf8.DecodeRuneInString.
  set (b0 := byte_val c0) in *. clearbody b0. cbv zeta.
  assert (Herr : 0x80 <= utf8.RuneError) by (by vm_compute).
  assert (Hcls :
    utf8.first b0 = utf8.xx \/
    (0xC2 <= b0 < 0xE0 /\ utf8.first b0 = utf8.s1) \/
    (b0 = 0xE0 /\ utf8.first b0 = utf8.s2) \/
    (0xE1 <= b0 < 0xF0 /\ (utf8.first b0 = utf8.s3 \/ utf8.first b0 = utf8.s4)) \/
    (b0 = 0xF0 /\ utf8.first b0 = utf8.s5) \/
    (0xF1 <= b0 <= 0xF4 /\ (utf8.first b0 = utf8.s6 \/ utf8.first b0 = utf8.s7))).
  { unfold utf8.first.
    destruct (Z.ltb_spec b0 0x80); [lia_mod |].
    destruct (Z.ltb_spec b0 0xC2); [by left |].
    destruct (Z.ltb_spec b0 0xE0); [right; left; split; [lia_mod | done] |].
    destruct (Z.eqb_spec b0 0xE0); [do 2 right; left; done |].
    destruct (Z.ltb_spec b0 0xED); [do 3 right; left; split; [lia_mod | by left] |].
    destruct (Z.eqb_spec b0 0xED); [do 3 right; left; split; [lia_mod | by right] |].
    destruct (Z.ltb_spec b0 0xF0); [do 3 right; left; split; [lia_mod | by left] |].
    destruct (Z.eqb_spec b0 0xF0); [do 4 right; left; done |].
    destruct (Z.ltb_spec b0 0xF4); [do 5 right; split; [lia_mod | by left] |].
    destruct (Z.eqb_spec b0 0xF4); [do 5 right; split; [lia_mod | by right] |].
    by left. }
  destruct Hcls as [Hf | Hcls]; [by rewrite Hf |].
  assert ((utf8.as_ <=? utf8.first b0) = false) as ->.
  { destruct Hcls as [[_ ->] | [[_ ->] | [[_ [-> | ->]] | [[_ ->] | [_ [-> | ->]]]]]];
      by vm_compute. }
  destruct (utf8.acceptRanges _) as [lo hi] eqn:Hacc.
  destruct (_ <? _)%nat; [done |].
  destruct t0 as [|c1 t1]; [done |].
  pose proof (byte_val_range c1) as Hr1. set (b1 := byte_val c1) in *.
  clearbody b1.
  destruct (utf8.outside lo hi b1) eqn:Hout1; [done |].
  apply orb_false_iff in Hout1 as [Hlo Hhi].
  apply Z.ltb_ge in Hlo, Hhi.
  assert (Hm2 : Z.land b0 utf8.mask2 = b0 mod 32) by (by apply (land_mask _ 5)).
  assert (Hm3 : Z.land b0 utf8.mask3 = b0 mod 16) by (by apply (land_mask _ 4)).
  assert (Hm4 : Z.land b0 utf8.mask4 = b0 mod 8) by (by apply (land_mask _ 3)).
  assert (Hx1 : Z.land b1 utf8.maskx = b1 mod 64) by (by apply (land_mask _ 6)).
  assert (Hx : forall b, 0 <= Z.land b utf8.maskx).
  { intros b. apply Z.land_nonneg. by right. }
  assert (Hs6 : forall x, Z.shiftl x 6 = x * 64).
  { intros x. by rewrite Z.shiftl_mul_pow2. }
  assert (Hs12 : forall x, Z.shiftl x 12 = x * 4096).
  { intros x. by rewrite Z.shiftl_mul_pow2. }
  assert (Hs18 : forall x, Z.shiftl x 18 = x * 262144).
  { intros x. by rewrite Z.shiftl_mul_pow2. }
  assert (Hsn : forall x n, 0 <= x -> 0 <= Z.shiftl x n).
  { intros x n Hx0. by apply Z.shiftl_nonneg. }
  assert (Hge : forall a b, 0 <= a -> 0 <= b -> 0x80 <= a -> 0x80 <= Z.lor a b).
  { intros a b Ha Hb Hab. pose proof (lor_lower_bound a b Ha Hb). lia_mod. }
  assert (Hge' : forall a b, 0 <= a -> 0 <= b -> 0x80 <= b -> 0x80 <= Z.lor a b).
  { intros a b Ha Hb Hab. rewrite Z.lor_comm. by apply Hge. }
  assert (Hnn : forall a b, 0 <= a -> 0 <= b -> 0 <= Z.lor a b).
  { intros a b Ha Hb. by apply Z.lor_nonneg. }
  destruct Hcls as [[Hb0 Hf] | [[Hb0 Hf] | [[Hb0 Hf] | [[Hb0 Hf] | [Hb0 Hf]]]]].
  - rewrite Hf. simpl (_ <=? _)%nat. cbn [fst].
    apply Hge; [apply Hsn; rewrite Hm2; lia_mod | apply Hx |].
    rewrite Hs6, Hm2. lia_mod.
  - rewrite Hf in Hacc |- *. injection Hacc as <- <-.
    simpl (_ <=? _)%nat. cbv iota.
    destruct t1 as [|c2 t2]; [done |].
    destruct (utf8.outside _ _ _); [done |].
    simpl (_ <=? _)%nat. cbn [fst].
    apply Hge; [apply Hnn; apply Hsn; [rewrite Hm3; lia_mod | apply Hx] | apply Hx |].
    apply Hge'; [apply Hsn; rewrite Hm3; lia_mod | apply Hsn, Hx |].
    rewrite Hs6, Hx1. unfold utf8.hicb in Hhi. lia_mod.
  - assert ((Z.to_nat (Z.land (utf8.first b0) 7) <=? 2)%nat = false) as ->
      by (by destruct Hf as [-> | ->]).
    destruct t1 as [|c2 t2]; [done |].
    destruct (utf8.outside _ _ _); [done |].
    assert ((Z.to_nat (Z.land (utf8.first b0) 7) <=? 3)%nat = true) as ->
      by (by destruct Hf as [-> | ->]).
    cbn [fst].
    apply Hge; [apply Hnn; apply Hsn; [rewrite Hm3; lia_mod | apply Hx] | apply Hx |].
    apply Hge; [apply Hsn; rewrite Hm3; lia_mod | apply Hsn, Hx |].
    rewrite Hs12, Hm3. lia_mod.
  - rewrite Hf in Hacc |- *. injection Hacc as <- <-.
    simpl (_ <=? _)%nat. cbv iota.
    destruct t1 as [|c2 t2]; [done |].
    destruct (utf8.outside _ _ _); [done |].
    simpl (_ <=? _)%nat. cbv iota.
    destruct t2 as [|c3 t3]; [done |].
    destruct (utf8.outside _ _ _); [done |].
    cbn [fst].
    apply Hge; [| apply Hx |].
    { apply Hnn; [apply Hnn |]; apply Hsn; [rewrite Hm4; lia_mod | apply Hx | apply Hx]. }
    apply Hge; [| apply Hsn, Hx |].
    { apply Hnn; apply Hsn; [rewrite Hm4; lia_mod | apply Hx]. }
    apply Hge'; [apply Hsn; rewrite Hm4; lia_mod | apply Hsn, Hx |].
    rewrite Hs12, Hx1. unfold utf8.hicb in Hhi. lia_mod.
  - assert ((Z.to_nat (Z.land (utf8.first b0) 7) <=? 2)%nat = false) as ->
      by (by destruct Hf as [-> | ->]).
    destruct t1 as [|c2 t2]; [done |].
    destruct (utf8.outside _ _ _); [done |].
    assert ((Z.to_nat (Z.land (utf8.first b0) 7) <=? 3)%nat = false) as ->
      by (by destruct Hf as [-> | ->]).
    destruct t2 as [|c3 t3]; [done |].
    destruct (utf8.outside _ _ _); [done |].
    cbn [fst].
    apply Hge; [| apply Hx |].
    { apply Hnn; [apply Hnn |]; apply Hsn; [rewrite Hm4; lia_mod | apply Hx | apply Hx]. }
    apply Hge; [| apply Hsn, Hx |].
    { apply Hnn; apply Hsn; [rewrite Hm4; lia_mod | apply Hx]. }
    apply Hge; [apply Hsn; rewrite Hm4; lia_mod | apply Hsn, Hx |].
    rewrite Hs18, Hm4. lia_mod.
Qed.

Lemma byte_lor_high (a n y : Z) :
  0 <= n -> 0 <= y < 2 ^ n -> 0x80 <= a * 2 ^ n -> a * 2 ^ n + y < 256 ->
  0x80 <= byte_val (byte_chr (Z.lor (Z.shiftl a n) y)).
Proof.
  intros Hn Hy Hlo Hhi. rewrite lor_shiftl_add by done.
  rewrite byte_val_chr; lia.
Qed.

Lemma shiftr_bound (r k : Z) (lo hi : Z) :
  0 <= k -> lo * 2 ^ k <= r < hi * 2 ^ k -> lo <= Z.shiftr r k < hi.
Proof.
  intros Hk [Hlo Hhi]. rewrite Z.shiftr_div_pow2 by done.
  assert (0 < 2 ^ k) by (apply Z.pow_pos_nonneg; lia).
  split.
  - apply Z.div_le_lower_bound; lia.
  - apply Z.div_lt_upper_bound; lia.
Qed.

Lemma land_maskx_bound (x : Z) : 0 <= Z.land x utf8.maskx < 2 ^ 6.
Proof.
  rewrite (land_mask x 6 utf8.maskx) by done. apply Z.mod_pos_bound. lia.
Qed.

Lemma continuation_high (x : Z) :
  0x80 <= byte_val (byte_chr (Z.lor utf8.tx (Z.land x utf8.maskx))).
Proof.
  pose proof (land_maskx_bound x) as H.
  change utf8.tx with (Z.shiftl 1 7).
  apply byte_lor_high; [lia | | lia |].
  - change (2 ^ 6) with 64 in H. change (2 ^ 7) with 128. lia.
  - change (2 ^ 6) with 64 in H. change (2 ^ 7) with 128. lia.
Qed.

(** The bytes of the encoding of a rune that is not ASCII are not ASCII. *)
Lemma EncodeRune_bytes_high (r : Z) :
  ~ (0 <= r <= 0x7F) ->
  Forall (fun c => 0x80 <= byte_val c) (list_ascii_of_string (utf8.EncodeRune r)).
Proof.
  intros Hr.
  assert (Herr : Forall (fun c => 0x80 <= byte_val c)
                        (list_ascii_of_string (utf8.bytes3 utf8.RuneError))).
  { unfold utf8.bytes3. cbn [list_ascii_of_string]. repeat constructor; by vm_compute. }
  unfold utf8.EncodeRune, utf8.rune1Max, utf8.rune2Max, utf8.rune3Max,
    utf8.MaxRune, utf8.surrogateMin, utf8.surrogateMax.
  destruct (Z.leb_spec 0 r) as [H0 | H0]; cbn [andb].
  2: { destruct (Z.ltb_spec r 0); [| lia]. cbn [orb]. exact Herr. }
  destruct (Z.leb_spec r 0x7F) as [H1 | H1]; [lia |].
  destruct (Z.leb_spec r 0x7FF) as [H2 | H2].
  { cbn [list_ascii_of_string]. repeat constructor; [| apply continuation_high].
    destruct (shiftr_bound r 6 2 32) as [Ha Hb]; [lia | lia |].
    change utf8.t2 with (Z.shiftl 3 6).
    apply byte_lor_high; [lia | | lia |]; change (2 ^ 6) with 64; lia. }
  destruct (Z.ltb_spec r 0); [lia |]. cbn [orb].
  destruct (Z.ltb_spec 0x10FFFF r) as [H3 | H3]; cbn [orb]; [exact Herr |].
  destruct ((0xD800 <=? r) && (r <=? 0xDFFF)); [exact Herr |].
  destruct (Z.leb_spec r 0xFFFF) as [H4 | H4].
  { unfold utf8.bytes3. cbn [list_ascii_of_string].
    repeat constructor; [| apply continuation_high | apply continuation_high].
    destruct (shiftr_bound r 12 0 16) as [Ha Hb]; [lia | lia |].
    change utf8.t3 with (Z.shiftl 7 5).
    apply byte_lor_high; [lia | | lia |]; change (2 ^ 5) with 32; lia. }
  cbn [list_ascii_of_string].
  repeat constructor;
    [| apply continuation_high | apply continuation_high | apply continuation_high].
  destruct (shiftr_bound r 18 0 5) as [Ha Hb]; [lia | lia |].
  change utf8.t4 with (Z.shiftl 15 4).
  apply byte_lor_high; [lia | | lia |]; change (2 ^ 4) with 16; lia.
Qed.

Lemma has_byte_app (c : ascii) (s t : string) :
  strings.has_byte c (s +:+ t) = strings.has_byte c s || strings.has_byte c t.
Proof.
  induction s as [|d s IH]; [by rewrite append_nil_l |].
  rewrite append_cons. simpl. by rewrite IH, orb_assoc.
Qed.

Lemma has_byte_In (c : ascii) (s : string) :
  strings.has_byte c s = true <-> In c (list_ascii_of_string s).
Proof.
  induction s as [|d s IH]; simpl; [done |].
  rewrite orb_true_iff, IH.
  destruct (Ascii.eqb_spec c d) as [-> | Hne]; [tauto |].
  split; [intros [? | ?]; [done | by right] | intros [-> | ?]; [done | by right]].
Qed.

(** An ASCII byte occurs in the encoding of a rune only as the rune
    itself. *)
Lemma EncodeRune_has_byte (c : ascii) (r : Z) :
  byte_val c < 0x80 -> r <> byte_val c ->
  strings.has_byte c (utf8.EncodeRune r) = false.
Proof.
  intros Hc Hne. apply not_true_is_false. rewrite has_byte_In. intros Hin.
  destruct (decide (0 <= r <= 0x7F)) as [Hr | Hr].
  - rewrite EncodeRune_ascii in Hin by done.
    destruct Hin as [<- | []]. apply Hne. rewrite byte_val_chr; lia.
  - pose proof (EncodeRune_bytes_high r Hr) as Hall.
    rewrite List.Forall_forall in Hall. specialize (Hall c Hin). lia.
Qed.

(** ** Strings of ASCII runes *)

Lemma byte_chr_val (c : ascii) : byte_chr (byte_val c) = c.
Proof.
  unfold byte_chr, byte_val. pose proof (N_ascii_bounded c).
  rewrite Z.mod_small by lia. rewrite N2Z.id. apply ascii_N_embedding.
Qed.

Lemma list_ascii_of_string_app (s t : string) :
  list_ascii_of_string (s +:+ t) = list_ascii_of_string s ++ list_ascii_of_string t.
Proof.
  induction s as [|c s IH]; [by rewrite append_nil_l |].
  rewrite append_cons. simpl. by rewrite IH.
Qed.

Lemma of_runes_cons (r : Z) (rs : list Z) :
  utf8.of_runes (r :: rs) = utf8.EncodeRune r +:+ utf8.of_runes rs.
Proof. reflexivity. Qed.

Lemma runes_of_runes_ascii (rs : list Z) :
  Forall (fun r => 0 <= r <= unicode.MaxASCII) rs ->
  utf8.runes (utf8.of_runes rs) = rs.
Proof.
  induction 1 as [|r rs Hr _ IH]; [done |].
  rewrite of_runes_cons, runes_EncodeRune_ascii by done. by rewrite IH.
Qed.

(** A rune of the ASCII range was decoded from one byte, which is its
    encoding. *)
Lemma range_from_ascii_item (s : string) (k : nat) :
  Forall (fun it => it.1 <= unicode.MaxASCII -> it.2 = utf8.EncodeRune it.1)
         (utf8.range_from k s).
Proof.
  revert k. induction s as [|c t IH]; intros k; [constructor |].
  destruct k as [|k]; [| apply IH].
  rewrite range_from_0_cons.
  destruct (utf8.DecodeRuneInString (String c t)) as [r w] eqn:Hd.
  constructor; [| apply IH].
  cbn [fst snd]. unfold unicode.MaxASCII. intros Hr.
  destruct (Z.lt_ge_cases (byte_val c) 0x80) as [Hc | Hc].
  - rewrite DecodeRuneInString_ascii in Hd by done. injection Hd as <- <-.
    rewrite EncodeRune_ascii by (pose proof (byte_val_range c); unfold unicode.MaxASCII; lia).
    rewrite byte_chr_val. simpl. by rewrite substring_0_0.
  - pose proof (DecodeRuneInString_nonascii c t Hc) as Hge.
    rewrite Hd in Hge. simpl in Hge. lia.
Qed.

Lemma of_runes_chunks (its : list (Z * string)) :
  Forall (fun it => it.1 <= unicode.MaxASCII -> it.2 = utf8.EncodeRune it.1) its ->
  Forall (fun it => it.1 <= unicode.MaxASCII) its ->
  utf8.of_runes its.*1 = strings.chunks its.
Proof.
  induction 1 as [|it its Hit _ IH]; intros Hall; [done |].
  apply Forall_cons in Hall as [Ha Hall].
  rewrite fmap_cons, of_runes_cons, chunks_cons, IH by done.
  by rewrite Hit.
Qed.

(** A string whose runes are all ASCII is the encoding of its runes. *)
Lemma of_runes_runes_ascii (s : string) :
  Forall (fun r => r <= unicode.MaxASCII) (utf8.runes s) ->
  utf8.of_runes (utf8.runes s) = s.
Proof.
  intros H. unfold utf8.runes in *. rewrite of_runes_chunks.
  - apply range_chunks.
  - apply (range_from_ascii_item s 0).
  - rewrite List.Forall_forall in H. apply List.Forall_forall.
    intros it Hit. apply H. by apply (in_map fst).
Qed.

Lemma filter_fixed {A} (f : A -> bool) (l : list A) :
  List.filter f l = l <-> Forall (fun x => f x = true) l.
Proof.
  induction l as [|a l IH]; simpl; [split; [constructor | done] |].
  destruct (f a) eqn:E.
  - split.
    + intros [= H]. constructor; [done | by apply IH].
    + intros [_ H]%Forall_cons. f_equal. by apply IH.
  - split.
    + intros H. pose proof (List.filter_length_le f l) as Hle.
      rewrite H in Hle. simpl in Hle. lia.
    + intros [H _]%Forall_cons. congruence.
Qed.

Lemma filter_filter {A} (f : A -> bool) (l : list A) :
  List.filter f (List.filter f l) = List.filter f l.
Proof.
  apply filter_fixed. apply List.Forall_forall. intros x Hx.
  by apply List.filter_In in Hx as [_ ?].
Qed.


(** ** The value of a plain literal *)

Lemma substring_full (s : string) : substring 0 (String.length s) s = s.
Proof. induction s as [|c s IH]; [done |]. simpl. by rewrite IH. Qed.

Lemma substring_0_append (s t : string) :
  substring 0 (String.length s) (s +:+ t) = s.
Proof.
  induction s as [|c s IH]; [by rewrite append_nil_l, substring_0_0 |].
  rewrite append_cons. simpl. by rewrite IH.
Qed.

Lemma string_of_list_ascii_app (l k : list ascii) :
  string_of_list_ascii (l ++ k) = string_of_list_ascii l +:+ string_of_list_ascii k.
Proof.
  induction l as [|c l IH]; [by rewrite append_nil_l |].
  simpl. by rewrite IH, append_cons.
Qed.

Lemma rev_app (s t : string) :
  strings.rev (s +:+ t) = strings.rev t +:+ strings.rev s.
Proof.
  unfold strings.rev.
  by rewrite list_ascii_of_string_app, rev_app_distr, string_of_list_ascii_app.
Qed.

Lemma rev_str1 (c : ascii) : strings.rev (str1 c) = str1 c.
Proof. reflexivity. Qed.

Lemma rev_involutive (s : string) : strings.rev (strings.rev s) = s.
Proof.
  unfold strings.rev.
  by rewrite list_ascii_of_string_of_list_ascii, List.rev_involutive,
    string_of_list_ascii_of_string.
Qed.

Lemma has_byte_rev (c : ascii) (s : string) :
  strings.has_byte c (strings.rev s) = strings.has_byte c s.
Proof.
  apply eq_true_iff_eq. rewrite !has_byte_In. unfold strings.rev.
  rewrite list_ascii_of_string_of_list_ascii. symmetry. apply in_rev.
Qed.

Lemma has_byte_str1 (c d : ascii) : strings.has_byte c (str1 d) = Ascii.eqb c d.
Proof. simpl. by rewrite orb_false_r. Qed.

Lemma trimLeftASCII_absent (c : ascii) (s : string) :
  strings.has_byte c s = false -> strings.trimLeftASCII s (str1 c) = s.
Proof.
  destruct s as [|d s]; [done |]. simpl. intros [Hd _]%orb_false_iff.
  rewrite orb_false_r. by rewrite Ascii.eqb_sym, Hd.
Qed.

Lemma trimLeftASCII_other (c d : ascii) (s : string) :
  Ascii.eqb d c = false -> strings.trimLeftASCII (String d s) (str1 c) = String d s.
Proof. intros H. simpl. by rewrite H. Qed.

Lemma prefix_head_ne (c d : ascii) (p s : string) :
  c <> d -> String.prefix (String c p) (String d s) = false.
Proof.
  intros H. simpl. destruct (ascii_dec c d); [done | done].
Qed.

Lemma HasPrefix_absent (c : ascii) (p s : string) :
  strings.has_byte c s = false -> strings.HasPrefix s (String c p) = false.
Proof.
  unfold strings.HasPrefix. destruct s as [|d s]; [done |]. simpl.
  intros [Hd _]%orb_false_iff. apply Ascii.eqb_neq in Hd.
  destruct (ascii_dec c d); [done | done].
Qed.

(** [strings.ReplaceAll] changes nothing when the first byte of [old]
    does not occur. *)
Lemma ReplaceAll_absent (c : ascii) (p new s : string) :
  strings.has_byte c s = false -> strings.ReplaceAll s (String c p) new = s.
Proof.
  unfold strings.ReplaceAll. induction s as [|d s IH]; [done |].
  intros H. cbn [strings.replace_from]. rewrite (HasPrefix_absent c p _ H).
  simpl in H. apply orb_false_iff in H as [_ H]. by rewrite IH.
Qed.

Lemma Trim_absent (c : ascii) (s : string) :
  strings.has_byte c s = false -> strings.Trim s (str1 c) = s.
Proof.
  intros H. unfold strings.Trim. rewrite (trimLeftASCII_absent c s H).
  rewrite trimLeftASCII_absent by (by rewrite has_byte_rev).
  apply rev_involutive.
Qed.

Lemma TrimPrefix_absent (c : ascii) (s : string) :
  strings.has_byte c s = false -> strings.TrimPrefix s (str1 c) = s.
Proof.
  intros H. unfold strings.TrimPrefix, str1. by rewrite (HasPrefix_absent c "" s H).
Qed.

Lemma TrimSuffix_absent (c : ascii) (s : string) :
  strings.has_byte c s = false -> strings.TrimSuffix s (str1 c) = s.
Proof.
  intros H. unfold strings.TrimSuffix, strings.HasSuffix. rewrite rev_str1.
  unfold str1. rewrite HasPrefix_absent; [done |]. by rewrite has_byte_rev.
Qed.

Lemma unquoteLit_escapes (s : string) :
  strings.has_byte bslash s = false ->
  strings.ReplaceAll
    (strings.ReplaceAll
       (strings.ReplaceAll
          (strings.ReplaceAll s (String bslash (str1 dquote)) (str1 dquote))
          (String bslash (str1 bslash)) (str1 bslash))
       (String bslash "n") (str1 newline))
    (String bslash "t") (str1 tab) = s.
Proof. intros H. by rewrite !(ReplaceAll_absent bslash _ _ s H). Qed.

Lemma Trim_ends (c d1 d2 : ascii) (u : string) :
  Ascii.eqb d1 c = false -> Ascii.eqb d2 c = false ->
  strings.Trim (String d1 (u +:+ str1 d2)) (str1 c) = String d1 (u +:+ str1 d2).
Proof.
  intros H1 H2. unfold strings.Trim. rewrite trimLeftASCII_other by done.
  assert (strings.rev (String d1 (u +:+ str1 d2))
          = String d2 (strings.rev u +:+ str1 d1)) as Hrev.
  { change (String d1 (u +:+ str1 d2)) with (str1 d1 +:+ (u +:+ str1 d2)).
    rewrite !rev_app, !rev_str1. unfold str1 at 1.
    by rewrite !append_cons, append_nil_l. }
  rewrite Hrev, trimLeftASCII_other by done.
  rewrite <- Hrev. apply rev_involutive.
Qed.

Lemma quoteASCII_cons (s : string) :
  quoteASCII s = String dquote (s +:+ str1 dquote).
Proof. unfold quoteASCII, str1. by rewrite append_cons, append_nil_l. Qed.

Lemma unquoteLit_quoted (s : string) :
  strings.has_byte bslash s = false -> analyzer.unquoteLit (quoteASCII s) = s.
Proof.
  intros H. unfold analyzer.unquoteLit. rewrite quoteASCII_cons.
  rewrite Trim_ends by done.
  assert (strings.TrimPrefix (String dquote (s +:+ str1 dquote)) (str1 dquote)
          = s +:+ str1 dquote) as ->.
  { unfold strings.TrimPrefix, strings.HasPrefix.
    change (String dquote (s +:+ str1 dquote))
      with (str1 dquote +:+ (s +:+ str1 dquote)) at 1.
    rewrite prefix_append. simpl String.length.
    change (substring 1 (S (String.length (s +:+ str1 dquote)) - 1)
                      (String dquote (s +:+ str1 dquote)))
      with (substring 0 (S (String.length (s +:+ str1 dquote)) - 1)
                      (s +:+ str1 dquote)).
    replace (S (String.length (s +:+ str1 dquote)) - 1)%nat
      with (String.length (s +:+ str1 dquote)) by lia.
    apply substring_full. }
  assert (strings.TrimSuffix (s +:+ str1 dquote) (str1 dquote) = s) as ->.
  { unfold strings.TrimSuffix, strings.HasSuffix.
    rewrite rev_app, rev_str1. unfold strings.HasPrefix. rewrite prefix_append.
    rewrite append_length. simpl String.length.
    replace (String.length s + 1 - 1)%nat with (String.length s) by lia.
    apply substring_0_append. }
  by apply unquoteLit_escapes.
Qed.

Lemma unquoteLit_raw (s : string) :
  strings.has_byte bslash s = false ->
  strings.has_byte bquote s = false ->
  strings.has_byte dquote s = false ->
  analyzer.unquoteLit (str1 bquote +:+ s +:+ str1 bquote) = s.
Proof.
  intros Hb Hq Hd. unfold analyzer.unquoteLit.
  assert (strings.Trim (str1 bquote +:+ s +:+ str1 bquote) (str1 bquote) = s) as ->.
  { unfold strings.Trim. unfold str1 at 1. rewrite append_cons, append_nil_l.
    assert (strings.trimLeftASCII (String bquote (s +:+ str1 bquote)) (str1 bquote)
            = strings.trimLeftASCII (s +:+ str1 bquote) (str1 bquote)) as -> by done.
    destruct s as [|c s].
    - done.
    - rewrite append_cons. simpl in Hq. apply orb_false_iff in Hq as [Hc Hq].
      rewrite trimLeftASCII_other by (by rewrite Ascii.eqb_sym).
      change (String c (s +:+ str1 bquote)) with (String c s +:+ str1 bquote).
      rewrite rev_app, rev_str1. unfold str1 at 1. rewrite append_cons, append_nil_l.
      assert (strings.trimLeftASCII (String bquote (strings.rev (String c s))) (str1 bquote)
              = strings.trimLeftASCII (strings.rev (String c s)) (str1 bquote)) as -> by done.
      rewrite trimLeftASCII_absent.
      + apply rev_involutive.
      + rewrite has_byte_rev. simpl. by rewrite Hc, Hq. }
  rewrite TrimPrefix_absent, TrimSuffix_absent by done.
  by apply unquoteLit_escapes.
Qed.

Section plain_literal.
Variable L : Go.Lib.

(** X9.  The literal value of a string literal whose text holds no
  backslash is the text between the quotes: for a double-quoted literal
  always, and for a raw literal when the text holds no double quote
  either. *)
Theorem literal_value_of_plain_text
      (pass : analysis.Pass) (valuePos : Z) (s : string) :
strings.has_byte bslash s = false ->
(analyzer.extractStringValue L pass
   (ast.BasicLit valuePos token.STRING (quoteASCII s))).1 = s /\
(strings.has_byte bquote s = false ->
 strings.has_byte dquote s = false ->
 (analyzer.extractStringValue L pass
    (ast.BasicLit valuePos token.STRING (str1 bquote +:+ s +:+ str1 bquote))).1
 = s).
Proof.
intros Hb. unfold analyzer.extractStringValue. cbn [fst].
cbn [analyzer.collectStringParts]. rewrite !decide_True by done.
cbn [app strings.Join foldr]. rewrite !append_nil_r. split.
- by apply unquoteLit_quoted.
- intros Hq Hd. by apply unquoteLit_raw.
Qed.

End plain_literal.

(** The value of ["starting server"] and of the raw literal of the same
    text. *)
Lemma literal_value_of_plain_text_witness :
  (analyzer.extractStringValue ascii_lib slog_pass
     (ast.BasicLit 20 token.STRING (quoteASCII "starting server"))).1
  = "starting server" /\
  (strings.has_byte bquote "starting server" = false ->
   strings.has_byte dquote "starting server" = false ->
   (analyzer.extractStringValue ascii_lib slog_pass
      (ast.BasicLit 20 token.STRING
         (str1 bquote +:+ "starting server" +:+ str1 bquote))).1
   = "starting server").
Proof.
  exact (literal_value_of_plain_text ascii_lib slog_pass 20 "starting server"
           eq_refl).
Defined.

(** ** The lowercase fix *)

Lemma append_inv_head (s t u : string) : s +:+ t = s +:+ u -> t = u.
Proof.
  induction s as [|c s IH]; [by rewrite !append_nil_l |].
  rewrite !append_cons. intros [= H]. by apply IH.
Qed.

Lemma runes_cons_decode (c : ascii) (t : string) :
  exists rest,
    utf8.runes (String c t) = (utf8.DecodeRuneInString (String c t)).1 :: rest.
Proof.
  unfold utf8.runes, utf8.range. rewrite range_from_0_cons.
  destruct (utf8.DecodeRuneInString (String c t)) as [r w]. by eexists.
Qed.

Lemma IsSpace_letter (r : Z) :
  0x41 <= r <= 0x7A -> unicode.IsSpace r = false.
Proof.
  intros H. unfold unicode.IsSpace, unicode.in_range.
  destruct (Z.leb_spec r 0xFF); [| lia].
  repeat (apply orb_false_iff; split);
    try apply andb_false_iff; try (apply Z.eqb_neq; lia).
  right. apply Z.leb_gt. lia.
Qed.

Section lowercase_fix.
Import rules analyzer.
Variable L : Go.Lib.

Lemma suggestLowercaseFix_exactly_aux
      (pass : analysis.Pass) (callPos valuePos : Z) (c : ascii)
      (value literal full msg : string) :
utf8.of_runes (utf8.runes msg) = msg ->
suggestLowercaseFix pass
  {| pos := callPos;
     msgArg := ast.BasicLit valuePos token.STRING (String c value);
     msgLiteral := literal;
     fullExpr := full |} msg =
Done match msg with
     | String c0 t =>
       if unicode.in_range 0x41 0x5A (byte_val c0) then
         [ {| analysis.fix_Message := "lowercase first letter of log message";
              analysis.TextEdits :=
                [ {| analysis.te_Pos := valuePos;
                     analysis.te_End := valuePos + ast.strlen (String c value);
                     analysis.NewText :=
                       utf8.EncodeRune (byte_val c)
                         +:+ String (byte_chr (byte_val c0 + 0x20)) t
                         +:+ utf8.EncodeRune (byte_val c) |} ] |} ]
       else []
     | EmptyString => []
     end.
Proof.
intros Hvalid. unfold suggestLowercaseFix. cbn [msgArg].
destruct msg as [|c0 t]; [done |].
rewrite decide_False by done. rewrite decide_False by (intros H; by apply H).
destruct (runes_cons_decode c0 t) as [rest Hrunes].
rewrite Hrunes in Hvalid |- *.
set (r0 := (utf8.DecodeRuneInString (String c0 t)).1) in *.
pose proof (byte_val_range c0) as Hc0.
unfold unicode.in_range.
destruct (Z.leb_spec 0x41 (byte_val c0)) as [Hlo | Hlo];
  [destruct (Z.leb_spec (byte_val c0) 0x5A) as [Hhi | Hhi] |]; cbn [andb].
- (* an upper-case ASCII letter *)
  assert (r0 = byte_val c0) as Hr0.
  { unfold r0. rewrite DecodeRuneInString_ascii by lia. done. }
  rewrite of_runes_cons, Hr0, EncodeRune_ascii, byte_chr_val in Hvalid
    by (unfold unicode.MaxASCII; lia).
  unfold str1 in Hvalid. rewrite append_cons, append_nil_l in Hvalid.
  injection Hvalid as Hrest.
  cbn [app]. rewrite of_runes_cons, Hrest. unfold lowerRune. rewrite Hr0.
  destruct (Z.leb_spec 0x41 (byte_val c0)); [| lia].
  destruct (Z.leb_spec (byte_val c0) 0x5A); [| lia]. cbn [andb].
  change (byte_val c0 + (0x61 - 0x41)) with (byte_val c0 + 0x20).
  rewrite (EncodeRune_ascii (byte_val c0 + 0x20)) by (unfold unicode.MaxASCII; lia).
  rewrite decide_False; [reflexivity |].
  intros Heq.
  change (String (byte_chr (byte_val c0 + 0x20)) t = String c0 t) in Heq.
  injection Heq as Hc. apply (f_equal byte_val) in Hc.
  rewrite byte_val_chr in Hc by lia. lia.
- (* above Z *)
  assert (lowerRune r0 = r0) as Hl.
  { unfold lowerRune.
    destruct (Z.lt_ge_cases (byte_val c0) 0x80) as [Ha | Ha].
    - unfold r0. rewrite DecodeRuneInString_ascii by done. cbn [fst].
      destruct (Z.leb_spec 0x41 (byte_val c0)); [| lia].
      by destruct (Z.leb_spec (byte_val c0) 0x5A); [lia |].
    - pose proof (DecodeRuneInString_nonascii c0 t Ha) as Hge. fold r0 in Hge.
      destruct (Z.leb_spec 0x41 r0); [| lia].
      by destruct (Z.leb_spec r0 0x5A); [lia |]. }
  cbn [app]. rewrite Hl. by rewrite decide_True.
- (* below A *)
  assert (lowerRune r0 = r0) as Hl.
  { unfold lowerRune, r0. rewrite DecodeRuneInString_ascii by lia. cbn [fst].
    by destruct (Z.leb_spec 0x41 (byte_val c0)); [lia |]. }
  cbn [app]. rewrite Hl. by rewrite decide_True.
Qed.

(** X10.  For a string literal that is not empty and a message that is
  valid UTF-8, [suggestLowercaseFix] suggests a fix exactly when the
  first byte of the message is one of the letters A to Z: the literal is
  replaced by the message with this letter in lower case, between two
  copies of the first character of the literal.  No fix is suggested when
  the message begins with white space or with an upper-case letter above
  ASCII, which [CheckLowercase] reports as well. *)
Theorem suggestLowercaseFix_exactly
      (pass : analysis.Pass) (callPos valuePos : Z) (c : ascii)
      (value literal full msg : string) :
utf8.of_runes (utf8.runes msg) = msg ->
suggestLowercaseFix pass
  {| pos := callPos;
     msgArg := ast.BasicLit valuePos token.STRING (String c value);
     msgLiteral := literal;
     fullExpr := full |} msg =
Done match msg with
     | String c0 t =>
       if unicode.in_range 0x41 0x5A (byte_val c0) then
         [ {| analysis.fix_Message := "lowercase first letter of log message";
              analysis.TextEdits :=
                [ {| analysis.te_Pos := valuePos;
                     analysis.te_End := valuePos + ast.strlen (String c value);
                     analysis.NewText :=
                       utf8.EncodeRune (byte_val c)
                         +:+ String (byte_chr (byte_val c0 + 0x20)) t
                         +:+ utf8.EncodeRune (byte_val c) |} ] |} ]
       else []
     | EmptyString => []
     end.
Proof. apply suggestLowercaseFix_exactly_aux. Qed.

Lemma CheckLowercase_ascii_first (c0 : ascii) (t : string) :
0x41 <= byte_val c0 <= 0x7A ->
CheckLowercase L (String c0 t) =
if unicode.in_range 0x41 0x5A (byte_val c0) then lowercaseDiag else "".
Proof.
intros H.
rewrite (CheckLowercase_first L (String c0 t) [] (utf8.range t)
           (byte_val c0) (str1 c0)).
- destruct (Z.eqb_spec (byte_val c0) utf8.RuneError) as [He | _].
  { unfold utf8.RuneError in He. lia. }
  unfold unicode.IsUpper, unicode.MaxASCII.
  by destruct (Z.leb_spec (byte_val c0) 0x7F); [| lia].
- rewrite range_ascii_cons by lia. done.
- constructor.
- by apply IsSpace_letter.
Qed.

(** X11.  The lowercase fix does its work on a double-quoted literal whose
  text is valid UTF-8, holds no backslash and begins with one of the
  letters A to Z: the message is the text, the rule reports it, the fix
  replaces the literal by the quoted text with its first letter in lower
  case, the value of this new literal is that text, and the rule passes
  it. *)
Theorem lowercase_fix_effective
      (pass : analysis.Pass) (callPos valuePos : Z) (c0 : ascii) (t : string) :
unicode.in_range 0x41 0x5A (byte_val c0) = true ->
strings.has_byte bslash t = false ->
utf8.of_runes (utf8.runes t) = t ->
let lit := ast.BasicLit valuePos token.STRING (quoteASCII (String c0 t)) in
let msg := literalOf pass lit in
let fixed := String (byte_chr (byte_val c0 + 0x20)) t in
msg = String c0 t /\
CheckLowercase L msg = lowercaseDiag /\
suggestLowercaseFix pass
  {| pos := callPos; msgArg := lit; msgLiteral := msg;
     fullExpr := literalsAndIdents lit |} msg =
Done [ {| analysis.fix_Message := "lowercase first letter of log message";
          analysis.TextEdits :=
            [ {| analysis.te_Pos := ast.Pos lit;
                 analysis.te_End := ast.End_ lit;
                 analysis.NewText := quoteASCII fixed |} ] |} ] /\
literalOf pass (ast.BasicLit valuePos token.STRING (quoteASCII fixed)) = fixed /\
CheckLowercase L fixed = "".
Proof.
intros Hup Hb Hvalid lit msg fixed.
apply andb_true_iff in Hup as [Hlo Hhi].
apply Z.leb_le in Hlo, Hhi.
assert (Hlit : forall s, strings.has_byte bslash s = false ->
          literalOf pass (ast.BasicLit valuePos token.STRING (quoteASCII s)) = s).
{ intros s Hs. unfold literalOf. cbn [collectStringParts].
  rewrite decide_True by done. cbn [app strings.Join foldr].
  rewrite append_nil_r. by apply unquoteLit_quoted. }
assert (Hmsg : msg = String c0 t).
{ apply Hlit. cbn [strings.has_byte]. rewrite Hb, orb_false_r.
  apply Ascii.eqb_neq. intros H. apply (f_equal byte_val) in H.
  change (byte_val bslash) with 0x5C in H. lia. }
assert (Hfixed : strings.has_byte bslash fixed = false).
{ unfold fixed. cbn [strings.has_byte]. rewrite Hb, orb_false_r.
  apply Ascii.eqb_neq. intros H. apply (f_equal byte_val) in H.
  rewrite byte_val_chr in H by lia.
  change (byte_val bslash) with 0x5C in H. lia. }
split_and!.
- done.
- rewrite Hmsg, CheckLowercase_ascii_first by lia.
  unfold unicode.in_range.
  destruct (Z.leb_spec 0x41 (byte_val c0)); [| lia].
  by destruct (Z.leb_spec (byte_val c0) 0x5A); [| lia].
- rewrite Hmsg. unfold lit at 1. rewrite quoteASCII_cons.
  rewrite suggestLowercaseFix_exactly_aux.
  + unfold unicode.in_range.
    destruct (Z.leb_spec 0x41 (byte_val c0)); [| lia].
    destruct (Z.leb_spec (byte_val c0) 0x5A); [| lia]. cbn [andb].
    rewrite <- quoteASCII_cons. done.
  + rewrite runes_ascii_cons, of_runes_cons, EncodeRune_ascii, byte_chr_val
      by (unfold unicode.MaxASCII; lia).
    rewrite Hvalid. unfold str1. by rewrite append_cons, append_nil_l.
- by apply Hlit.
- unfold fixed. rewrite CheckLowercase_ascii_first
    by (rewrite byte_val_chr; lia).
  rewrite byte_val_chr by lia. unfold unicode.in_range.
  destruct (Z.leb_spec 0x41 (byte_val c0 + 0x20)); [| lia].
  by destruct (Z.leb_spec (byte_val c0 + 0x20) 0x5A); [lia |].
Qed.

End lowercase_fix.

(** The fix of the literal ["Starting server"]. *)
Lemma suggestLowercaseFix_exactly_witness :
  analyzer.suggestLowercaseFix slog_pass
    {| analyzer.pos := 9;
       analyzer.msgArg :=
         ast.BasicLit 20 token.STRING (quoteASCII "Starting server");
       analyzer.msgLiteral := "Starting server";
       analyzer.fullExpr := quoteASCII "Starting server" |} "Starting server"
  = Done [ {| analysis.fix_Message := "lowercase first letter of log message";
              analysis.TextEdits :=
                [ {| analysis.te_Pos := 20;
                     analysis.te_End := 37;
                     analysis.NewText := quoteASCII "starting server" |} ] |} ].
Proof.
  exact (suggestLowercaseFix_exactly slog_pass 9 20 dquote
           ("Starting server" +:+ str1 dquote) "Starting server"
           (quoteASCII "Starting server") "Starting server" eq_refl).
Defined.

(** The literal ["Starting server"]: reported, fixed, and accepted once
    fixed. *)
Lemma lowercase_fix_effective_witness :
  literalOf slog_pass (ast.BasicLit 20 token.STRING (quoteASCII "Starting server"))
  = "Starting server" /\
  rules.CheckLowercase ascii_lib "Starting server" = rules.lowercaseDiag /\
  analyzer.suggestLowercaseFix slog_pass
    {| analyzer.pos := 9;
       analyzer.msgArg :=
         ast.BasicLit 20 token.STRING (quoteASCII "Starting server");
       analyzer.msgLiteral := "Starting server";
       analyzer.fullExpr := quoteASCII "Starting server" |} "Starting server"
  = Done [ {| analysis.fix_Message := "lowercase first letter of log message";
              analysis.TextEdits :=
                [ {| analysis.te_Pos := 20;
                     analysis.te_End := 37;
                     analysis.NewText := quoteASCII "starting server" |} ] |} ] /\
  literalOf slog_pass (ast.BasicLit 20 token.STRING (quoteASCII "starting server"))
  = "starting server" /\
  rules.CheckLowercase ascii_lib "starting server" = "".
Proof.
  exact (lowercase_fix_effective ascii_lib slog_pass 9 20 "S" "tarting server"
           eq_refl eq_refl eq_refl).
Defined.

(** ** The special-characters rule: compliance *)

Section special_compliance.
Import rules.
Variable L : Go.Lib.

Lemma emojiDiag_ne (r : Z) : emojiDiag L r <> "".
Proof. unfold emojiDiag. rewrite append_cons. discriminate. Qed.

Lemma forbiddenDiag_ne (r : Z) : forbiddenDiag L r <> "".
Proof. unfold forbiddenDiag. rewrite append_cons. discriminate. Qed.

Lemma repeatedDiag_ne (seq : string) : repeatedDiag L seq <> "".
Proof. unfold repeatedDiag. rewrite append_cons. discriminate. Qed.

Lemma offending_accepted (allowedExtra : string) (r : Z) :
offending L (buildForbiddenSet allowedExtra) r = false <->
acceptedRune L allowedExtra r.
Proof.
unfold offending, acceptedRune. rewrite orb_false_iff.
split.
- intros [He Hf]. split; [done |]. intros Hd.
  rewrite (forbidden_is_punct_or_symbol L r Hd) in Hf.
  rewrite andb_true_l in Hf. apply bool_decide_eq_false in Hf.
  rewrite elem_of_buildForbiddenSet in Hf.
  destruct (decide (r ∈ utf8.runes allowedExtra)) as [? | Hn]; [done |].
  by destruct Hf.
- intros [He Hacc]. split; [done |].
  apply andb_false_iff. right. apply bool_decide_eq_false.
  rewrite elem_of_buildForbiddenSet. intros [Hd Hn]. by apply Hn, Hacc.
Qed.

Lemma CheckSpecialChars_loop_some forbidden rs diag :
CheckSpecialChars_loop L forbidden rs = Some diag -> diag <> "".
Proof.
induction rs as [|r rs IH]; simpl; [done |].
destruct (isEmoji L r); [intros [= <-]; apply emojiDiag_ne |].
destruct (_ && _); [intros [= <-]; apply forbiddenDiag_ne | done].
Qed.

Lemma CheckSpecialChars_loop_none_inv forbidden rs :
CheckSpecialChars_loop L forbidden rs = None ->
Forall (fun x => offending L forbidden x = false) rs.
Proof.
induction rs as [|r rs IH]; simpl; [constructor |].
unfold offending at 1.
destruct (isEmoji L r) eqn:He; [done |].
destruct (_ && _) eqn:Hf; [done |].
intros H. constructor; [| by apply IH]. unfold offending. by rewrite He, Hf.
Qed.

Lemma CheckSpecialChars_accepts_iff (msg allowedExtra : string) :
CheckSpecialChars L msg allowedExtra = "" <->
Forall (acceptedRune L allowedExtra) (utf8.runes msg) /\
Forall (fun seq => strings.Contains msg seq = false) ["..."; "!!"; "??"; "***"].
Proof.
rewrite CheckSpecialChars_unfold.
destruct (CheckSpecialChars_loop L _ _) as [diag|] eqn:Hloop.
- split.
  + intros ->. by apply CheckSpecialChars_loop_some in Hloop.
  + intros [Hall _]. rewrite CheckSpecialChars_loop_none in Hloop; [done |].
    eapply Forall_impl; [exact Hall |]. intros r. apply offending_accepted.
- apply CheckSpecialChars_loop_none_inv in Hloop.
  assert (Forall (acceptedRune L allowedExtra) (utf8.runes msg)) as Hall.
  { eapply Forall_impl; [exact Hloop |]. intros r. apply offending_accepted. }
  unfold checkRepeatedPunctuation. cbn [checkRepeatedPunctuation_loop].
  destruct (strings.Contains msg "...") eqn:E1.
  { split; [intros H; by apply repeatedDiag_ne in H |].
    intros [_ H]. apply Forall_cons in H as [H _]. congruence. }
  destruct (strings.Contains msg "!!") eqn:E2.
  { split; [intros H; by apply repeatedDiag_ne in H |].
    intros [_ H]. apply Forall_cons in H as [_ H].
    apply Forall_cons in H as [H _]. congruence. }
  destruct (strings.Contains msg "??") eqn:E3.
  { split; [intros H; by apply repeatedDiag_ne in H |].
    intros [_ H]. do 2 apply Forall_cons in H as [_ H].
    apply Forall_cons in H as [H _]. congruence. }
  destruct (strings.Contains msg "***") eqn:E4.
  { split; [intros H; by apply repeatedDiag_ne in H |].
    intros [_ H]. do 3 apply Forall_cons in H as [_ H].
    apply Forall_cons in H as [H _]. congruence. }
  split; [| done]. intros _. split; [done |]. by repeat constructor.
Qed.

(** X15.  The rule accepts a message exactly when every rune of it is
  accepted (it is not emoji-like, and it is none of the default forbidden
  characters unless it occurs in the allowed ones) and the message holds
  none of the four repeated sequences.  The test for ASCII punctuation
  and symbols in front of the look-up changes nothing. *)
Theorem CheckSpecialChars_accepts_exactly (msg allowedExtra : string) :
CheckSpecialChars L msg allowedExtra = "" <->
Forall (acceptedRune L allowedExtra) (utf8.runes msg) /\
Forall (fun seq => strings.Contains msg seq = false) ["..."; "!!"; "??"; "***"].
Proof. apply CheckSpecialChars_accepts_iff. Qed.

End special_compliance.

(** ** The fix of the special-characters rule: what it keeps *)

Section special_fix_more.
Import rules analyzer.
Variable L : Go.Lib.

Lemma kept_ascii (allowed : gset Z) (r : Z) :
kept L allowed r = true -> r <= unicode.MaxASCII.
Proof. unfold kept. intros [H _]%andb_true_iff. by apply Z.leb_le. Qed.

(** The loop writes the runes it keeps, in order. *)
Lemma cleanSpecialMessage_loop_filter (allowed : gset Z) (rs : list Z) :
cleanSpecialMessage_loop L allowed rs
= utf8.of_runes (List.filter (kept L allowed) rs).
Proof.
induction rs as [|r rs IH]; [done |].
cbn [cleanSpecialMessage_loop List.filter]. rewrite IH.
generalize (List.filter (kept L allowed) rs). intros kept_rs. unfold kept.
destruct (Z.ltb_spec unicode.MaxASCII r) as [Hr | Hr].
{ destruct (Z.leb_spec r unicode.MaxASCII); [lia | done]. }
destruct (Z.leb_spec r unicode.MaxASCII); [| lia]. cbn [andb].
case_decide as Hal.
{ rewrite bool_decide_eq_true_2 by done. done. }
rewrite bool_decide_eq_false_2 by done. cbn [orb].
destruct (strings.ContainsRune defaultForbiddenASCII r); [done |].
cbn [negb andb].
destruct (isSafePunct r); [done |]. cbn [orb].
destruct (unicode.IsPunct L r || unicode.IsSymbol L r); done.
Qed.

Lemma kept_runes_ascii (allowed : gset Z) (s : string) :
Forall (fun r => 0 <= r <= unicode.MaxASCII)
       (List.filter (kept L allowed) (utf8.runes s)).
Proof.
apply List.Forall_forall. intros r [Hin Hk]%List.filter_In.
split; [| by apply (kept_ascii allowed)].
pose proof (runes_nonneg s) as Hnn. rewrite List.Forall_forall in Hnn.
by apply Hnn.
Qed.

Lemma cleanSpecialMessage_filter (msg allowedExtra : string) :
cleanSpecialMessage L msg allowedExtra
= utf8.of_runes (List.filter (kept L (runeSet allowedExtra)) (utf8.runes msg)).
Proof.
unfold cleanSpecialMessage. case_decide as Hm; [by subst msg |].
apply cleanSpecialMessage_loop_filter.
Qed.

(** X13.  The fix is idempotent: cleaning a cleaned message changes
  nothing. *)
Theorem cleanSpecialMessage_idempotent (msg allowedExtra : string) :
cleanSpecialMessage L (cleanSpecialMessage L msg allowedExtra) allowedExtra
= cleanSpecialMessage L msg allowedExtra.
Proof.
rewrite (cleanSpecialMessage_filter (cleanSpecialMessage L msg allowedExtra)).
rewrite (cleanSpecialMessage_filter msg).
rewrite runes_of_runes_ascii by apply kept_runes_ascii.
by rewrite filter_filter.
Qed.

Lemma CheckEnglish_ascii_runes (rs : list Z) :
Forall (fun r => r <= unicode.MaxASCII) rs -> CheckEnglish_loop L rs = "".
Proof.
induction 1 as [|r rs Hr _ IH]; [done |]. cbn [CheckEnglish_loop].
by destruct (Z.leb_spec r unicode.MaxASCII); [| lia].
Qed.

(** X14.  The fix only deletes: its result is made of bytes of the message,
  in their order, and all of them are ASCII, so that the English rule
  accepts the result. *)
Theorem cleanSpecialMessage_only_deletes (msg allowedExtra : string) :
list_ascii_of_string (cleanSpecialMessage L msg allowedExtra)
  `sublist_of` list_ascii_of_string msg /\
Forall (fun c => byte_val c < 0x80)
       (list_ascii_of_string (cleanSpecialMessage L msg allowedExtra)) /\
CheckEnglish L (cleanSpecialMessage L msg allowedExtra) = "".
Proof.
rewrite cleanSpecialMessage_filter. split_and!.
- rewrite <- (range_chunks msg) at 2. unfold utf8.runes.
  pose proof (range_from_ascii_item msg 0) as Hits.
  fold (utf8.range msg) in Hits.
  induction Hits as [|it its Hit _ IH]; [done |].
  rewrite fmap_cons, chunks_cons, list_ascii_of_string_app. simpl.
  destruct (kept L (runeSet allowedExtra) it.1) eqn:Hk.
  + rewrite of_runes_cons, list_ascii_of_string_app.
    rewrite Hit by (by apply (kept_ascii (runeSet allowedExtra))).
    by apply sublist_app.
  + by apply sublist_inserts_l.
- pose proof (kept_runes_ascii (runeSet allowedExtra) msg) as Hall.
  induction Hall as [|r rs Hr _ IH]; [constructor |].
  rewrite of_runes_cons, list_ascii_of_string_app.
  apply Forall_app. split; [| done].
  rewrite EncodeRune_ascii by done. repeat constructor.
  unfold unicode.MaxASCII in Hr. rewrite byte_val_chr; lia.
- unfold CheckEnglish. rewrite runes_of_runes_ascii by apply kept_runes_ascii.
  apply CheckEnglish_ascii_runes.
  eapply Forall_impl; [apply kept_runes_ascii |]. by intros r [_ ?].
Qed.

(** The message is unchanged exactly when every rune of it is kept. *)
Lemma cleanSpecialMessage_unchanged (msg allowedExtra : string) :
cleanSpecialMessage L msg allowedExtra = msg <->
Forall (fun r => kept L (runeSet allowedExtra) r = true) (utf8.runes msg).
Proof.
rewrite cleanSpecialMessage_filter. split.
- intros H. apply filter_fixed.
  rewrite <- H at 2. by rewrite runes_of_runes_ascii by apply kept_runes_ascii.
- intros H. rewrite (proj2 (filter_fixed _ _) H).
  apply of_runes_runes_ascii.
  eapply Forall_impl; [exact H |]. intros r. apply kept_ascii.
Qed.

(** X12.  [cleanSpecialMessage] leaves a message as it is exactly when it
  keeps every rune of it, and for a string literal that is not empty
  [suggestSpecialFix] suggests a fix exactly when it does not: the fix
  is the cleaned message between two copies of the first character of
  the literal, in place of the literal. *)
Theorem suggestSpecialFix_exactly
      (pass : analysis.Pass) (callPos valuePos : Z) (c : ascii)
      (value literal full msg allowedExtra : string) :
let lc := {| pos := callPos;
             msgArg := ast.BasicLit valuePos token.STRING (String c value);
             msgLiteral := literal;
             fullExpr := full |} in
let quote := utf8.EncodeRune (byte_val c) in
(cleanSpecialMessage L msg allowedExtra = msg <->
 Forall (fun r => kept L (runeSet allowedExtra) r = true) (utf8.runes msg)) /\
suggestSpecialFix L pass lc msg allowedExtra =
Done (if forallb (kept L (runeSet allowedExtra)) (utf8.runes msg) then []
      else [ {| analysis.fix_Message :=
                  "remove emoji and noisy special characters from log message";
                analysis.TextEdits :=
                  [ {| analysis.te_Pos := valuePos;
                       analysis.te_End := valuePos + ast.strlen (String c value);
                       analysis.NewText :=
                         quote +:+ cleanSpecialMessage L msg allowedExtra
                               +:+ quote |} ] |} ]).
Proof.
intros lc quote. split; [apply cleanSpecialMessage_unchanged |].
unfold suggestSpecialFix. cbn [msgArg lc].
case_decide as Hm.
{ subst msg. done. }
rewrite decide_False by (intros H; by apply H).
destruct (forallb _ _) eqn:Hall.
- rewrite decide_True; [done |].
  apply cleanSpecialMessage_unchanged. apply List.Forall_forall.
  by apply forallb_forall.
- rewrite decide_False; [done |].
  intros H. apply cleanSpecialMessage_unchanged in H.
  rewrite List.Forall_forall in H. apply forallb_forall in H. congruence.
Qed.

Lemma Contains_absent (c : ascii) (p s : string) :
strings.has_byte c s = false -> strings.Contains s (String c p) = false.
Proof.
induction s as [|d s IH]; intros H; rewrite Contains_unfold.
- done.
- rewrite (HasPrefix_absent c p _ H). cbn [strings.has_byte] in H.
  apply orb_false_iff in H as [_ H]. by rewrite IH.
Qed.

Lemma has_byte_not_plain (c : ascii) (s : string) :
isPlainByte c = false ->
Forall (fun d => isPlainByte d = true) (list_ascii_of_string s) ->
strings.has_byte c s = false.
Proof.
intros Hc Hall. apply not_true_is_false. rewrite has_byte_In. intros Hin.
rewrite List.Forall_forall in Hall. specialize (Hall c Hin). congruence.
Qed.

Lemma plain_cases (c : ascii) :
isPlainByte c = true ->
0x41 <= byte_val c <= 0x5A \/ 0x61 <= byte_val c <= 0x7A \/
0x30 <= byte_val c <= 0x39 \/ byte_val c = 0x20.
Proof.
unfold isPlainByte, unicode.in_range. intros H. bool_to_prop. lia.
Qed.

Lemma plain_not_forbidden (c : ascii) :
isPlainByte c = true -> byte_val c ∉ utf8.runes analyzer.defaultForbiddenASCII.
Proof.
intros Hp%plain_cases. generalize dependent (byte_val c). intros r Hp H.
vm_compute in H.
repeat (apply elem_of_cons in H as [H | H]; [lia |]).
by apply elem_of_nil in H.
Qed.

Lemma plain_not_punct (c : ascii) :
isPlainByte c = true -> byte_val c <> 0x20 ->
unicode.IsPunct L (byte_val c) || unicode.IsSymbol L (byte_val c) = false.
Proof.
intros Hp%plain_cases. generalize dependent (byte_val c). intros r Hp Hsp.
unfold unicode.IsPunct, unicode.IsSymbol, unicode.MaxASCII.
destruct (Z.leb_spec r 0x7F) as [_ | ?]; [| lia].
apply orb_false_iff. split; apply not_true_is_false; intros Hc;
  apply has_code_elem_of in Hc; vm_compute in Hc;
  repeat (apply elem_of_cons in Hc as [Hc | Hc]; [lia |]);
  by apply elem_of_nil in Hc.
Qed.

(** X16.  A message made of ASCII letters, digits and spaces only is
  accepted by the English rule and by the special-characters rule,
  whatever the allowed characters, and the fix of the special-characters
  rule leaves it as it is. *)
Theorem plain_text_accepted (msg allowedExtra : string) :
Forall (fun c => isPlainByte c = true) (list_ascii_of_string msg) ->
CheckEnglish L msg = "" /\
CheckSpecialChars L msg allowedExtra = "" /\
cleanSpecialMessage L msg allowedExtra = msg.
Proof.
intros Hplain.
assert (Hascii : Forall (fun c => byte_val c < 0x80) (list_ascii_of_string msg)).
{ eapply Forall_impl; [exact Hplain |]. intros c Hc%plain_cases. lia. }
pose proof (runes_ascii msg Hascii) as Hrunes.
split_and!.
- unfold CheckEnglish. apply CheckEnglish_ascii_runes. rewrite Hrunes.
  apply Forall_fmap. eapply Forall_impl; [exact Hascii |].
  intros c Hc. unfold compose. cbv beta in Hc |- *. unfold unicode.MaxASCII. lia.
- apply CheckSpecialChars_accepts_iff. split.
  + rewrite Hrunes. apply Forall_fmap. eapply Forall_impl; [exact Hplain |].
    intros c Hc. unfold compose. cbv beta in Hc |- *. split.
    * apply isEmoji_ascii. apply plain_cases in Hc. unfold unicode.MaxASCII. lia.
    * intros Hd. by apply plain_not_forbidden in Hd.
  + repeat constructor; apply Contains_absent;
      by apply has_byte_not_plain.
- apply cleanSpecialMessage_unchanged. rewrite Hrunes. apply Forall_fmap.
  eapply Forall_impl; [exact Hplain |]. intros c Hc.
  unfold compose. cbv beta in Hc |- *.
  unfold kept. pose proof (plain_cases c Hc) as Hr.
  destruct (Z.leb_spec (byte_val c) unicode.MaxASCII) as [_ | Hgt].
  2: { unfold unicode.MaxASCII in Hgt. lia. }
  cbn [andb]. apply orb_true_iff. right.
  rewrite (proj2 (ContainsRune_false _ _) (plain_not_forbidden c Hc)).
  cbn [negb andb].
  destruct (Z.eq_dec (byte_val c) 0x20) as [-> | Hsp]; [done |].
  by rewrite (plain_not_punct c Hc Hsp), orb_true_r.
Qed.

End special_fix_more.

(** The message [server started 42]. *)
Lemma plain_text_accepted_witness :
  rules.CheckEnglish ascii_lib "server started 42" = "" /\
  rules.CheckSpecialChars ascii_lib "server started 42" "" = "" /\
  analyzer.cleanSpecialMessage ascii_lib "server started 42" "" = "server started 42".
Proof.
  apply (plain_text_accepted ascii_lib "server started 42" "").
  repeat constructor.
Defined.


(** ** The tokens of a message *)

Lemma WordRuns_runs (its : list (Z * string)) (toks : list string) :
  WordRuns its toks ->
  Forall (fun tok => exists pre run post,
              its = pre ++ run ++ post /\ run <> [] /\
              Forall (fun it => isWordRune it.1 = true) run /\
              tok = strings.chunks run) toks.
Proof.
  induction 1 as [|it its toks Hit _ IH|run its toks Hne Hrun Hnext _ IH].
  - constructor.
  - eapply Forall_impl; [exact IH |].
    intros tok (pre & run & post & -> & Hne & Hrun & ->).
    by exists (it :: pre), run, post.
  - constructor.
    + by exists [], run, its.
    + eapply Forall_impl; [exact IH |].
      intros tok (pre & run' & post & -> & Hne' & Hrun' & ->).
      exists (run ++ pre), run', post. by rewrite <- app_assoc.
Qed.

Lemma isWordRune_ascii (r : Z) : isWordRune r = true -> 0 <= r <= unicode.MaxASCII.
Proof.
  unfold isWordRune, unicode.in_range, unicode.MaxASCII.
  intros H. repeat (apply orb_true_iff in H as [H | H]).
  - apply andb_true_iff in H as [H1 H2]. apply Z.leb_le in H1, H2. lia.
  - apply andb_true_iff in H as [H1 H2]. apply Z.leb_le in H1, H2. lia.
  - apply Z.eqb_eq in H. lia.
Qed.

Lemma chunks_word_run (run : list (Z * string)) :
  Forall (fun it => it.1 <= unicode.MaxASCII -> it.2 = utf8.EncodeRune it.1) run ->
  Forall (fun it => isWordRune it.1 = true) run ->
  Forall (fun c => isWordRune (byte_val c) = true)
         (list_ascii_of_string (strings.chunks run)) /\
  (run <> [] -> strings.chunks run <> "").
Proof.
  induction 1 as [|it run Hit _ IH]; intros Hw; [done |].
  apply Forall_cons in Hw as [Hw Hws].
  pose proof (isWordRune_ascii _ Hw) as Hr.
  rewrite chunks_cons, Hit, EncodeRune_ascii by lia. split.
  - rewrite list_ascii_of_string_app. apply Forall_app. split; [| by apply IH].
    repeat constructor. unfold unicode.MaxASCII in Hr.
    rewrite byte_val_chr by lia. done.
  - intros _. unfold str1. rewrite append_cons. discriminate.
Qed.

(** X17.  Every token of a text is a run of bytes of the text that is not
    empty and is made of lower-case ASCII letters, digits and underscores
    only. *)
Theorem tokenizeWords_tokens (s : string) :
  Forall (fun tok =>
            tok <> "" /\
            Forall (fun c => isWordRune (byte_val c) = true)
                   (list_ascii_of_string tok) /\
            strings.Contains s tok = true)
         (rules.tokenizeWords s).
Proof.
  pose proof (WordRuns_runs _ _ (tokenizeWords_runs s)) as H.
  eapply Forall_impl; [exact H |].
  intros tok (pre & run & post & Hs & Hne & Hrun & ->).
  pose proof (range_from_ascii_item s 0) as Hits.
  fold (utf8.range s) in Hits. rewrite Hs in Hits.
  apply Forall_app in Hits as [_ Hits]. apply Forall_app in Hits as [Hits _].
  destruct (chunks_word_run run Hits Hrun) as [Hbytes Hnil].
  split_and!; [by apply Hnil | done |].
  apply Contains_spec. exists (strings.chunks pre), (strings.chunks post).
  by rewrite <- !chunks_app, <- Hs, range_chunks.
Qed.

(** ** The token rule and the substring rule *)

Section sensitive_more.
Import rules.
Variable L : Go.Lib.

Lemma token_hit_substring (msg kw : string) :
tokens_loop kw (tokenizeWords msg) = true -> strings.Contains msg kw = true.
Proof.
intros H. apply tokens_loop_spec, msgHit_token in H.
pose proof (tokenizeWords_tokens msg) as Hall.
rewrite Forall_forall in Hall. by destruct (Hall kw H) as (_ & _ & ?).
Qed.

Lemma sensitiveMsgDiag_not_expr (a b : string) :
sensitiveMsgDiag L a <> sensitiveExprDiag L b.
Proof.
unfold sensitiveMsgDiag, sensitiveExprDiag. intros H.
apply append_inv_head in H. apply (f_equal strings.rev) in H.
rewrite !rev_app in H.
change (strings.rev " found in message text)")
  with (String ")" (String "t" "xet egassem ni dnuof ")) in H.
change (strings.rev " found in argument expression)")
  with (String ")" (String "n" "oisserpxe tnemugra ni dnuof ")) in H.
rewrite !append_cons in H. discriminate.
Qed.

Lemma basic_CheckSensitive_loop_hit (lower lowerExpr kw : string)
    (keywords : list string) :
kw ∈ keywords ->
strings.Contains lower (strings.ToLower L kw) = true ->
basic.CheckSensitive_loop L lower lowerExpr keywords <> "".
Proof.
intros Hin Hc. induction keywords as [|k keywords IH]; [by apply elem_of_nil in Hin |].
cbn [basic.CheckSensitive_loop].
destruct (strings.Contains lower (strings.ToLower L k)) eqn:Hk;
  [apply sensitiveMsgDiag_ne |].
destruct (strings.Contains (basic.normalizeExpr lowerExpr) _);
  [apply sensitiveExprDiag_ne |].
apply elem_of_cons in Hin as [-> | Hin]; [congruence | by apply IH].
Qed.

(** X18.  What the token rule finds in the text of a message, the
  substring rule finds as well: when a keyword is matched as a token of
  the lower-cased message, it occurs in the lower-cased message, and when
  [rules.CheckSensitive] reports a keyword found in the message text,
  [basic.CheckSensitive] reports the call too. *)
Theorem token_findings_are_substring_findings
      (msg fullExpr : string) (keywords : list string) :
(forall kw,
    tokens_loop (strings.ToLower L kw) (tokenizeWords (strings.ToLower L msg)) = true ->
    strings.Contains (strings.ToLower L msg) (strings.ToLower L kw) = true) /\
(forall kw,
    rules.CheckSensitive L msg fullExpr keywords = sensitiveMsgDiag L kw ->
    basic.CheckSensitive L msg fullExpr keywords <> "").
Proof.
split; [intros kw; apply token_hit_substring |].
intros kw Hres.
destruct (CheckSensitive_first_hit L msg fullExpr keywords)
  as [[He _] | (pre & k & post & Hk & _ & [[Hhit Hr] | (_ & _ & Hr)])].
- rewrite He in Hres. symmetry in Hres. by apply sensitiveMsgDiag_ne in Hres.
- unfold basic.CheckSensitive.
  apply (basic_CheckSensitive_loop_hit _ _ k).
  + rewrite Hk. apply elem_of_app. right. apply elem_of_cons. by left.
  + by apply token_hit_substring, tokens_loop_spec.
- rewrite Hr in Hres. symmetry in Hres. by apply sensitiveMsgDiag_not_expr in Hres.
Qed.

Lemma tokens_loop_no_empty (msg : string) :
tokens_loop "" (tokenizeWords msg) = false.
Proof.
apply not_true_is_false. intros H.
apply tokens_loop_spec, msgHit_token in H.
pose proof (tokenizeWords_tokens msg) as Hall.
rewrite Forall_forall in Hall. by destruct (Hall "" H) as (? & _).
Qed.

Lemma Contains_empty (s : string) : strings.Contains s "" = true.
Proof. rewrite Contains_unfold. by destruct s. Qed.

Lemma CheckSensitive_loop_blank (tokens : list string) (fullExpr kw : string)
    (keywords : list string) :
kw ∈ keywords ->
removeByte "_" (strings.ToLower L kw) = "" ->
CheckSensitive_loop L tokens (strings.ToLower L fullExpr) keywords <> "".
Proof.
intros Hin Hkw.
induction keywords as [|k keywords IH]; [by apply elem_of_nil in Hin |].
rewrite CheckSensitive_loop_cons.
destruct (tokens_loop _ _); [apply sensitiveMsgDiag_ne |].
destruct (exprHit L fullExpr k) eqn:Hk; [apply sensitiveExprDiag_ne |].
apply elem_of_cons in Hin as [-> | Hin]; [| by apply IH].
unfold exprHit in Hk.
change "_" with (str1 "_") in Hk at 1.
rewrite (ReplaceAll_byte "_" (strings.ToLower L k)), Hkw, Contains_empty in Hk.
done.
Qed.

(** X19.  A keyword that is empty, or made of underscores only, makes the
  rule report every call, whatever the message and the expression: the
  search for the empty string in the expression always succeeds.  For the
  empty keyword first in the list, the diagnostic names the argument
  expression. *)
Theorem CheckSensitive_blank_keyword
      (msg fullExpr : string) (keywords : list string) :
(forall kw,
    kw ∈ keywords ->
    removeByte "_" (strings.ToLower L kw) = "" ->
    rules.CheckSensitive L msg fullExpr keywords <> "") /\
rules.CheckSensitive L msg fullExpr ("" :: keywords) = sensitiveExprDiag L "".
Proof.
split.
- intros kw Hin Hkw. unfold rules.CheckSensitive.
  by apply (CheckSensitive_loop_blank _ _ kw).
- unfold rules.CheckSensitive. rewrite CheckSensitive_loop_cons.
  change (strings.ToLower L "") with "".
  rewrite tokens_loop_no_empty.
  unfold exprHit. change (strings.ToLower L "") with "".
  change (strings.ReplaceAll "" "_" "") with "".
  by rewrite Contains_empty.
Qed.

(** *** String literals in the expression *)

Lemma stripStringLiterals_loop_no_quote (c : ascii) (rs : list Z)
    (inDouble inRaw escape : bool) :
byte_val c = 0x22 \/ byte_val c = 0x60 ->
strings.has_byte c (stripStringLiterals_loop rs inDouble inRaw escape) = false.
Proof.
intros Hc.
assert (Hsp : strings.has_byte c " " = false).
{ cbn [strings.has_byte]. rewrite orb_false_r. apply Ascii.eqb_neq. intros ->.
  by destruct Hc as [Hc | Hc]; vm_compute in Hc. }
revert inDouble inRaw escape.
induction rs as [|r rs IH]; intros inDouble inRaw escape; [done |].
cbn [stripStringLiterals_loop].
destruct inRaw.
{ destruct (r =? 0x60); [| apply IH]. by rewrite has_byte_app, Hsp, IH. }
destruct inDouble.
{ destruct escape; [apply IH |]. destruct (r =? 0x5C); [apply IH |].
  destruct (r =? 0x22); [| apply IH]. by rewrite has_byte_app, Hsp, IH. }
destruct (Z.eqb_spec r 0x22); [by rewrite has_byte_app, Hsp, IH |].
destruct (Z.eqb_spec r 0x60); [by rewrite has_byte_app, Hsp, IH |].
rewrite has_byte_app, IH, orb_false_r.
apply EncodeRune_has_byte; lia.
Qed.

Lemma stripStringLiterals_loop_plain (rs : list Z) :
Forall (fun r => r <> 0x22 /\ r <> 0x60) rs ->
stripStringLiterals_loop rs false false false = utf8.of_runes rs.
Proof.
induction 1 as [|r rs [H1 H2] _ IH]; [done |].
cbn [stripStringLiterals_loop].
destruct (Z.eqb_spec r 0x22); [done |].
destruct (Z.eqb_spec r 0x60); [done |].
by rewrite IH.
Qed.

(** X20.  The result of [stripStringLiterals] holds no double quote and no
  backquote, whatever the expression.  An expression that holds none (and
  is valid UTF-8) is returned as it is, and a double-quoted literal
  without a backslash at the head of an expression is replaced by two
  spaces. *)
Theorem stripStringLiterals_quotes (expr : string) :
strings.has_byte dquote (stripStringLiterals expr) = false /\
strings.has_byte bquote (stripStringLiterals expr) = false /\
(Forall (fun r => r <> 0x22 /\ r <> 0x60) (utf8.runes expr) ->
 utf8.of_runes (utf8.runes expr) = expr ->
 stripStringLiterals expr = expr) /\
(forall body rest,
    utf8.runes expr = 0x22 :: body ++ 0x22 :: rest ->
    Forall (fun r => r <> 0x22 /\ r <> 0x5C) body ->
    stripStringLiterals expr =
    "  " +:+ stripStringLiterals_loop rest false false false).
Proof.
unfold stripStringLiterals. split_and!.
- apply stripStringLiterals_loop_no_quote. by left.
- apply stripStringLiterals_loop_no_quote. by right.
- intros Hall Hvalid. by rewrite stripStringLiterals_loop_plain.
- intros body rest -> Hbody.
  by rewrite (stripStringLiterals_loop_quoted body rest Hbody).
Qed.

End sensitive_more.

(** ** The pass *)

Section pass.
Import analysis analyzer.
Variable L : Go.Lib.

Lemma extractLogCall_cases (pass : Pass) (fn : ast.Expr) (lparen : Z)
    (args : list ast.Expr) (rparen : Z) :
extractLogCall L pass fn lparen args rparen =
Done match fn, args with
     | ast.SelectorExpr x sel, a :: _ =>
       if isSupportedLogMethod pass x sel then Some (logCallOf pass x a)
       else None
     | _, _ => None
     end.
Proof.
unfold extractLogCall.
destruct fn as [| | | |x sel| | | |]; try (by destruct args).
destruct (isSupportedLogMethod pass x sel); cbn [negb]; [| by destruct args].
unfold messageArgIndex. destruct args as [|a rest]; [done |].
cbn [length]. rewrite orb_false_l.
destruct (Z.leb_spec (Z.of_nat (S (length rest))) 0) as [H | _]; [lia |].
change (index (a :: rest) 0) with (Done (A := ast.Expr) a). cbn.
unfold logCallOf, literalOf. f_equal. f_equal. f_equal.
change (exprToString L pass (Some a) = literalsAndIdents a).
unfold exprToString. rewrite sourceFragment_empty.
destruct (_ && _); (case_decide; [done |]); by rewrite Inspect_writeNode.
Qed.

(** X8.  [extractLogCall] never panics, and it makes a log call of a call
  exactly when the callee is a selector [x.sel] whose name is one of the
  log methods and whose object is known and belongs to a supported
  package, and the call has an argument.  The message argument is then
  the first argument, whatever the method; the message is its literal
  value, the expression text is that of its literals and identifiers, and
  the position is that of the call. *)
Theorem extractLogCall_exactly (pass : Pass) (fn : ast.Expr) (lparen : Z)
      (args : list ast.Expr) (rparen : Z) (lc : logCall) :
(extractLogCall L pass fn lparen args rparen = Done (Some lc) <->
 exists x sel obj a rest,
   fn = ast.SelectorExpr x sel /\
   isLogMethod (ast.Name sel) = true /\
   TypesInfo_Uses pass !! ast.NamePos sel = Some obj /\
   isSupportedPackage (pkgPathOf obj) = true /\
   args = a :: rest /\
   lc = {| pos := ast.Pos (ast.CallExpr fn lparen args rparen);
           msgArg := a;
           msgLiteral := (extractStringValue L pass a).1;
           fullExpr := literalsAndIdents a |}) /\
(extractLogCall L pass fn lparen args rparen = Done None \/
 exists lc', extractLogCall L pass fn lparen args rparen = Done (Some lc')).
Proof.
rewrite extractLogCall_cases. split.
- split.
  + destruct fn as [| | | |x sel| | | |]; try done.
    destruct args as [|a rest]; [done |].
    destruct (isSupportedLogMethod pass x sel) eqn:Hm; [| done].
    intros [= <-]. unfold isSupportedLogMethod in Hm.
    destruct (isLogMethod (ast.Name sel)) eqn:Hl; [| done]. cbn [negb] in Hm.
    destruct (TypesInfo_Uses pass !! ast.NamePos sel) as [obj|] eqn:Hu; [| done].
    by exists x, sel, obj, a, rest.
  + intros (x & sel & obj & a & rest & -> & Hl & Hu & Hp & -> & ->).
    unfold isSupportedLogMethod. by rewrite Hl, Hu, Hp.
- destruct fn as [| | | |x sel| | | |]; try (by left).
  destruct args as [|a rest]; [by left |].
  destruct (isSupportedLogMethod pass x sel); [right; by eexists | by left].
Qed.

Lemma firstByte_cons (c : ascii) (v : string) :
firstByte (String c v) = Done (utf8.EncodeRune (byte_val c)).
Proof. reflexivity. Qed.

Lemma literalOf_lit (pass : Pass) (p : Z) (value : string) :
literalOf pass (ast.BasicLit p token.STRING value) = unquoteLit value.
Proof.
unfold literalOf. cbn [collectStringParts]. rewrite decide_True by done.
cbn [app strings.Join foldr]. apply append_nil_r.
Qed.

Lemma suggestLowercaseFix_shape (pass : Pass) (lc : logCall) :
msgLiteral lc = literalOf pass (msgArg lc) ->
exists fixes,
  suggestLowercaseFix pass lc (msgLiteral lc) = Done fixes /\
  Forall (fun f => exists text,
              TextEdits f = [ {| te_Pos := ast.Pos (msgArg lc);
                                 te_End := ast.End_ (msgArg lc);
                                 NewText := text |} ]) fixes.
Proof.
intros Hwf. unfold suggestLowercaseFix.
case_decide as Hm; [by exists [] |].
destruct (msgArg lc) as [| |p kind value| | | | | |] eqn:Harg; try (by exists []).
case_decide as Hk; [by exists [] |].
destruct (utf8.runes (msgLiteral lc)) as [|r0 rest]; [by exists [] |].
case_decide as Hf; [by exists [] |].
assert (kind = token.STRING) as -> by (by destruct (decide (kind = token.STRING))).
destruct value as [|c v].
{ rewrite literalOf_lit in Hwf. by destruct Hm. }
rewrite firstByte_cons. eexists. split; [reflexivity |].
repeat constructor. by eexists.
Qed.

Lemma suggestSpecialFix_shape (pass : Pass) (lc : logCall) (allowedExtra : string) :
msgLiteral lc = literalOf pass (msgArg lc) ->
exists fixes,
  suggestSpecialFix L pass lc (msgLiteral lc) allowedExtra = Done fixes /\
  Forall (fun f => exists text,
              TextEdits f = [ {| te_Pos := ast.Pos (msgArg lc);
                                 te_End := ast.End_ (msgArg lc);
                                 NewText := text |} ]) fixes.
Proof.
intros Hwf. unfold suggestSpecialFix.
case_decide as Hm; [by exists [] |].
destruct (msgArg lc) as [| |p kind value| | | | | |] eqn:Harg; try (by exists []).
case_decide as Hk; [by exists [] |].
case_decide as Hf; [by exists [] |].
assert (kind = token.STRING) as -> by (by destruct (decide (kind = token.STRING))).
destruct value as [|c v].
{ rewrite literalOf_lit in Hwf. by destruct Hm. }
rewrite firstByte_cons. eexists. split; [reflexivity |].
repeat constructor. by eexists.
Qed.

Lemma filter_nonempty_4 (a b c d : string) :
filter (fun m : string => m <> "") [a; b; c; d] =
(if decide (a <> "") then [a] else []) ++
(if decide (b <> "") then [b] else []) ++
(if decide (c <> "") then [c] else []) ++
(if decide (d <> "") then [d] else []).
Proof.
rewrite !filter_cons, filter_nil.
by repeat case_decide.
Qed.

Lemma analyseCall_spec (pass : Pass) (cfg : config.Config) (lc : logCall) :
msgLiteral lc = literalOf pass (msgArg lc) ->
exists new,
  (forall reported,
      analyseCall L pass cfg lc reported = Done (reported ++ new)) /\
  d_Message <$> new = ruleMessages L cfg lc /\
  Forall (onMessageArg lc) new.
Proof.
intros Hwf.
destruct (suggestLowercaseFix_shape pass lc Hwf) as (fixes1 & Hfix1 & Hshape1).
destruct (suggestSpecialFix_shape pass lc (config.AllowedSpecialChars cfg) Hwf)
  as (fixes3 & Hfix3 & Hshape3).
set (msg := msgLiteral lc) in *.
set (mk := fun diag fixes =>
             {| d_Pos := ast.Pos (msgArg lc); d_End := ast.End_ (msgArg lc);
                d_Message := diag; SuggestedFixes := fixes |}).
set (m1 := if config.IsRuleEnabled cfg config.RuleLowercase
           then rules.CheckLowercase L msg else "").
set (m2 := if config.IsRuleEnabled cfg config.RuleEnglish
           then rules.CheckEnglish L msg else "").
set (m3 := if config.IsRuleEnabled cfg config.RuleSpecial
           then rules.CheckSpecialChars L msg (config.AllowedSpecialChars cfg)
           else "").
set (m4 := if config.IsRuleEnabled cfg config.RuleSensitive
           then rules.CheckSensitive L msg (fullExpr lc)
                  (config.SensitiveKeywords cfg)
           else "").
exists ((if decide (m1 <> "") then [mk m1 fixes1] else []) ++
        (if decide (m2 <> "") then [mk m2 []] else []) ++
        (if decide (m3 <> "") then [mk m3 fixes3] else []) ++
        (if decide (m4 <> "") then [mk m4 []] else [])).
split_and!.
- intros reported. unfold analyseCall. fold msg. rewrite Hfix1, Hfix3.
  unfold reportDiagnostic. subst m1 m2 m3 m4.
  destruct (config.IsRuleEnabled cfg config.RuleLowercase),
           (config.IsRuleEnabled cfg config.RuleEnglish),
           (config.IsRuleEnabled cfg config.RuleSpecial),
           (config.IsRuleEnabled cfg config.RuleSensitive);
    repeat case_decide; try done; cbn;
    rewrite <- ?app_assoc; cbn [app]; rewrite ?app_nil_r; reflexivity.
- unfold ruleMessages. fold msg m1 m2 m3 m4. rewrite filter_nonempty_4.
  rewrite !fmap_app. by repeat case_decide.
- repeat (apply Forall_app; split); case_decide; repeat constructor; done.
Qed.

(** X4.  On a log call whose message is the literal value of its message
  argument, as [extractLogCall] makes them, [analyseCall] never panics.
  It appends to the diagnostics reported so far the messages of the
  enabled rules that are not empty, in the order lowercase, English,
  special characters, sensitive data; a disabled rule adds nothing.
  Every new diagnostic has the range of the message argument, and each
  of its fixes is one edit of exactly this range. *)
Theorem analyseCall_reports (pass : Pass) (cfg : config.Config) (lc : logCall)
      (reported : list Diagnostic) :
msgLiteral lc = literalOf pass (msgArg lc) ->
exists new,
  analyseCall L pass cfg lc reported = Done (reported ++ new) /\
  d_Message <$> new = ruleMessages L cfg lc /\
  Forall (onMessageArg lc) new.
Proof.
intros Hwf. destruct (analyseCall_spec pass cfg lc Hwf) as (new & H1 & H2 & H3).
exists new. by split_and!.
Qed.

Lemma visitNode_spec (pass : Pass) (cfg : config.Config) (n : ast.Expr) :
exists new, forall reported,
  visitNode L pass cfg n reported = Done (reported ++ new).
Proof.
unfold visitNode.
destruct n as [| | | | | |fn lparen args rparen| |];
  try (exists []; intros reported; by rewrite app_nil_r).
rewrite extractLogCall_cases. cbn.
destruct fn as [| | | |x sel| | | |];
  try (exists []; intros reported; by rewrite app_nil_r).
destruct args as [|a rest];
  [exists []; intros reported; by rewrite app_nil_r |].
destruct (isSupportedLogMethod pass x sel);
  [| exists []; intros reported; by rewrite app_nil_r].
destruct (analyseCall_spec pass cfg (logCallOf pass x a) eq_refl) as (new & H & _).
by exists new.
Qed.

Lemma visitNode_diagnosticsOf (pass : Pass) (cfg : config.Config) (n : ast.Expr)
    (reported : list Diagnostic) :
visitNode L pass cfg n reported = Done (reported ++ diagnosticsOf L pass cfg n).
Proof.
destruct (visitNode_spec pass cfg n) as [new H].
unfold diagnosticsOf. rewrite (H []). apply H.
Qed.

Lemma runPass_loop_spec (pass : Pass) (cfg : config.Config)
    (nodes : list ast.Expr) (reported : list Diagnostic) :
runPass_loop L pass cfg nodes reported
= Done (reported ++ concat (diagnosticsOf L pass cfg <$> nodes)).
Proof.
revert reported. induction nodes as [|n nodes IH]; intros reported.
- cbn. by rewrite app_nil_r.
- cbn [runPass_loop]. rewrite visitNode_diagnosticsOf. cbn.
  rewrite IH. by rewrite <- app_assoc.
Qed.

(** X7.  [runPass] never panics, whatever the pass, the configuration and
  the nodes.  Its diagnostics are those of the nodes one by one, in
  order: what is reported on a node depends on the node only, not on what
  was reported before.  A node that is no call reports nothing, and
  neither does a call that [extractLogCall] rejects. *)
Theorem runPass_node_by_node (pass : Pass) (cfg : config.Config)
      (nodes : list ast.Expr) :
runPass L pass cfg nodes = Done (concat (diagnosticsOf L pass cfg <$> nodes)) /\
(forall n reported,
    visitNode L pass cfg n reported
    = Done (reported ++ diagnosticsOf L pass cfg n)) /\
(forall n,
    match n with
    | ast.CallExpr fn lparen args rparen =>
      extractLogCall L pass fn lparen args rparen = Done None ->
      diagnosticsOf L pass cfg n = []
    | _ => diagnosticsOf L pass cfg n = []
    end).
Proof.
split_and!.
- unfold runPass. by rewrite runPass_loop_spec.
- apply visitNode_diagnosticsOf.
- intros n. unfold diagnosticsOf, visitNode.
  destruct n; try done. by intros ->.
Qed.

End pass.

(** The call [slog.Info("Starting Server!!!")] with the default
    configuration. *)
Lemma analyseCall_reports_witness :
  exists new,
    analyzer.analyseCall ascii_lib slog_pass config.DefaultConfig
      (logCallOf slog_pass slog_Info
         (ast.BasicLit 20 token.STRING (quoteASCII "Starting Server!!!"))) []
    = Done ([] ++ new) /\
    analysis.d_Message <$> new
    = ruleMessages ascii_lib config.DefaultConfig
        (logCallOf slog_pass slog_Info
           (ast.BasicLit 20 token.STRING (quoteASCII "Starting Server!!!"))) /\
    Forall (onMessageArg
              (logCallOf slog_pass slog_Info
                 (ast.BasicLit 20 token.STRING (quoteASCII "Starting Server!!!"))))
           new.
Proof.
  apply (analyseCall_reports ascii_lib slog_pass config.DefaultConfig
           (logCallOf slog_pass slog_Info
              (ast.BasicLit 20 token.STRING (quoteASCII "Starting Server!!!")))
           []).
  vm_compute. reflexivity.
Defined.

(** ** The configuration file *)

Section configuration.
Import config.
Variable L : Go.Lib.
Variable env : Env.

Lemma assignAll_lookup (l : list (string * bool)) (m : gmap string bool) :
NoDup l.*1 ->
exists m', assignAll (Some m) l = Done (Some m') /\
  forall k, m' !! k = match list_to_map (M := gmap string bool) l !! k with
                      | Some v => Some v
                      | None => m !! k
                      end.
Proof.
revert m. induction l as [|[k v] l IH]; intros m Hnd.
- exists m. split; [done |]. intros k. simpl. by rewrite lookup_empty.
- apply NoDup_cons in Hnd as [Hk Hnd]. simpl.
  destruct (IH (<[k := v]> m) Hnd) as (m' & -> & Hm'). exists m'.
  split; [done |]. intros k'. rewrite Hm'.
  destruct (decide (k' = k)) as [-> | Hne].
  + rewrite lookup_insert_eq.
    rewrite (not_elem_of_list_to_map_1 _ k Hk). by rewrite lookup_insert_eq.
  + rewrite !(lookup_insert_ne _ _ _ _) by done. done.
Qed.

Lemma DefaultConfig_rules_true (m : gmap string bool) (k : string) (b : bool) :
Rules DefaultConfig = Some m -> m !! k = Some b -> b = true.
Proof.
intros [= <-] H.
repeat (apply lookup_insert_Some in H as [[_ <-] | [_ H]]; [done |]).
by rewrite lookup_empty in H.
Qed.

Lemma Load_spec (path : string) :
match ReadFile env path with
| ReadNotExist _ => Load L env path = Done (inl DefaultConfig)
| ReadError _ => exists err, Load L env path = Done (inr err)
| ReadData data =>
  match Unmarshal env data with
  | inr _ => exists err, Load L env path = Done (inr err)
  | inl file =>
    exists cfg,
      Load L env path = Done (inl cfg) /\
      (forall name,
          IsRuleEnabled cfg name =
          match file_Rules file ≫= (fun rules => rules !! name) with
          | Some enabled => enabled
          | None => true
          end) /\
      SensitiveKeywords cfg =
        defaultSensitiveKeywords ++ file_SensitiveKeywords file /\
      AllowedSpecialChars cfg = file_AllowedSpecialChars file
  end
end.
Proof.
unfold Load. destruct (ReadFile env path) as [data|e|e]; [| done | by eexists].
destruct (Unmarshal env data) as [file|e]; [| by eexists].
assert (exists rules : gmap string bool,
           match file_Rules file with
           | Some fileRules => assignAll (Rules DefaultConfig) (map_to_list fileRules)
           | None => mret (Rules DefaultConfig)
           end = Done (Some rules) /\
           forall name,
             match rules !! name with Some enabled => enabled | None => true end =
             match file_Rules file ≫= (fun rules => rules !! name) with
             | Some enabled => enabled
             | None => true
             end) as (rules & -> & Hrules).
{ assert (exists m0, Rules DefaultConfig = Some m0) as [m0 E0] by (by eexists).
  rewrite E0. destruct (file_Rules file) as [fr|]; simpl.
  - destruct (assignAll_lookup (map_to_list fr) m0
                (NoDup_fst_map_to_list fr)) as (m' & -> & Hm').
    exists m'. split; [done |]. intros name. rewrite Hm'.
    rewrite list_to_map_to_list.
    destruct (fr !! name); [done |].
    destruct (m0 !! name) as [b|] eqn:E; [| done].
    by apply (DefaultConfig_rules_true m0 name b).
  - exists m0. split; [done |]. intros name.
    destruct (m0 !! name) as [b|] eqn:E; [| done].
    by apply (DefaultConfig_rules_true m0 name b). }
simpl. eexists. split; [done |]. split_and!.
- intros name. unfold IsRuleEnabled. simpl. apply Hrules.
- destruct (file_SensitiveKeywords file); reflexivity.
- simpl. case_decide as H; [done |].
  destruct (decide (file_AllowedSpecialChars file = "")) as [-> | ?]; done.
Qed.

(** X21.  [Load] never panics.  A file that does not exist gives the default
  configuration and no error; a file that cannot be read or parsed gives
  an error.  Otherwise the file is merged into the default
  configuration: a rule is disabled exactly when the file sets it to
  false, the keywords are the default ones followed by those of the file
  (the file cannot remove a default keyword), and the allowed characters
  are those of the file. *)
Theorem Load_merges_file (path : string) :
match ReadFile env path with
| ReadNotExist _ => Load L env path = Done (inl DefaultConfig)
| ReadError _ => exists err, Load L env path = Done (inr err)
| ReadData data =>
  match Unmarshal env data with
  | inr _ => exists err, Load L env path = Done (inr err)
  | inl file =>
    exists cfg,
      Load L env path = Done (inl cfg) /\
      (forall name,
          IsRuleEnabled cfg name =
          match file_Rules file ≫= (fun rules => rules !! name) with
          | Some enabled => enabled
          | None => true
          end) /\
      SensitiveKeywords cfg =
        defaultSensitiveKeywords ++ file_SensitiveKeywords file /\
      AllowedSpecialChars cfg = file_AllowedSpecialChars file
  end
end.
Proof. apply Load_spec. Qed.

Lemma Load_done (path : string) :
exists r, Load L env path = Done r.
Proof.
pose proof (Load_spec path) as H.
destruct (ReadFile env path); [| by eexists | by destruct H as [? ->]; eexists].
destruct (Unmarshal env data); [destruct H as (? & -> & _) | destruct H as [? ->]];
  by eexists.
Qed.

(** X22.  The entry points run the same pass.  The variable [Analyzer] and
  the analyzer of the plugin are [NewAnalyzer] of the configuration of
  [.loglinter.yaml], and the analyzer of the command runs [runPass] with
  the configuration of the file its flag names, of [.loglinter.yaml]
  when the flag is [nil] or empty.  In each case a configuration that
  cannot be loaded is replaced by the default one, and nothing panics
  while it is loaded.  [NewAnalyzer] of [nil] runs with the default
  configuration. *)
Theorem entry_points_run_the_pass
      (flag : option string) (pass : analysis.Pass) (nodes : list ast.Expr) :
analyzer.Analyzer L env
= Done (analyzer.NewAnalyzer L (Some (effectiveConfig L env ".loglinter.yaml"))) /\
plugin.GetAnalyzers L env
= Done [analyzer.NewAnalyzer L (Some (effectiveConfig L env ".loglinter.yaml"))] /\
analysis.a_Run (analyzer.NewFlagConfiguredAnalyzer L env flag) pass nodes
= analyzer.runPass L pass (effectiveConfig L env (configFile flag)) nodes /\
(forall cfg,
    analysis.a_Run (analyzer.NewAnalyzer L cfg) pass nodes
    = analyzer.runPass L pass (default DefaultConfig cfg) nodes).
Proof.
split_and!.
- unfold analyzer.Analyzer, analyzer.loadConfigOrDefault, effectiveConfig.
  destruct (Load_done ".loglinter.yaml") as [r ->]. by destruct r.
- unfold plugin.GetAnalyzers, effectiveConfig.
  destruct (Load_done ".loglinter.yaml") as [r ->]. by destruct r.
- unfold analyzer.NewFlagConfiguredAnalyzer, analyzer.newBaseAnalyzer.
  cbn [analysis.a_Run].
  assert (match flag with
          | Some p => if decide (p <> "") then p else ".loglinter.yaml"
          | None => ".loglinter.yaml"
          end = configFile flag) as ->.
  { unfold configFile. destruct flag as [p|]; [| done].
    destruct (decide (p = "")); by repeat case_decide. }
  unfold effectiveConfig.
  destruct (Load_done (configFile flag)) as [r ->]. by destruct r.
- intros cfg. by destruct cfg.
Qed.

End configuration.
